(** * Interaction tracker of [src/js/database.js]

    A shallow embedding of the browser-side tracker: the process-wide state
    ([currentSession], [currentAttempts]), the client storage, and the six
    operations bundled as [window.databaseTracking].  The hosted store is an
    external collaborator: the tracker is written against an arbitrary store
    behaviour [exec], and a reference store is given for the statements that
    speak about the rows the store holds.

    Conventions of the embedding.
    - An [async] function is a state-passing computation [Js A]; the calls of
      a sequence run one after the other (each [await] completes before the
      next statement), which is the sequential reading the statements below
      are about.
    - A JS exception is the [Thrown] completion; [try_catch] is [try/catch].
    - [console.log/warn/error] have no effect on the state and are left out
      of the operations; [formatSupabaseError], which only builds their text,
      is modelled on its own.
    - [currentAttempts] is a plain JS object used as a map from prefix to
      row: its own properties, a [gmap] in which a stored [null] is kept as
      [Some None], and its prototype.  A read goes through the prototype
      chain, so that names such as [constructor] are found although nothing
      was stored under them, and an assignment to [__proto__] replaces the
      prototype.
    - Numbers are doubles: the attempt number of a row is an integer held as
      a double, and [+ 1] is exact below 2^53 only.
    - Scores, input values, validation results and timestamps, which the
      tracker only passes on, are strings. *)

From Stdlib Require Import ZArith NArith List String Ascii Lia.
From stdpp Require Import base option list strings gmap pretty.

Local Open Scope string_scope.
Local Open Scope Z_scope.

(** ** Data model *)

Abbreviation Id := N.

(** A number as the tracker computes it: an integer, or [NaN]. *)
Inductive JsNum :=
  | NaN
  | Num (n : Z).

(** The error object of a store response ([err.message], [err.code], ...). *)
Record StoreError := {
  message : option string;
  code : option string;
  details : option string;
  hint : option string
}.

(** A row of [learning_sessions]. *)
Module Session.
Record t := {
  id : Id;
  page_url : string;
  user_agent : string;
  anonymous_id : option string;
  session_end : option string
}.
End Session.

(** The object handed to [insert] on [learning_sessions]. *)
Module NewSession.
Record t := {
  page_url : string;
  user_agent : string;
  anonymous_id : option string   (* [None]: the field is omitted *)
}.
End NewSession.

(** A row of [question_attempts]. *)
Module Attempt.
Record t := {
  id : Id;
  session_id : Id;
  question_file : string;
  question_name : option string;
  question_prefix : string;
  seed : option Z;
  attempt_number : Z;
  submitted_at : option string;
  score : option string;
  max_score : option string;
  is_correct : option bool
}.
End Attempt.

Module NewAttempt.
Record t := {
  session_id : Id;
  question_file : string;
  question_name : option string;
  question_prefix : string;
  seed : option Z;
  attempt_number : JsNum
}.
End NewAttempt.

Module AttemptUpdate.
Record t := {
  submitted_at : string;
  score : string;
  max_score : string;
  is_correct : bool
}.
End AttemptUpdate.

(** A row of [input_tracking]. *)
Module InputRecord.
Record t := {
  id : Id;
  attempt_id : Id;
  session_id : Id;
  input_name : string;
  input_value : string;
  input_type : string;
  is_final_answer : bool;
  validation_result : option string;
  timestamp : option string
}.
End InputRecord.

Module NewInput.
Record t := {
  attempt_id : option Id;   (* [None]: [undefined] *)
  session_id : Id;
  input_name : string;
  input_value : string;
  input_type : string;
  is_final_answer : bool;
  validation_result : option string
}.
End NewInput.

Module InputUpdate.
Record t := {
  input_value : string;
  validation_result : option string;
  timestamp : string
}.
End InputUpdate.

(** ** The store interface

    One constructor per query chain the source builds.  An identifier that
    the source reads off the cached attempt ([attempt.id]) is [None] when
    that read gives [undefined]. *)
Inductive Req :=
  (* from('learning_sessions').insert([p]).select().single() *)
  | InsertSession (p : NewSession.t)
  (* from('question_attempts').insert([p]).select().single() *)
  | InsertAttempt (p : NewAttempt.t)
  (* from('question_attempts').update(f).eq('id', id).select().single() *)
  | UpdateAttempt (f : AttemptUpdate.t) (id : option Id)
  (* from('question_attempts').select('id').eq('id', id).maybeSingle() *)
  | SelectAttemptId (id : option Id)
  (* from('input_tracking').select('id').eq('attempt_id', a)
       .eq('input_name', n).eq('is_final_answer', true).maybeSingle() *)
  | SelectFinalInputId (a : option Id) (n : string)
  (* from('input_tracking').update(f).eq('id', id).select().single() *)
  | UpdateInput (f : InputUpdate.t) (id : Id)
  (* from('input_tracking').insert([p]).select().single() *)
  | InsertInput (p : NewInput.t)
  (* from('learning_sessions').update({session_end}).eq('id', id) *)
  | UpdateSessionEnd (session_end : string) (id : Id).

(** The type of [data] in the response to each request. *)
Definition Resp (r : Req) : Type :=
  match r with
  | InsertSession _ => Session.t
  | InsertAttempt _ | UpdateAttempt _ _ => Attempt.t
  | SelectAttemptId _ | SelectFinalInputId _ _ => Id
  | UpdateInput _ _ | InsertInput _ => InputRecord.t
  | UpdateSessionEnd _ _ => unit
  end.

Definition is_write (r : Req) : bool :=
  match r with
  | SelectAttemptId _ | SelectFinalInputId _ _ => false
  | _ => true
  end.

(** What awaiting a request gives: the promise resolves to [{data, error}]
    or rejects. *)
Inductive outcome (X : Type) :=
  | Resolved (data : option X) (error : option StoreError)
  | Rejected (reason : StoreError).
Arguments Resolved {X} data error.
Arguments Rejected {X} reason.

(** ** Completions and the page environment *)

Inductive Exn :=
  | TypeError (msg : string)
  | Rejection (reason : StoreError).

Inductive completion (A : Type) :=
  | Normal (a : A)
  | Thrown (e : Exn).
Arguments Normal {A} a.
Arguments Thrown {A} e.

(** What the page supplies to one call: [window.location.href],
    [navigator.userAgent], [Date.now()], [Math.random().toString(36)] and
    [new Date().toISOString()]. *)
Record Env := {
  href : string;
  userAgent : string;
  date_now : N;
  random36 : string;
  iso_now : string
}.

(** ** JS string helpers *)

(** [c.toLowerCase()] on one ASCII character. *)
Definition lower_ascii (c : ascii) : ascii :=
  let n := N_of_ascii c in
  if ((65 <=? n) && (n <=? 90))%N then ascii_of_N (n + 32) else c.

(** [s.toLowerCase()] on a string of ASCII characters, which the tag names
    of HTML elements and the pattern below are; other bytes are kept. *)
Fixpoint toLowerCase (s : string) : string :=
  match s with
  | EmptyString => EmptyString
  | String c s' => String (lower_ascii c) (toLowerCase s')
  end.

(** [p] matches at the start of [s], letters compared without case. *)
Fixpoint matches_here (p s : string) : bool :=
  match p, s with
  | EmptyString, _ => true
  | String _ _, EmptyString => false
  | String a p', String b s' =>
      Ascii.eqb (lower_ascii a) (lower_ascii b) && matches_here p' s'
  end.

(** [/p/i.test(s)] for a pattern [p] of literal characters. *)
Fixpoint regex_test_i (p s : string) : bool :=
  matches_here p s ||
  match s with
  | EmptyString => false
  | String _ s' => regex_test_i p s'
  end.

(** [s.substr(start, len)]. *)
Definition substr (start len : nat) (s : string) : string :=
  String.substring start len s.

(** [x || null] on an optional string: the empty string is falsy. *)
Definition or_null (x : option string) : option string :=
  match x with
  | Some s => if String.eqb s "" then None else Some s
  | None => None
  end.

(** [x || null] on an optional number: zero is falsy. *)
Definition or_null_num (x : option Z) : option Z :=
  match x with
  | Some n => if Z.eqb n 0 then None else Some n
  | None => None
  end.

(** The test of line 61 on the [error] of a response. *)
Definition missing_anonymous_id (error : option StoreError) : bool :=
  match error with
  | Some e =>
      bool_decide (code e = Some "42703")
      || regex_test_i "anonymous_id" (default "" (message e))
  | None => false
  end.

(** [insertPayload] of lines 46-50. *)
Definition insertPayload (env : Env) (anonymousId : string) : NewSession.t :=
  {| NewSession.page_url := href env;
     NewSession.user_agent := userAgent env;
     NewSession.anonymous_id := Some anonymousId |}.

(** [fallbackPayload] of lines 63-66: no [anonymous_id] field. *)
Definition fallbackPayload (env : Env) : NewSession.t :=
  {| NewSession.page_url := href env;
     NewSession.user_agent := userAgent env;
     NewSession.anonymous_id := None |}.

(** ** JS values and the object [currentAttempts] *)

(** What [currentAttempts[qprefix]] can evaluate to: a row that a call has
    stored, a stored [null], [undefined], and what the prototype chain
    gives: a function of [Object.prototype] or that object itself
    ([JBuiltin]), or a field of a row. *)
Inductive JsValue :=
  | JUndefined
  | JNull
  | JBoolean (b : bool)
  | JNumber (n : Z)
  | JString (s : string)
  | JRow (a : Attempt.t)
  | JBuiltin.

(** [if (v)]. *)
Definition truthy (v : JsValue) : bool :=
  match v with
  | JUndefined | JNull => false
  | JBoolean b => b
  | JNumber n => negb (Z.eqb n 0)
  | JString s => negb (String.eqb s "")
  | JRow _ | JBuiltin => true
  end.

Definition row_of (v : JsValue) : option Attempt.t :=
  match v with
  | JRow a => Some a
  | _ => None
  end.

Definition or_JNull {A} (f : A -> JsValue) (o : option A) : JsValue :=
  match o with
  | Some a => f a
  | None => JNull
  end.

(** The properties of a row. *)
Definition attempt_fields (a : Attempt.t) : list (string * JsValue) :=
  [("id", JNumber (Z.of_N (Attempt.id a)));
   ("session_id", JNumber (Z.of_N (Attempt.session_id a)));
   ("question_file", JString (Attempt.question_file a));
   ("question_name", or_JNull JString (Attempt.question_name a));
   ("question_prefix", JString (Attempt.question_prefix a));
   ("seed", or_JNull JNumber (Attempt.seed a));
   ("attempt_number", JNumber (Attempt.attempt_number a));
   ("submitted_at", or_JNull JString (Attempt.submitted_at a));
   ("score", or_JNull JString (Attempt.score a));
   ("max_score", or_JNull JString (Attempt.max_score a));
   ("is_correct", or_JNull JBoolean (Attempt.is_correct a))].

(** [a[k]] on the own properties of a row. *)
Definition row_get (a : Attempt.t) (k : string) : option JsValue :=
  (list_to_map (attempt_fields a) : gmap string JsValue) !! k.

(** The prototype of [currentAttempts]: [Object.prototype] as for every
    object literal, or what an assignment to [__proto__] has put there: a row
    (whose own prototype is [Object.prototype]) or [null]. *)
Inductive Prototype :=
  | ObjectPrototype
  | RowPrototype (a : Attempt.t)
  | NullPrototype.

(** An object whose own properties hold rows or [null]. *)
Record JsObject := {
  own : gmap string (option Attempt.t);
  prototype : Prototype
}.

(** [{}]. *)
Definition empty_object : JsObject :=
  {| own := ∅; prototype := ObjectPrototype |}.

(** The properties of [Object.prototype]. *)
Definition object_prototype_names : list string :=
  ["constructor"; "hasOwnProperty"; "isPrototypeOf"; "propertyIsEnumerable";
   "toLocaleString"; "toString"; "valueOf"; "__proto__";
   "__defineGetter__"; "__defineSetter__"; "__lookupGetter__";
   "__lookupSetter__"].

(** [Object.prototype[k]] read on an object whose prototype is [proto]:
    [__proto__] is an accessor that gives that prototype, the other
    properties are functions. *)
Definition inherited (proto : JsValue) (k : string) : JsValue :=
  if String.eqb k "__proto__" then proto
  else if bool_decide (k ∈ object_prototype_names) then JBuiltin
  else JUndefined.

(** [o[k]]: the own property, or else what the prototype chain gives. *)
Definition js_get (o : JsObject) (k : string) : JsValue :=
  match own o !! k with
  | Some (Some a) => JRow a
  | Some None => JNull
  | None =>
      match prototype o with
      | ObjectPrototype => inherited JBuiltin k
      | RowPrototype a =>
          match row_get a k with
          | Some v => v
          | None => inherited (JRow a) k
          end
      | NullPrototype => JUndefined
      end
  end.

(** [o[k] = v] for [v] a row or [null].  An own property is overwritten.
    Otherwise the chain is searched: the accessor [__proto__] of
    [Object.prototype], when the chain reaches it, has the prototype
    replaced; any other property found is a writable data property, and, as
    when nothing is found, an own property is created. *)
Definition js_set (o : JsObject) (k : string) (v : option Attempt.t)
  : JsObject :=
  let store := {| own := <[k := v]> (own o); prototype := prototype o |} in
  match own o !! k, prototype o with
  | Some _, _ => store
  | None, NullPrototype => store
  | None, _ =>
      if String.eqb k "__proto__"
      then {| own := own o;
              prototype := match v with
                           | Some a => RowPrototype a
                           | None => NullPrototype
                           end |}
      else store
  end.

(** [n + 1] on an integer held as a double: exact between -2^53 and 2^53,
    and beyond rounded to the nearest double, a tie going to the even
    significand. *)
Definition add_one (n : Z) : Z :=
  if (- 2 ^ 53 <=? n) && (n <? 2 ^ 53) then n + 1
  else if Z.abs n <? 2 ^ 54 then (if Z.even (n / 2) then n else n + 2)
  else n.

(** [attemptNumber] of line 99, from [existingAttempt]:
    [existingAttempt ? existingAttempt.attempt_number + 1 : 1], where
    [undefined + 1] is [NaN]. *)
Definition attemptNumber (existingAttempt : JsValue) : JsNum :=
  if truthy existingAttempt then
    match existingAttempt with
    | JRow a => Num (add_one (Attempt.attempt_number a))
    | _ => NaN
    end
  else Num 1.

(** ** The tracker, over an arbitrary store *)

Section Tracker.
(** [St] is whatever the store holds; [exec r st] is what the store does
    with request [r]: how the promise settles, and the store afterwards. *)
Context {St : Type}.
Variable exec : forall r : Req, St -> outcome (Resp r) * St.

(** The state of the page.  [supabase] is the configured client ([None]
    when tracking is disabled), holding the store behind it; [issued] is
    the history of the requests sent, oldest first. *)
Record World := {
  supabase : option St;
  currentSession : option Session.t;
  currentAttempts : JsObject;
  localStorage : gmap string string;
  issued : list Req
}.

Definition Js (A : Type) : Type := World -> completion A * World.

#[global] Instance Js_ret : MRet Js := fun A a w => (Normal a, w).
#[global] Instance Js_bind : MBind Js := fun A B f m w =>
  match m w with
  | (Normal a, w') => f a w'
  | (Thrown e, w') => (Thrown e, w')
  end.

Definition throw {A} (e : Exn) : Js A := fun w => (Thrown e, w).

Definition try_catch {A} (body : Js A) (handler : Exn -> Js A) : Js A :=
  fun w =>
    match body w with
    | (Normal a, w') => (Normal a, w')
    | (Thrown e, w') => handler e w'
    end.

Definition gets {A} (f : World -> A) : Js A := fun w => (Normal (f w), w).

Definition set_currentSession (data : option Session.t) : Js unit :=
  fun w => (Normal tt,
            {| supabase := supabase w; currentSession := data;
               currentAttempts := currentAttempts w;
               localStorage := localStorage w; issued := issued w |}).

(** [currentAttempts[qprefix] = data]. *)
Definition set_currentAttempt (qprefix : string) (data : option Attempt.t)
  : Js unit :=
  fun w => (Normal tt,
            {| supabase := supabase w; currentSession := currentSession w;
               currentAttempts := js_set (currentAttempts w) qprefix data;
               localStorage := localStorage w; issued := issued w |}).

Definition localStorage_getItem (key : string) : Js (option string) :=
  gets (fun w => localStorage w !! key).

Definition localStorage_setItem (key value : string) : Js unit :=
  fun w => (Normal tt,
            {| supabase := supabase w; currentSession := currentSession w;
               currentAttempts := currentAttempts w;
               localStorage := <[key := value]> (localStorage w);
               issued := issued w |}).

(** [currentAttempts[qprefix]]. *)
Definition entry (w : World) (qprefix : string) : JsValue :=
  js_get (currentAttempts w) qprefix.

(** The attempt cached for a prefix: the row that [currentAttempts[qprefix]]
    gives, if it gives one. *)
Definition cached (w : World) (qprefix : string) : option Attempt.t :=
  row_of (entry w qprefix).

(** [o.f] on a variable that holds a row or [null]: reading a property of
    [null] throws. *)
Definition prop {A B} (f : A -> B) (o : option A) : Js B :=
  match o with
  | Some a => mret (f a)
  | None => throw (TypeError "Cannot read properties of null")
  end.

(** [attempt.id] on what [currentAttempts[qprefix]] gave: the identifier of
    a row, [undefined] on any other object and on a primitive value. *)
Definition prop_id (attempt : JsValue) : Js (option Id) :=
  match attempt with
  | JUndefined | JNull => throw (TypeError "Cannot read properties of null")
  | JRow a => mret (Some (Attempt.id a))
  | _ => mret None
  end.

(** The page once request [r] has gone out and the store has become
    [st']. *)
Definition after_request (r : Req) (st' : St) (w : World) : World :=
  {| supabase := Some st'; currentSession := currentSession w;
     currentAttempts := currentAttempts w;
     localStorage := localStorage w;
     issued := issued w ++ [r] |}.

(** [await supabase.from(..)...]: the request goes out, the store acts,
    and the promise settles. *)
Definition await (r : Req) : Js (option (Resp r) * option StoreError) :=
  fun w =>
    match supabase w with
    | None => (Thrown (TypeError "Cannot read properties of null"), w)
    | Some st =>
        let '(o, st') := exec r st in
        match o with
        | Resolved data error => (Normal (data, error), after_request r st' w)
        | Rejected reason => (Thrown (Rejection reason), after_request r st' w)
        end
    end.

(** Lines 24-33. *)
Definition generateAnonymousId (env : Env) : Js string :=
  anonymousId ← localStorage_getItem "anonymousUserId";
  let fresh : Js string :=
    let anonymousId :=
      "anon_" +:+ pretty (date_now env) +:+ "_" +:+ substr 2 9 (random36 env) in
    localStorage_setItem "anonymousUserId" anonymousId;;
    mret anonymousId in
  match anonymousId with
  | Some s => if String.eqb s "" then fresh else mret s
  | None => fresh
  end.

(** Lines 36-87. *)
Definition initializeDatabaseSession (env : Env) : Js (option Session.t) :=
  sb ← gets supabase;
  if sb is None then mret None else
  try_catch
    (anonymousId ← generateAnonymousId env;
     result ← await (InsertSession (insertPayload env anonymousId));
     '(data, error) ←
       (if missing_anonymous_id (snd result) then
          await (InsertSession (fallbackPayload env))
        else mret result);
     if error is Some _ then mret None else
     set_currentSession data;;
     cs ← gets currentSession;
     _ ← prop Session.id cs;
     mret data)
    (fun _ => mret None).

(** Lines 90-130. *)
Definition createQuestionAttempt (qfile : string) (qname : option string)
    (qprefix : string) (seed : option Z) : Js (option Attempt.t) :=
  sb ← gets supabase;
  cs ← gets currentSession;
  if sb is None then mret None else
  if cs is None then mret None else
  try_catch
    (existingAttempt ← gets (fun w => entry w qprefix);
     let attemptNumber := attemptNumber existingAttempt in
     cs ← gets currentSession;
     sid ← prop Session.id cs;
     '(data, error) ← await (InsertAttempt
       {| NewAttempt.session_id := sid;
          NewAttempt.question_file := qfile;
          NewAttempt.question_name := or_null qname;
          NewAttempt.question_prefix := qprefix;
          NewAttempt.seed := or_null_num seed;
          NewAttempt.attempt_number := attemptNumber |});
     if error is Some _ then mret None else
     set_currentAttempt qprefix data;;
     _ ← prop Attempt.id data;
     mret data)
    (fun _ => mret None).

(** Lines 133-168. *)
Definition updateQuestionAttempt (env : Env) (qprefix : string)
    (score maxScore : string) (isCorrect : bool) : Js (option Attempt.t) :=
  sb ← gets supabase;
  ca ← gets (fun w => entry w qprefix);
  if sb is None then mret None else
  if negb (truthy ca) then mret None else
  try_catch
    (attempt ← gets (fun w => entry w qprefix);
     aid ← prop_id attempt;
     '(data, error) ← await (UpdateAttempt
       {| AttemptUpdate.submitted_at := iso_now env;
          AttemptUpdate.score := score;
          AttemptUpdate.max_score := maxScore;
          AttemptUpdate.is_correct := isCorrect |} aid);
     if error is Some _ then mret None else
     set_currentAttempt qprefix data;;
     _ ← prop Attempt.id data;
     mret data)
    (fun _ => mret None).

(** Lines 212-264. *)
Definition trackConsolidatedInput (env : Env) (attempt : JsValue)
    (inputName inputValue inputType : string)
    (validationResult : option string) : Js (option InputRecord.t) :=
  aid ← prop_id attempt;
  '(existing, _) ← await (SelectFinalInputId aid inputName);
  match existing with
  | Some existing_id =>
      '(data, error) ← await (UpdateInput
        {| InputUpdate.input_value := inputValue;
           InputUpdate.validation_result := validationResult;
           InputUpdate.timestamp := iso_now env |} existing_id);
      if error is Some _ then mret None else mret data
  | None =>
      cs ← gets currentSession;
      sid ← prop Session.id cs;
      '(data, error) ← await (InsertInput
        {| NewInput.attempt_id := aid;
           NewInput.session_id := sid;
           NewInput.input_name := inputName;
           NewInput.input_value := inputValue;
           NewInput.input_type := inputType;
           NewInput.is_final_answer := true;
           NewInput.validation_result := validationResult |});
      if error is Some _ then mret None else mret data
  end.


(** Lines 171-209. *)
Definition trackInput (env : Env) (qprefix inputName inputValue
    inputType : string) (isFinalAnswer : bool)
    (validationResult : option string) : Js (option InputRecord.t) :=
  sb ← gets supabase;
  cs ← gets currentSession;
  if sb is None then mret None else
  if cs is None then mret None else
  ca ← gets (fun w => entry w qprefix);
  if negb (truthy ca) then mret None else
  try_catch
    (attempt ← gets (fun w => entry w qprefix);
     aid ← prop_id attempt;
     '(attemptExists, _) ← await (SelectAttemptId aid);
     if attemptExists is None then mret None else
     if isFinalAnswer then
       trackConsolidatedInput env attempt inputName inputValue inputType
         validationResult
     else mret None)
    (fun _ => mret None).

(** Lines 297-319. *)
Definition endDatabaseSession (env : Env) : Js unit :=
  sb ← gets supabase;
  cs ← gets currentSession;
  if sb is None then mret tt else
  if cs is None then mret tt else
  try_catch
    (cs ← gets currentSession;
     sid ← prop Session.id cs;
     _ ← await (UpdateSessionEnd (iso_now env) sid);
     mret tt)
    (fun _ => mret tt).

End Tracker.

Arguments World St : clear implicits.
Arguments Js St A : clear implicits.

(** ** [getInputDetails] (lines 322-335) *)

(** The properties of the argument that the function reads; a property the
    object does not have reads as [undefined], here [None]. *)
Module Element.
Record t := {
  type : option string;
  tagName : option string;
  value : option string;
  checked : bool
}.
End Element.

Module Details.
Record t := {
  type : string;
  value : option string
}.
End Details.

Definition getInputDetails (inputElement : Element.t) : completion Details.t :=
  let finish (inputType : string) : completion Details.t :=
    let inputValue := Element.value inputElement in
    let inputValue :=
      if String.eqb inputType "checkbox" || String.eqb inputType "radio"
      then (if Element.checked inputElement
            then Element.value inputElement else Some "")
      else inputValue in
    Normal {| Details.type := inputType; Details.value := inputValue |} in
  match or_null (Element.type inputElement) with
  | Some t => finish t
  | None =>
      match Element.tagName inputElement with
      | Some tag => finish (toLowerCase tag)
      | None => Thrown (TypeError "Cannot read properties of undefined")
      end
  end.

(** ** The bundle [window.databaseTracking] (lines 343-350) *)

Inductive Call :=
  | CallInitializeDatabaseSession
  | CallCreateQuestionAttempt (qfile : string) (qname : option string)
      (qprefix : string) (seed : option Z)
  | CallUpdateQuestionAttempt (qprefix score maxScore : string)
      (isCorrect : bool)
  | CallTrackInput (qprefix inputName inputValue inputType : string)
      (isFinalAnswer : bool) (validationResult : option string)
  | CallEndDatabaseSession
  | CallGetInputDetails (inputElement : Element.t).

(** What a call hands back to the page. *)
Inductive Value :=
  | Null
  | Undefined
  | SessionRow (s : Session.t)
  | AttemptRow (a : Attempt.t)
  | InputRow (i : InputRecord.t)
  | DetailsObject (d : Details.t).

Definition row_or_null {A} (f : A -> Value) (o : option A) : Value :=
  match o with
  | Some a => f a
  | None => Null
  end.

(** A created or updated record, or an empty result. *)
Definition record_or_empty (v : Value) : Prop :=
  match v with
  | DetailsObject _ => False
  | _ => True
  end.

Section Bundle.
Context {St : Type}.
Variable exec : forall r : Req, St -> outcome (Resp r) * St.

(** A synchronous function called from the page: it returns or throws,
    and leaves the state alone. *)
Definition sync {A} (c : completion A) : Js St A := fun w => (c, w).

Definition invoke (env : Env) (c : Call) : Js St Value :=
  match c with
  | CallInitializeDatabaseSession =>
      r ← initializeDatabaseSession exec env;
      mret (row_or_null SessionRow r)
  | CallCreateQuestionAttempt qfile qname qprefix seed =>
      r ← createQuestionAttempt exec qfile qname qprefix seed;
      mret (row_or_null AttemptRow r)
  | CallUpdateQuestionAttempt qprefix score maxScore isCorrect =>
      r ← updateQuestionAttempt exec env qprefix score maxScore isCorrect;
      mret (row_or_null AttemptRow r)
  | CallTrackInput qprefix inputName inputValue inputType isFinalAnswer
      validationResult =>
      r ← trackInput exec env qprefix inputName inputValue inputType
            isFinalAnswer validationResult;
      mret (row_or_null InputRow r)
  | CallEndDatabaseSession =>
      endDatabaseSession exec env;;
      mret Undefined
  | CallGetInputDetails inputElement =>
      d ← sync (getInputDetails inputElement);
      mret (DetailsObject d)
  end.
End Bundle.

(** ** A reference store *)

(** Modelled from the spec: the backend data store (section 6), an external
    service that is not part of the source.  Three tables of rows; [insert]
    creates a row under a fresh identifier and returns it; [update] changes
    the rows that match the equality filter; [select] returns the matching
    row.  [single()] answers with an error unless exactly one row is
    concerned (and the write is then not applied); [maybeSingle()] answers
    with no data when no row matches and with an error when several do.  No
    row matches a filter on [undefined].  Every attempt has its attempt
    number and every input record its attempt: an insert that comes without
    ([NaN] and [undefined] do not reach the store as values) violates a
    constraint and is refused, a store failure in the sense of section 7. *)
Record RefStore := {
  learning_sessions : list Session.t;
  question_attempts : list Attempt.t;
  input_tracking : list InputRecord.t
}.

Definition fresh_id (ids : list Id) : Id := (1 + foldr N.max 0 ids)%N.

Definition not_null : StoreError :=
  {| message := Some "null value violates not-null constraint";
     code := Some "23502"; details := None; hint := None |}.

Definition not_single : StoreError :=
  {| message := Some "JSON object requested, multiple (or no) rows returned";
     code := Some "PGRST116"; details := None; hint := None |}.

(** The filter of [trackConsolidatedInput]'s lookup. *)
Definition is_final_for (a : Id) (n : string) (r : InputRecord.t) : bool :=
  N.eqb (InputRecord.attempt_id r) a
  && String.eqb (InputRecord.input_name r) n
  && Bool.eqb (InputRecord.is_final_answer r) true.

Definition final_rows (a : Id) (n : string) (st : RefStore)
  : list InputRecord.t :=
  List.filter (is_final_for a n) (input_tracking st).

Definition apply_attempt_update (f : AttemptUpdate.t) (a : Attempt.t)
  : Attempt.t :=
  {| Attempt.id := Attempt.id a;
     Attempt.session_id := Attempt.session_id a;
     Attempt.question_file := Attempt.question_file a;
     Attempt.question_name := Attempt.question_name a;
     Attempt.question_prefix := Attempt.question_prefix a;
     Attempt.seed := Attempt.seed a;
     Attempt.attempt_number := Attempt.attempt_number a;
     Attempt.submitted_at := Some (AttemptUpdate.submitted_at f);
     Attempt.score := Some (AttemptUpdate.score f);
     Attempt.max_score := Some (AttemptUpdate.max_score f);
     Attempt.is_correct := Some (AttemptUpdate.is_correct f) |}.

Definition apply_input_update (f : InputUpdate.t) (r : InputRecord.t)
  : InputRecord.t :=
  {| InputRecord.id := InputRecord.id r;
     InputRecord.attempt_id := InputRecord.attempt_id r;
     InputRecord.session_id := InputRecord.session_id r;
     InputRecord.input_name := InputRecord.input_name r;
     InputRecord.input_value := InputUpdate.input_value f;
     InputRecord.input_type := InputRecord.input_type r;
     InputRecord.is_final_answer := InputRecord.is_final_answer r;
     InputRecord.validation_result := InputUpdate.validation_result f;
     InputRecord.timestamp := Some (InputUpdate.timestamp f) |}.

Definition set_session_end (ts : string) (s : Session.t) : Session.t :=
  {| Session.id := Session.id s;
     Session.page_url := Session.page_url s;
     Session.user_agent := Session.user_agent s;
     Session.anonymous_id := Session.anonymous_id s;
     Session.session_end := Some ts |}.

(** [update(f).eq('id', id)] on a table: [f] on the rows whose identifier is
    [id], the others as they are. *)
Definition update_where {A} (key : A -> Id) (id : Id) (f : A -> A)
    (rows : list A) : list A :=
  List.map (fun r => if N.eqb (key r) id then f r else r) rows.

Definition where_id {A} (key : A -> Id) (id : Id) (rows : list A) : list A :=
  List.filter (fun r => N.eqb (key r) id) rows.

Definition ref_exec (r : Req) : RefStore -> outcome (Resp r) * RefStore :=
  match r as r0 return RefStore -> outcome (Resp r0) * RefStore with
  | InsertSession p => fun st =>
      let row :=
        {| Session.id := fresh_id (List.map Session.id (learning_sessions st));
           Session.page_url := NewSession.page_url p;
           Session.user_agent := NewSession.user_agent p;
           Session.anonymous_id := NewSession.anonymous_id p;
           Session.session_end := None |} in
      (Resolved (Some row) None,
       {| learning_sessions := learning_sessions st ++ [row];
          question_attempts := question_attempts st;
          input_tracking := input_tracking st |})
  | InsertAttempt p => fun st =>
      match NewAttempt.attempt_number p with
      | Num n =>
          let row :=
            {| Attempt.id :=
                 fresh_id (List.map Attempt.id (question_attempts st));
               Attempt.session_id := NewAttempt.session_id p;
               Attempt.question_file := NewAttempt.question_file p;
               Attempt.question_name := NewAttempt.question_name p;
               Attempt.question_prefix := NewAttempt.question_prefix p;
               Attempt.seed := NewAttempt.seed p;
               Attempt.attempt_number := n;
               Attempt.submitted_at := None;
               Attempt.score := None;
               Attempt.max_score := None;
               Attempt.is_correct := None |} in
          (Resolved (Some row) None,
           {| learning_sessions := learning_sessions st;
              question_attempts := question_attempts st ++ [row];
              input_tracking := input_tracking st |})
      | NaN => (Resolved None (Some not_null), st)
      end
  | UpdateAttempt f None => fun st => (Resolved None (Some not_single), st)
  | UpdateAttempt f (Some id) => fun st =>
      match where_id Attempt.id id (question_attempts st) with
      | [a] =>
          (Resolved (Some (apply_attempt_update f a)) None,
           {| learning_sessions := learning_sessions st;
              question_attempts :=
                update_where Attempt.id id (apply_attempt_update f)
                  (question_attempts st);
              input_tracking := input_tracking st |})
      | _ => (Resolved None (Some not_single), st)
      end
  | SelectAttemptId None => fun st => (Resolved None None, st)
  | SelectAttemptId (Some id) => fun st =>
      match where_id Attempt.id id (question_attempts st) with
      | [] => (Resolved None None, st)
      | [a] => (Resolved (Some (Attempt.id a)) None, st)
      | _ => (Resolved None (Some not_single), st)
      end
  | SelectFinalInputId None n => fun st => (Resolved None None, st)
  | SelectFinalInputId (Some a) n => fun st =>
      match final_rows a n st with
      | [] => (Resolved None None, st)
      | [r] => (Resolved (Some (InputRecord.id r)) None, st)
      | _ => (Resolved None (Some not_single), st)
      end
  | UpdateInput f id => fun st =>
      match where_id InputRecord.id id (input_tracking st) with
      | [r] =>
          (Resolved (Some (apply_input_update f r)) None,
           {| learning_sessions := learning_sessions st;
              question_attempts := question_attempts st;
              input_tracking :=
                update_where InputRecord.id id (apply_input_update f)
                  (input_tracking st) |})
      | _ => (Resolved None (Some not_single), st)
      end
  | InsertInput p => fun st =>
      match NewInput.attempt_id p with
      | Some aid =>
          let row :=
            {| InputRecord.id :=
                 fresh_id (List.map InputRecord.id (input_tracking st));
               InputRecord.attempt_id := aid;
               InputRecord.session_id := NewInput.session_id p;
               InputRecord.input_name := NewInput.input_name p;
               InputRecord.input_value := NewInput.input_value p;
               InputRecord.input_type := NewInput.input_type p;
               InputRecord.is_final_answer := NewInput.is_final_answer p;
               InputRecord.validation_result := NewInput.validation_result p;
               InputRecord.timestamp := None |} in
          (Resolved (Some row) None,
           {| learning_sessions := learning_sessions st;
              question_attempts := question_attempts st;
              input_tracking := input_tracking st ++ [row] |})
      | None => (Resolved None (Some not_null), st)
      end
  | UpdateSessionEnd ts id => fun st =>
      (Resolved None None,
       {| learning_sessions :=
            update_where Session.id id (set_session_end ts)
              (learning_sessions st);
          question_attempts := question_attempts st;
          input_tracking := input_tracking st |})
  end.

(** Identifiers are a primary key of each table. *)
Definition store_wf (st : RefStore) : Prop :=
  NoDup (List.map Attempt.id (question_attempts st))
  /\ NoDup (List.map InputRecord.id (input_tracking st)).

Definition empty_store : RefStore :=
  {| learning_sessions := []; question_attempts := []; input_tracking := [] |}.

(** The page as it loads: nothing cached, nothing issued; the client
    storage is what earlier visits left. *)
Definition fresh_world {St} (sb : option St) (storage : gmap string string)
  : World St :=
  {| supabase := sb; currentSession := None; currentAttempts := empty_object;
     localStorage := storage; issued := [] |}.


(** ** Stores that misbehave *)

(** A store whose [learning_sessions] table has no [anonymous_id] column:
    an insert that names the column is refused the way Postgres does it. *)
Definition undefined_column : StoreError :=
  {| message :=
       Some "column 'anonymous_id' of relation 'learning_sessions' does not exist";
     code := Some "42703"; details := None; hint := None |}.

Definition legacy_exec (r : Req) : RefStore -> outcome (Resp r) * RefStore :=
  match r as r0 return RefStore -> outcome (Resp r0) * RefStore with
  | InsertSession p => fun st =>
      match NewSession.anonymous_id p with
      | Some _ => (Resolved None (Some undefined_column), st)
      | None => ref_exec (InsertSession p) st
      end
  | r0 => ref_exec r0
  end.

(** A store behind an unreliable link.  Each request meets the next entry
    of a schedule: [Up], the reference store answers; [Down], the request is
    refused and nothing is done; [Lost], the store does the work but the
    answer never arrives and the promise rejects.  Past the end of the
    schedule the link is up. *)
Inductive Link := Up | Down | Lost.

Definition unavailable : StoreError :=
  {| message := Some "Service Unavailable"; code := Some "503";
     details := None; hint := None |}.

Definition fetch_failed : StoreError :=
  {| message := Some "TypeError: Failed to fetch"; code := None;
     details := None; hint := None |}.

Definition flaky_exec (r : Req) (s : list Link * RefStore)
  : outcome (Resp r) * (list Link * RefStore) :=
  match s with
  | (Down :: sched, st) => (Resolved None (Some unavailable), (sched, st))
  | (Lost :: sched, st) => (Rejected fetch_failed, (sched, snd (ref_exec r st)))
  | (Up :: sched, st) =>
      (fst (ref_exec r st), (sched, snd (ref_exec r st)))
  | ([], st) => (fst (ref_exec r st), ([], snd (ref_exec r st)))
  end.

(** ** Concrete pages and stores used to exercise the statements *)

Definition env0 : Env :=
  {| href := "https://example.org/quiz"; userAgent := "Mozilla/5.0";
     date_now := 1700000000000; random36 := "0.4fzyo82mvyr";
     iso_now := "2026-01-01T00:00:00.000Z" |}.

Definition env1 : Env :=
  {| href := "https://example.org/quiz"; userAgent := "Mozilla/5.0";
     date_now := 1700000005000; random36 := "0.k8w1xq03nd";
     iso_now := "2026-01-01T00:00:05.000Z" |}.

(** A page on the reference store after [initializeDatabaseSession]. *)
Definition w_session : World RefStore :=
  snd (initializeDatabaseSession ref_exec env0 (fresh_world (Some empty_store) ∅)).

(** ... and after [createQuestionAttempt] for the prefix [q1_]. *)
Definition w_ready : World RefStore :=
  snd (createQuestionAttempt ref_exec "q1.xml" None "q1_" None w_session).

(** A page on the reference store whose first request gets through and
    whose second is refused, after [initializeDatabaseSession]. *)
Definition w_outage : World (list Link * RefStore) :=
  snd (initializeDatabaseSession flaky_exec env0
         (fresh_world (Some ([Up; Down], empty_store)) ∅)).

(** The reading of C8 as it is worded: a call that returns [null] leaves no
    session in [currentSession]. *)
Definition failed_initialize_leaves_unset {St}
    (exec : forall r : Req, St -> outcome (Resp r) * St) (env : Env)
    (w : World St) : Prop :=
  fst (initializeDatabaseSession exec env w) = Normal None ->
  currentSession (snd (initializeDatabaseSession exec env w)) = None.

(** The reading of C7 as it is worded: the call hands back a created or
    updated record, or an empty result, and does not throw. *)
Definition returns_record_or_empty {St}
    (exec : forall r : Req, St -> outcome (Resp r) * St) (env : Env)
    (c : Call) (w : World St) : Prop :=
  exists v, fst (invoke exec env c w) = Normal v /\ record_or_empty v.

(** The five operations that talk to the store. *)
Definition store_backed (c : Call) : bool :=
  match c with
  | CallGetInputDetails _ => false
  | _ => true
  end.

(** The argument has a non-empty [type], or a [tagName]. *)
Definition has_type_or_tag (inputElement : Element.t) : bool :=
  match or_null (Element.type inputElement), Element.tagName inputElement with
  | None, None => false
  | _, _ => true
  end.

(** An object with neither property, such as [window] or a text node. *)
Definition no_tag : Element.t :=
  {| Element.type := None; Element.tagName := None;
     Element.value := None; Element.checked := false |}.

Definition checkbox : Element.t :=
  {| Element.type := Some "checkbox"; Element.tagName := Some "INPUT";
     Element.value := Some "on"; Element.checked := true |}.

(** *** Sequences of [createQuestionAttempt] calls *)

(** The page calls [createQuestionAttempt] once for each entry of [calls]
    (question file, question name, seed), always with the prefix
    [qprefix], each call after the previous one has completed. *)
Fixpoint createAttempts {St}
    (exec : forall r : Req, St -> outcome (Resp r) * St) (qprefix : string)
    (calls : list (string * option string * option Z))
  : Js St (list (option Attempt.t)) :=
  match calls with
  | [] => mret []
  | (qfile, qname, seed) :: calls' =>
      r ← createQuestionAttempt exec qfile qname qprefix seed;
      rs ← createAttempts exec qprefix calls';
      mret (r :: rs)
  end.

(** The attempt numbers sent with the [question_attempts] inserts of a
    history, oldest first. *)
Definition attempt_numbers (history : list Req) : list JsNum :=
  omap (fun r => match r with
                 | InsertAttempt p => Some (NewAttempt.attempt_number p)
                 | _ => None
                 end) history.

(** [k, k+1, ..., k+n-1]. *)
Definition count_from (k : Z) (n : nat) : list Z :=
  List.map (fun i => k + Z.of_nat i) (seq 0 n).

(** The reading of C2 as it is worded: the calls of the sequence record the
    attempt numbers 1, 2, 3, ..., one per call. *)
Definition counts_calls {St}
    (exec : forall r : Req, St -> outcome (Resp r) * St) (qprefix : string)
    (calls : list (string * option string * option Z)) (w : World St) : Prop :=
  attempt_numbers (issued (snd (createAttempts exec qprefix calls w)))
  = (attempt_numbers (issued w)
     ++ List.map Num (count_from 1 (length calls)))%list.

(** The store accepts every [question_attempts] insert that carries a
    number and returns the row with the attempt number it was sent. *)
Definition echoes_attempt_number {St}
    (exec : forall r : Req, St -> outcome (Resp r) * St) : Prop :=
  forall p st n,
    NewAttempt.attempt_number p = Num n ->
    exists row,
      fst (exec (InsertAttempt p) st) = Resolved (Some row) None
      /\ Attempt.attempt_number row = n.

(** A page with a session whose next request will be carried out by the
    store without the answer coming back. *)
Definition w_lossy : World (list Link * RefStore) :=
  snd (initializeDatabaseSession flaky_exec env0
         (fresh_world (Some ([Up; Lost], empty_store)) ∅)).

(** The store behind the page, if the client is configured. *)
Definition flaky_store (w : World (list Link * RefStore)) : RefStore :=
  snd (default ([], empty_store) (supabase w)).

Definition two_calls : list (string * option string * option Z) :=
  [("q1.xml", None, Some 42); ("q1.xml", None, Some 43)].

(** What a final-answer call needs, and keeps: a session, the attempt
    cached for the prefix and present in the store, identifiers that are
    keys, and at most one final row for the attempt and input name. *)
Definition ready_for_final (qprefix inputName : string) (a : Attempt.t)
    (sess : Session.t) (w : World RefStore) (st : RefStore) : Prop :=
  supabase w = Some st
  /\ currentSession w = Some sess
  /\ cached w qprefix = Some a
  /\ store_wf st
  /\ In (Attempt.id a) (List.map Attempt.id (question_attempts st))
  /\ (length (final_rows (Attempt.id a) inputName st) <= 1)%nat.

(** The rows of the page [w_ready]. *)
Definition session1 : Session.t :=
  {| Session.id := 1; Session.page_url := "https://example.org/quiz";
     Session.user_agent := "Mozilla/5.0";
     Session.anonymous_id := Some "anon_1700000000000_4fzyo82mv";
     Session.session_end := None |}.

Definition attempt1 : Attempt.t :=
  {| Attempt.id := 1; Attempt.session_id := 1;
     Attempt.question_file := "q1.xml"; Attempt.question_name := None;
     Attempt.question_prefix := "q1_"; Attempt.seed := None;
     Attempt.attempt_number := 1; Attempt.submitted_at := None;
     Attempt.score := None; Attempt.max_score := None;
     Attempt.is_correct := None |}.

Definition store_session : RefStore :=
  {| learning_sessions := [session1]; question_attempts := [];
     input_tracking := [] |}.

Definition store_ready : RefStore :=
  {| learning_sessions := [session1]; question_attempts := [attempt1];
     input_tracking := [] |}.

(** *** The life of a page *)

(** The page makes the calls of [history] one after the other, each with
    what the environment gives at that time; a call that throws does not
    stop the page.  The result is what each call handed back, and the page
    at the end. *)
Fixpoint run_calls {St}
    (exec : forall r : Req, St -> outcome (Resp r) * St)
    (history : list (Env * Call)) (w : World St)
  : list (completion Value) * World St :=
  match history with
  | [] => ([], w)
  | (env, c) :: history' =>
      let '(r, w1) := invoke exec env c w in
      let '(rs, w2) := run_calls exec history' w1 in
      (r :: rs, w2)
  end.

(** A consistent reference store: identifiers are keys, and no attempt and
    input name has two final rows. *)
Definition store_inv (st : RefStore) : Prop :=
  store_wf st
  /\ forall a n, (length (final_rows a n st) <= 1)%nat.

(** What holds of a page on the reference store throughout its life: the
    store is consistent, and an attempt cached for a prefix is in the store
    and goes with a session. *)
Definition page_inv (w : World RefStore) : Prop :=
  exists st,
    supabase w = Some st
    /\ store_inv st
    /\ forall p a, cached w p = Some a ->
         is_Some (currentSession w)
         /\ In (Attempt.id a) (List.map Attempt.id (question_attempts st)).

(** The page [w_ready] on a store in which two concurrent final-answer calls
    have each inserted a final row for attempt 1 and input [ans1]. *)
Definition final_row (i : Id) (v : string) : InputRecord.t :=
  {| InputRecord.id := i; InputRecord.attempt_id := 1;
     InputRecord.session_id := 1; InputRecord.input_name := "ans1";
     InputRecord.input_value := v; InputRecord.input_type := "text";
     InputRecord.is_final_answer := true;
     InputRecord.validation_result := None;
     InputRecord.timestamp := None |}.

Definition w_duplicated : World RefStore :=
  {| supabase :=
       Some {| learning_sessions := [session1];
               question_attempts := [attempt1];
               input_tracking := [final_row 1 "x"; final_row 2 "x"] |};
     currentSession := Some session1;
     currentAttempts := currentAttempts w_ready;
     localStorage := localStorage w_ready;
     issued := [] |}.

(** The calls that lead to the page [w_ready]. *)
Definition history_ready : list (Env * Call) :=
  [(env0, CallInitializeDatabaseSession);
   (env0, CallCreateQuestionAttempt "q1.xml" None "q1_" None)].

(** [data] of a settled request; a rejected promise carries none. *)
Definition data_of {X} (o : outcome X) : option X :=
  match o with
  | Resolved data _ => data
  | Rejected _ => None
  end.

(** [R] relates the page before a computation to the page after it. *)
Definition frames {St A} (R : World St -> World St -> Prop) (m : Js St A)
  : Prop :=
  forall w, R w (snd (m w)).

(** The history of requests has only grown. *)
Definition history_grows {St} (w w' : World St) : Prop :=
  exists rest, issued w' = (issued w ++ rest)%list.

(** [currentAttempts] is the same. *)
Definition same_attempts {St} (w w' : World St) : Prop :=
  currentAttempts w' = currentAttempts w.

(** ** Further parts of the source *)

(** *** [formatSupabaseError] (lines 8-21) *)

(** What the function is handed: a falsy value, a string, or an object,
    of which it reads four properties and the text [JSON.stringify] makes of
    it ([None] when that call throws or gives [undefined]). *)
Inductive ErrValue :=
  | ErrFalsy
  | ErrString (s : string)
  | ErrObject (e : StoreError) (json : option string).

(** [parts.join(sep)]. *)
Fixpoint join (sep : string) (parts : list string) : string :=
  match parts with
  | [] => ""
  | [p] => p
  | p :: rest => p +:+ sep +:+ join sep rest
  end.

(** [if (x) parts.push(f x)] on a property that holds a string or nothing. *)
Definition push_if (x : option string) (f : string -> string)
    (parts : list string) : list string :=
  match or_null x with
  | Some s => (parts ++ [f s])%list
  | None => parts
  end.

Definition formatSupabaseError (err : ErrValue) : string :=
  match err with
  | ErrFalsy => "Unknown error"
  | ErrString s => if String.eqb s "" then "Unknown error" else s
  | ErrObject e json =>
      let parts := [] in
      let parts := push_if (message e) (fun m => m) parts in
      let parts := push_if (code e) (fun c => "code=" +:+ c) parts in
      let parts := push_if (details e) (fun d => "details=" +:+ d) parts in
      let parts := push_if (hint e) (fun h => "hint=" +:+ h) parts in
      let parts :=
        match json with
        | Some rest =>
            if String.eqb rest "" || String.eqb rest "{}" then parts
            else (parts ++ [rest])%list
        | None => parts
        end in
      join " | " parts
  end.

(** *** Calls and their guards *)

(** The calls that return at once unless a session is held. *)
Definition needs_session (c : Call) : bool :=
  match c with
  | CallCreateQuestionAttempt _ _ _ _ => true
  | CallTrackInput _ _ _ _ _ _ => true
  | CallEndDatabaseSession => true
  | _ => false
  end.

(** [null] or [undefined]. *)
Definition empty_value (v : Value) : Prop := v = Null \/ v = Undefined.

(** A page whose client is not configured. *)
Definition w_unconfigured : World RefStore := fresh_world None ∅.

(** A page on the reference store before any call. *)
Definition w_loaded : World RefStore := fresh_world (Some empty_store) ∅.

(** The update that [updateQuestionAttempt] sends. *)
Definition attemptUpdate (env : Env) (score maxScore : string)
    (isCorrect : bool) : AttemptUpdate.t :=
  {| AttemptUpdate.submitted_at := iso_now env;
     AttemptUpdate.score := score;
     AttemptUpdate.max_score := maxScore;
     AttemptUpdate.is_correct := isCorrect |}.

(** The row that [createQuestionAttempt] sends. *)
Definition newAttempt (sess : Session.t) (qfile : string)
    (qname : option string) (qprefix : string) (seed : option Z)
    (existingAttempt : JsValue) : NewAttempt.t :=
  {| NewAttempt.session_id := Session.id sess;
     NewAttempt.question_file := qfile;
     NewAttempt.question_name := or_null qname;
     NewAttempt.question_prefix := qprefix;
     NewAttempt.seed := or_null_num seed;
     NewAttempt.attempt_number := attemptNumber existingAttempt |}.

(** *** The requests a call may issue *)

(** The requests that a call of the bundle can send to the store. *)
Definition may_issue (c : Call) (r : Req) : Prop :=
  match c, r with
  | CallInitializeDatabaseSession, InsertSession _ => True
  | CallCreateQuestionAttempt qfile _ qprefix _, InsertAttempt p =>
      NewAttempt.question_file p = qfile
      /\ NewAttempt.question_prefix p = qprefix
  | CallUpdateQuestionAttempt _ score maxScore isCorrect, UpdateAttempt f _ =>
      AttemptUpdate.score f = score
      /\ AttemptUpdate.max_score f = maxScore
      /\ AttemptUpdate.is_correct f = isCorrect
  | CallTrackInput _ _ _ _ _ _, SelectAttemptId _ => True
  | CallTrackInput _ inputName _ _ isFinalAnswer _, SelectFinalInputId _ n =>
      isFinalAnswer = true /\ n = inputName
  | CallTrackInput _ _ inputValue _ isFinalAnswer validationResult,
    UpdateInput f _ =>
      isFinalAnswer = true
      /\ InputUpdate.input_value f = inputValue
      /\ InputUpdate.validation_result f = validationResult
  | CallTrackInput _ inputName inputValue inputType isFinalAnswer
      validationResult, InsertInput p =>
      isFinalAnswer = true
      /\ NewInput.is_final_answer p = true
      /\ NewInput.input_name p = inputName
      /\ NewInput.input_value p = inputValue
      /\ NewInput.input_type p = inputType
      /\ NewInput.validation_result p = validationResult
  | CallEndDatabaseSession, UpdateSessionEnd _ _ => True
  | _, _ => False
  end.

(** How many requests a call can send. *)
Definition max_requests (c : Call) : nat :=
  match c with
  | CallInitializeDatabaseSession => 2
  | CallCreateQuestionAttempt _ _ _ _ => 1
  | CallUpdateQuestionAttempt _ _ _ _ => 1
  | CallTrackInput _ _ _ _ _ _ => 3
  | CallEndDatabaseSession => 1
  | CallGetInputDetails _ => 0
  end.

(** The store once it has carried out the requests of [new], in order. *)
Definition replay {St} (exec : forall r : Req, St -> outcome (Resp r) * St)
    (new : list Req) (st : St) : St :=
  foldl (fun st r => snd (exec r st)) st new.

(** The computation sends at most [n] requests, all of them in [P], and the
    store behind the page is the store that has carried them out. *)
Definition issues {St A} (exec : forall r : Req, St -> outcome (Resp r) * St)
    (P : Req -> Prop) (n : nat) (m : Js St A) : Prop :=
  forall w, exists new,
    issued (snd (m w)) = (issued w ++ new)%list
    /\ Forall P new /\ (length new <= n)%nat
    /\ supabase (snd (m w)) = replay exec new <$> supabase w.

(** The computation sends nothing and leaves the client as it is. *)
Definition quiet {St A} (m : Js St A) : Prop :=
  forall w, issued (snd (m w)) = issued w /\ supabase (snd (m w)) = supabase w.

(** *** Visits *)

(** Whether [initializeDatabaseSession] goes on to the insert without
    [anonymous_id], given how the first insert settled. *)
Definition retries {X} (first : outcome X) : bool :=
  match first with
  | Resolved _ error => missing_anonymous_id error
  | Rejected _ => false
  end.

(** The first request of a list, if any. *)
Definition first_request (l : list Req) : option Req := head l.

(** A later visit of the same browser profile: the page loads again, on any
    store, with the client storage the earlier page left. *)
Definition next_visit {St St'} (sb : option St') (w : World St) : World St' :=
  fresh_world sb (localStorage w).

(** *** Records of inputs *)

(** The record that [trackConsolidatedInput] inserts. *)
Definition finalInput (sess : Session.t) (a : Attempt.t)
    (inputName inputValue inputType : string)
    (validationResult : option string) : NewInput.t :=
  {| NewInput.attempt_id := Some (Attempt.id a);
     NewInput.session_id := Session.id sess;
     NewInput.input_name := inputName;
     NewInput.input_value := inputValue;
     NewInput.input_type := inputType;
     NewInput.is_final_answer := true;
     NewInput.validation_result := validationResult |}.


(** The update that [trackConsolidatedInput] sends. *)
Definition inputUpdate (env : Env) (inputValue : string)
    (validationResult : option string) : InputUpdate.t :=
  {| InputUpdate.input_value := inputValue;
     InputUpdate.validation_result := validationResult;
     InputUpdate.timestamp := iso_now env |}.



(** The row that the reference store creates for a final record of the
    attempt [aid]. *)
Definition created_final (st : RefStore) (aid : Id) (p : NewInput.t)
  : InputRecord.t :=
  {| InputRecord.id := fresh_id (List.map InputRecord.id (input_tracking st));
     InputRecord.attempt_id := aid;
     InputRecord.session_id := NewInput.session_id p;
     InputRecord.input_name := NewInput.input_name p;
     InputRecord.input_value := NewInput.input_value p;
     InputRecord.input_type := NewInput.input_type p;
     InputRecord.is_final_answer := NewInput.is_final_answer p;
     InputRecord.validation_result := NewInput.validation_result p;
     InputRecord.timestamp := None |}.

(** The rows of [input_tracking] other than the final rows of an attempt
    and input name. *)
Definition other_rows (a : Id) (n : string) (st : RefStore)
  : list InputRecord.t :=
  List.filter (fun r => negb (is_final_for a n r)) (input_tracking st).

(** *** What a call may change on the page *)

(** The prefix whose cache entry a call may write. *)
Definition call_prefix (c : Call) : option string :=
  match c with
  | CallCreateQuestionAttempt _ _ qprefix _ => Some qprefix
  | CallUpdateQuestionAttempt qprefix _ _ _ => Some qprefix
  | _ => None
  end.

(** [currentAttempts[p]] is the same. *)
Definition same_entry {St} (p : string) (w w' : World St) : Prop :=
  entry w' p = entry w p.

(** The own property [p] of [currentAttempts] is the same. *)
Definition same_own {St} (p : string) (w w' : World St) : Prop :=
  own (currentAttempts w') !! p = own (currentAttempts w) !! p.

(** The session and the client storage are the same. *)
Definition same_session {St} (w w' : World St) : Prop :=
  currentSession w' = currentSession w /\ localStorage w' = localStorage w.

(** *** Attempts over the life of a page *)

(** The attempt numbers sent with the inserts of attempts for the prefix
    [p], oldest first. *)
Definition attempt_numbers_for (p : string) (history : list Req)
  : list JsNum :=
  omap (fun r => match r with
                 | InsertAttempt x =>
                     if String.eqb (NewAttempt.question_prefix x) p
                     then Some (NewAttempt.attempt_number x) else None
                 | _ => None
                 end) history.

(** The requests that write to [question_attempts]. *)
Definition attempt_write (r : Req) : bool :=
  match r with
  | InsertAttempt _ | UpdateAttempt _ _ => true
  | _ => false
  end.

(** The row that the reference store creates for an attempt numbered
    [n]. *)
Definition created_attempt (st : RefStore) (n : Z) (p : NewAttempt.t)
  : Attempt.t :=
  {| Attempt.id := fresh_id (List.map Attempt.id (question_attempts st));
     Attempt.session_id := NewAttempt.session_id p;
     Attempt.question_file := NewAttempt.question_file p;
     Attempt.question_name := NewAttempt.question_name p;
     Attempt.question_prefix := NewAttempt.question_prefix p;
     Attempt.seed := NewAttempt.seed p;
     Attempt.attempt_number := n;
     Attempt.submitted_at := None;
     Attempt.score := None;
     Attempt.max_score := None;
     Attempt.is_correct := None |}.

(** The cache agrees with the reference store: [currentAttempts] has the
    prototype it was created with and no own property [__proto__], an
    attempt cached for a prefix is a row of [question_attempts], made for
    that prefix, and the identifiers of the table are keys. *)
Definition page_sync (w : World RefStore) : Prop :=
  exists st,
    supabase w = Some st
    /\ prototype (currentAttempts w) = ObjectPrototype
    /\ own (currentAttempts w) !! "__proto__" = None
    /\ NoDup (List.map Attempt.id (question_attempts st))
    /\ forall p a, cached w p = Some a ->
         In a (question_attempts st) /\ Attempt.question_prefix a = p.

(** The numbers sent so far for [p] are 1, 2, ..., k, with k at most [n],
    and the next one is computed from k. *)
Definition counted (n : nat) (p : string) (w : World RefStore) : Prop :=
  let sent := attempt_numbers_for p (issued w) in
  sent = List.map Num (count_from 1 (length sent))
  /\ attemptNumber (entry w p) = Num (add_one (Z.of_nat (length sent)))
  /\ (length sent <= n)%nat.

(** A prefix that is not the name of a property of [Object.prototype]. *)
Definition plain (p : string) : Prop := p ∉ object_prototype_names.

(** A page that creates attempts for two prefixes, submits one, and creates
    new attempts. *)
Definition history_retries : list (Env * Call) :=
  [(env0, CallInitializeDatabaseSession);
   (env0, CallCreateQuestionAttempt "q1.xml" None "q1_" None);
   (env0, CallCreateQuestionAttempt "q2.xml" None "q2_" (Some 7));
   (env1, CallTrackInput "q1_" "ans1" "x+1" "text" true None);
   (env1, CallUpdateQuestionAttempt "q1_" "0" "1" false);
   (env1, CallCreateQuestionAttempt "q1.xml" None "q1_" None);
   (env1, CallCreateQuestionAttempt "q1.xml" None "q1_" None);
   (env1, CallCreateQuestionAttempt "q2.xml" None "q2_" (Some 8))].

(** *** Prefixes that every object inherits, and stores that fail *)



(** A page that loads on an empty store behind a link that fails once, at
    its seventh request, and makes the calls of [history_ready]. *)
Definition w_glitch : World (list Link * RefStore) :=
  snd (run_calls flaky_exec history_ready
         (fresh_world (Some ([Up; Up; Up; Up; Up; Up; Down], empty_store)) ∅)).

(** The reading of C1 as it is worded: after two final-answer calls in a
    row for the prefix and input name, the store holds exactly one final row
    for the attempt and input name, with the value of the second call. *)
Definition final_twice_leaves_one (qprefix inputName value value' : string)
    (a : Attempt.t) (w : World (list Link * RefStore)) : Prop :=
  let w1 := snd (trackInput flaky_exec env0 qprefix inputName value "text"
                   true None w) in
  let w2 := snd (trackInput flaky_exec env1 qprefix inputName value' "text"
                   true None w1) in
  exists row,
    final_rows (Attempt.id a) inputName (flaky_store w2) = [row]
    /\ InputRecord.input_value row = value'.

(** An attempt whose number is 2^53. *)
Definition attempt_2_53 : Attempt.t :=
  {| Attempt.id := 1; Attempt.session_id := 1;
     Attempt.question_file := "q1.xml"; Attempt.question_name := None;
     Attempt.question_prefix := "q1_"; Attempt.seed := None;
     Attempt.attempt_number := 2 ^ 53; Attempt.submitted_at := None;
     Attempt.score := None; Attempt.max_score := None;
     Attempt.is_correct := None |}.

(** *** Prefixes before their first attempt *)

(** No call of the history is for the prefix [__proto__]. *)
Definition avoids_proto (history : list (Env * Call)) : Prop :=
  Forall (fun ec => call_prefix (snd ec) <> Some "__proto__") history.

(** No call of the history for the prefix [p] has returned a row. *)
Definition no_row_for {St}
    (exec : forall r : Req, St -> outcome (Resp r) * St) (p : string)
    (history : list (Env * Call)) (w : World St) : Prop :=
  forall i env c a,
    history !! i = Some (env, c) -> call_prefix c = Some p ->
    fst (run_calls exec history w) !! i <> Some (Normal (AttemptRow a)).

(** The prototype of [currentAttempts] is the same. *)
Definition same_prototype {St} (w w' : World St) : Prop :=
  prototype (currentAttempts w') = prototype (currentAttempts w).

(** * Properties *)

Local Open Scope list_scope.

(** Unfolds the monad of [Js] so that a computation reads as nested matches
    on the state. *)
Ltac js_unfold :=
  unfold localStorage_getItem, localStorage_setItem, set_currentSession,
    set_currentAttempt, prop, prop_id, sync, mbind, mret, Js_bind, Js_ret,
    gets, throw, try_catch in *.

Ltac js_run := js_unfold; cbv beta iota zeta in *.

(** ** Reading and writing [currentAttempts] *)

Lemma row_of_Some (v : JsValue) (a : Attempt.t) :
  row_of v = Some a -> v = JRow a.
Proof. destruct v; try discriminate. by intros [= ->]. Qed.

(** A field of a row is not a row. *)
Lemma row_get_not_row (a : Attempt.t) (k : string) (v : JsValue) :
  row_get a k = Some v -> row_of v = None.
Proof.
  unfold row_get. intros H. apply elem_of_list_to_map_2 in H.
  apply list_elem_of_In in H. unfold attempt_fields in H. cbn [In] in H.
  repeat (destruct H as [[= _ <-]|H]; [try reflexivity|]); [..|destruct H].
  - by destruct (Attempt.question_name a).
  - by destruct (Attempt.seed a).
  - by destruct (Attempt.submitted_at a).
  - by destruct (Attempt.score a).
  - by destruct (Attempt.max_score a).
  - by destruct (Attempt.is_correct a).
Qed.

Lemma row_get_proto (a : Attempt.t) : row_get a "__proto__" = None.
Proof. reflexivity. Qed.

(** Without an own property, a row is read under [__proto__] only. *)
Lemma js_get_inherited_row (o : JsObject) (k : string) (b : Attempt.t) :
  own o !! k = None -> row_of (js_get o k) = Some b ->
  k = "__proto__" /\ prototype o = RowPrototype b.
Proof.
  unfold js_get. intros ->. destruct (prototype o) as [|a|]; try discriminate.
  - unfold inherited. destruct (String.eqb k "__proto__"); [discriminate|].
    by destruct (bool_decide _).
  - destruct (row_get a k) as [v|] eqn:Hk.
    + intros Hv. by rewrite (row_get_not_row a k v Hk) in Hv.
    + unfold inherited. destruct (String.eqb_spec k "__proto__") as [->|_].
      * by intros [= ->].
      * by destruct (bool_decide _).
Qed.

(** The row read under a key that has just been written is the value
    written. *)
Lemma cached_set_eq (o : JsObject) (q : string) (d : option Attempt.t) :
  row_of (js_get (js_set o q d) q) = d.
Proof.
  assert (Hstore : row_of (js_get {| own := <[q := d]> (own o);
                                     prototype := prototype o |} q) = d).
  { unfold js_get. cbn [own]. rewrite lookup_insert_eq. by destruct d. }
  unfold js_set.
  destruct (own o !! q) as [x|] eqn:Hq; [exact Hstore|].
  destruct (prototype o) as [|a|] eqn:Hp; [| |exact Hstore];
    (destruct (String.eqb_spec q "__proto__") as [->|_]; [|exact Hstore]);
    unfold js_get; cbn [own prototype]; rewrite Hq; by destruct d.
Qed.

(** After [null] was written under a key, the key reads as [null] or
    [undefined]. *)
Lemma js_get_set_null (o : JsObject) (q : string) :
  truthy (js_get (js_set o q None) q) = false.
Proof.
  assert (Hstore : truthy (js_get {| own := <[q := None]> (own o);
                                     prototype := prototype o |} q) = false).
  { unfold js_get. cbn [own]. by rewrite lookup_insert_eq. }
  unfold js_set.
  destruct (own o !! q) as [x|] eqn:Hq; [exact Hstore|].
  destruct (prototype o) as [|a|] eqn:Hp; [| |exact Hstore];
    (destruct (String.eqb_spec q "__proto__") as [->|_]; [|exact Hstore]);
    unfold js_get; cbn [own prototype]; by rewrite Hq.
Qed.

(** A write under another key, other than [__proto__], is not seen. *)
Lemma js_get_set_ne (o : JsObject) (q p : string) (d : option Attempt.t) :
  q <> p -> q <> "__proto__" -> js_get (js_set o q d) p = js_get o p.
Proof.
  intros Hne Hq.
  assert (Hstore : js_get {| own := <[q := d]> (own o);
                             prototype := prototype o |} p = js_get o p).
  { unfold js_get. cbn [own prototype]. by rewrite lookup_insert_ne. }
  unfold js_set. destruct (own o !! q); [exact Hstore|].
  destruct (prototype o); [| |exact Hstore];
    by destruct (String.eqb_spec q "__proto__").
Qed.

(** The own properties under other keys are as they were. *)
Lemma own_set_ne (o : JsObject) (q p : string) (d : option Attempt.t) :
  q <> p -> own (js_set o q d) !! p = own o !! p.
Proof.
  intros Hne. unfold js_set.
  destruct (own o !! q); [cbn; by rewrite lookup_insert_ne|].
  destruct (prototype o);
    try (cbn; by rewrite lookup_insert_ne);
    destruct (String.eqb q "__proto__"); cbn; by rewrite ?lookup_insert_ne.
Qed.

(** A row read after a write was written by it, or was read before. *)
Lemma cached_set (o : JsObject) (q p : string) (d : option Attempt.t)
    (b : Attempt.t) :
  row_of (js_get (js_set o q d) p) = Some b ->
  (p = q /\ d = Some b) \/ (p <> q /\ row_of (js_get o p) = Some b).
Proof.
  destruct (decide (p = q)) as [->|Hne].
  { rewrite cached_set_eq. by left. }
  intros Hb. right. split; [exact Hne|].
  destruct (own o !! p) as [x|] eqn:Hp.
  - assert (Hp' : own (js_set o q d) !! p = Some x)
      by (rewrite own_set_ne; [exact Hp | congruence]).
    unfold js_get in *. by rewrite Hp' in Hb; rewrite Hp.
  - assert (Hp' : own (js_set o q d) !! p = None)
      by (rewrite own_set_ne; [exact Hp | congruence]).
    destruct (js_get_inherited_row _ p b Hp' Hb) as [-> Hproto].
    rewrite js_get_set_ne in Hb; [exact Hb | congruence | congruence].
Qed.

(** A write under a key other than [__proto__] keeps the prototype. *)
Lemma prototype_set (o : JsObject) (q : string) (d : option Attempt.t) :
  q <> "__proto__" -> prototype (js_set o q d) = prototype o.
Proof.
  intros Hq. unfold js_set. destruct (own o !! q); [reflexivity|].
  destruct (prototype o); try reflexivity;
    by destruct (String.eqb_spec q "__proto__").
Qed.

(** On an object literal, a name that [Object.prototype] does not have and
    that was not written reads as [undefined]. *)
Lemma js_get_plain (o : JsObject) (p : string) :
  prototype o = ObjectPrototype -> own o !! p = None -> plain p ->
  js_get o p = JUndefined.
Proof.
  intros Hproto Hown Hp. unfold js_get, inherited. rewrite Hown, Hproto.
  destruct (String.eqb_spec p "__proto__") as [->|_].
  - destruct Hp. unfold object_prototype_names. set_solver.
  - by rewrite bool_decide_eq_false_2.
Qed.

(** On an object literal, [__proto__] reads as [Object.prototype] until an
    own property of that name exists. *)
Lemma js_get_proto (o : JsObject) :
  prototype o = ObjectPrototype -> own o !! "__proto__" = None ->
  js_get o "__proto__" = JBuiltin.
Proof. intros Hproto Hown. unfold js_get. by rewrite Hown, Hproto. Qed.

Lemma cached_row {St} (w : World St) (p : string) (a : Attempt.t) :
  cached w p = Some a -> entry w p = JRow a.
Proof. apply row_of_Some. Qed.

(** ** Guards: calls made before their preconditions hold *)

Section Guards.
Context {St : Type}.
Variable exec : forall r : Req, St -> outcome (Resp r) * St.

(** While [currentAttempts[qprefix]] is falsy, [trackInput] returns [null]
    and the page and the store are exactly as before: no request at all is
    issued. *)
Lemma trackInput_falsy_entry env qprefix inputName inputValue inputType
    isFinalAnswer validationResult (w : World St) :
  truthy (entry w qprefix) = false ->
  trackInput exec env qprefix inputName inputValue inputType
    isFinalAnswer validationResult w = (Normal None, w).
Proof.
  intros Hc. unfold trackInput. js_run.
  destruct (supabase w); [|reflexivity].
  destruct (currentSession w); [|reflexivity].
  rewrite Hc. reflexivity.
Qed.

(** While [currentAttempts[qprefix]] is falsy, [updateQuestionAttempt]
    returns [null] and leaves the whole page state as it was. *)
Lemma updateQuestionAttempt_falsy_entry env qprefix score maxScore isCorrect
    (w : World St) :
  truthy (entry w qprefix) = false ->
  updateQuestionAttempt exec env qprefix score maxScore isCorrect w
  = (Normal None, w).
Proof.
  intros Hc. unfold updateQuestionAttempt. js_run.
  destruct (supabase w); [|reflexivity].
  rewrite Hc. reflexivity.
Qed.
End Guards.


(** C6. The guard of [updateQuestionAttempt] tests
    [currentAttempts[qprefix]], which reads through the prototype chain: for
    the prefix [constructor], on a page that has just loaded and has cached
    nothing, the test passes and the call sends an update of
    [question_attempts] for an identifier that is [undefined]. *)
Theorem updateQuestionAttempt_inherited_prefix :
  let run := updateQuestionAttempt ref_exec env0 "constructor" "1" "1" true
               w_loaded in
  own (currentAttempts w_loaded) = ∅
  /\ cached w_loaded "constructor" = None
  /\ truthy (entry w_loaded "constructor") = true
  /\ issued (snd run)
     = [UpdateAttempt (attemptUpdate env0 "1" "1" true) None]
  /\ fst run = Normal None.
Proof. cbv zeta. repeat split; vm_compute; reflexivity. Qed.

(** ** The anonymous identity *)

Lemma fresh_token_truthy (a b : string) :
  String.eqb ("anon_" +:+ a +:+ "_" +:+ b) "" = false.
Proof. reflexivity. Qed.

(** C10. In every state of the client storage, [generateAnonymousId]
    returns a token and leaves it stored under [anonymousUserId]; a second
    call, whatever the clock and the random source then give, returns the
    same token and changes nothing.  A token found in the storage on the
    first call is returned as it is, and the storage is not written. *)
Theorem generateAnonymousId_twice :
  forall St env env' (w : World St),
    exists token w1,
      generateAnonymousId env w = (Normal token, w1)
      /\ localStorage w1 !! "anonymousUserId" = Some token
      /\ generateAnonymousId env' w1 = (Normal token, w1)
      /\ (forall s, localStorage w !! "anonymousUserId" = Some s ->
                    s <> "" -> token = s /\ w1 = w).
Proof.
  intros St env env' w.
  unfold generateAnonymousId. js_run.
  destruct (localStorage w !! "anonymousUserId") as [s|] eqn:Hs.
  - destruct (String.eqb s "") eqn:He.
    + apply String.eqb_eq in He. subst s.
      eexists _, _. split; [reflexivity|]. cbn [localStorage].
      rewrite lookup_insert_eq. split; [reflexivity|].
      rewrite fresh_token_truthy. split; [reflexivity|].
      intros s Hs' Hne. congruence.
    + exists s, w. split; [reflexivity|]. rewrite Hs, He.
      split; [reflexivity|]. split; [reflexivity|].
      intros s' Hs' _. split; congruence.
  - eexists _, _. split; [reflexivity|]. cbn [localStorage].
    rewrite lookup_insert_eq. split; [reflexivity|].
    rewrite fresh_token_truthy. split; [reflexivity|].
    intros s Hs' _. discriminate.
Qed.

Lemma generateAnonymousId_twice_witness :
  fst (generateAnonymousId env1 (snd (generateAnonymousId env0
         (fresh_world (Some empty_store) ∅))))
  = fst (generateAnonymousId env0 (fresh_world (Some empty_store) ∅)).
Proof.
  destruct (generateAnonymousId_twice RefStore env0 env1
              (fresh_world (Some empty_store) ∅)) as (token & w1 & H1 & _ & H2 & _).
  rewrite H1. cbn [fst snd]. rewrite H2. reflexivity.
Defined.

(** ** What a computation leaves alone *)

Section Frames.
Context {St : Type}.
Variable exec : forall r : Req, St -> outcome (Resp r) * St.
Variable R : World St -> World St -> Prop.
Hypothesis R_refl : forall w, R w w.
Hypothesis R_trans : forall w1 w2 w3, R w1 w2 -> R w2 w3 -> R w1 w3.
Hypothesis R_request : forall r st' w, R w (after_request r st' w).
Hypothesis R_storage :
  forall key value w, R w (snd (localStorage_setItem key value w)).
Hypothesis R_session : forall data w, R w (snd (set_currentSession data w)).

Lemma frames_ret {A} (a : A) : frames R (mret a : Js St A).
Proof. intros w. apply R_refl. Qed.

Lemma frames_throw {A} (e : Exn) : frames R (throw e : Js St A).
Proof. intros w. apply R_refl. Qed.

Lemma frames_gets {A} (f : World St -> A) : frames R (gets f).
Proof. intros w. apply R_refl. Qed.

Lemma frames_prop {A B} (f : A -> B) (o : option A) :
  frames R (prop f o : Js St B).
Proof. destruct o; [apply frames_ret | apply frames_throw]. Qed.

Lemma frames_prop_id (v : JsValue) : frames R (prop_id v : Js St (option Id)).
Proof. destruct v; first [apply frames_ret | apply frames_throw]. Qed.

Lemma frames_bind {A B} (m : Js St A) (k : A -> Js St B) :
  frames R m -> (forall a, frames R (k a)) -> frames R (m ≫= k).
Proof.
  intros Hm Hk w. specialize (Hm w). unfold mbind, Js_bind.
  destruct (m w) as [[a|e] w1]; cbn [snd] in *; [|exact Hm].
  eapply R_trans; [exact Hm | apply Hk].
Qed.

Lemma frames_try_catch {A} (body : Js St A) (handler : Exn -> Js St A) :
  frames R body -> (forall e, frames R (handler e)) ->
  frames R (try_catch body handler).
Proof.
  intros Hb Hh w. specialize (Hb w). unfold try_catch.
  destruct (body w) as [[a|e] w1]; cbn [snd] in *; [exact Hb|].
  eapply R_trans; [exact Hb | apply Hh].
Qed.

Lemma frames_await (r : Req) : frames R (await exec r).
Proof.
  intros w. unfold await. destruct (supabase w) as [st|]; [|apply R_refl].
  destruct (exec r st) as [[d e|x] st']; apply R_request.
Qed.

Ltac frames_step :=
  lazymatch goal with
  | |- frames _ (_ ≫= _) => apply frames_bind; [|intros ?]
  | |- frames _ (try_catch _ _) => apply frames_try_catch; [|intros ?]
  | |- frames _ (mret _) => apply frames_ret
  | |- frames _ (throw _) => apply frames_throw
  | |- frames _ (gets _) => apply frames_gets
  | |- frames _ (prop _ _) => apply frames_prop
  | |- frames _ (prop_id _) => apply frames_prop_id
  | |- frames _ (await _ ?r) => apply (frames_await r)
  | |- frames _ (localStorage_getItem _) => apply frames_gets
  | |- frames _ (localStorage_setItem _ _) => intros ?; apply R_storage
  | |- frames _ (set_currentSession _) => intros ?; apply R_session
  | |- frames _ (match ?x with _ => _ end) => destruct x
  end.

Lemma frames_generateAnonymousId env : frames R (generateAnonymousId env).
Proof. unfold generateAnonymousId. repeat frames_step. Qed.

Lemma frames_initializeDatabaseSession env :
  frames R (initializeDatabaseSession exec env).
Proof.
  unfold initializeDatabaseSession.
  repeat first [apply frames_generateAnonymousId | frames_step].
Qed.

Lemma frames_trackConsolidatedInput env attempt n v t vr :
  frames R (trackConsolidatedInput exec env attempt n v t vr).
Proof. unfold trackConsolidatedInput. repeat frames_step. Qed.

Lemma frames_trackInput env qprefix n v t fin vr :
  frames R (trackInput exec env qprefix n v t fin vr).
Proof.
  unfold trackInput.
  repeat first [apply frames_trackConsolidatedInput | frames_step].
Qed.

Lemma frames_endDatabaseSession env : frames R (endDatabaseSession exec env).
Proof. unfold endDatabaseSession. repeat frames_step. Qed.
End Frames.

Lemma history_grows_refl {St} (w : World St) : history_grows w w.
Proof. exists []. by rewrite app_nil_r. Qed.

Lemma history_grows_trans {St} (w1 w2 w3 : World St) :
  history_grows w1 w2 -> history_grows w2 w3 -> history_grows w1 w3.
Proof.
  intros [r1 H1] [r2 H2]. exists (r1 ++ r2). by rewrite H2, H1, app_assoc.
Qed.

Lemma history_grows_request {St} (r : Req) (st' : St) (w : World St) :
  history_grows w (after_request r st' w).
Proof. by exists [r]. Qed.

(** ** Requests issued by [trackInput] *)

Section TrackInput.
Context {St : Type}.
Variable exec : forall r : Req, St -> outcome (Resp r) * St.

Lemma await_run (r : Req) (w : World St) (st : St) :
  supabase w = Some st ->
  await exec r w =
    (match fst (exec r st) with
     | Resolved data error => Normal (data, error)
     | Rejected reason => Thrown (Rejection reason)
     end, after_request r (snd (exec r st)) w).
Proof.
  intros Hsb. unfold await. rewrite Hsb.
  destruct (exec r st) as [[d e|x] st']; reflexivity.
Qed.

(** C5. With a session and a cached attempt, the first request that
    [trackInput] issues is the lookup of the cached attempt's identifier
    in [question_attempts]; when that lookup brings back no row,
    [trackInput] returns [null] and issues nothing else, hence no write. *)
Theorem trackInput_verifies_attempt :
  forall env qprefix inputName inputValue inputType isFinalAnswer
         validationResult (w : World St) st sess a,
    supabase w = Some st ->
    currentSession w = Some sess ->
    cached w qprefix = Some a ->
    let run := trackInput exec env qprefix inputName inputValue inputType
                 isFinalAnswer validationResult w in
    let lookup := SelectAttemptId (Some (Attempt.id a)) in
    exists rest,
      issued (snd run) = issued w ++ lookup :: rest
      /\ (data_of (fst (exec lookup st)) = None ->
          fst run = Normal None /\ rest = []).
Proof.
  intros env qprefix n v t fin vr w st sess a Hsb Hcs Hca run lookup.
  pose proof (cached_row w qprefix a Hca) as Hent.
  subst run lookup. unfold trackInput.
  repeat (progress (js_run; rewrite ?Hsb, ?Hcs, ?Hent;
                    cbn [truthy negb prop_id])).
  set (lookup := SelectAttemptId (Some (Attempt.id a))).
  rewrite (await_run lookup w st Hsb).
  destruct (exec lookup st) as [[[x|] e|x] st1]; cbn [fst snd data_of].
  - destruct fin.
    + destruct (frames_trackConsolidatedInput exec history_grows
                  history_grows_refl history_grows_trans
                  history_grows_request env (JRow a) n v t vr
                  (after_request lookup st1 w)) as [rest Hrest].
      exists rest. split; [|discriminate].
      destruct (trackConsolidatedInput _ _ _ _ _ _ _ _) as [[r|x'] w2];
        cbn [snd] in *; rewrite Hrest; cbn [issued after_request];
        by rewrite <- app_assoc.
    + exists []. split; [reflexivity | discriminate].
  - exists []. split; [reflexivity | done].
  - exists []. split; [reflexivity | done].
Qed.

(** C9. With a session and a cached attempt, [trackInput] with
    [isFinalAnswer = false] returns [null] and issues one request only,
    the lookup of the attempt: none of its requests is an insert or an
    update, and none is a request of [trackConsolidatedInput], which only
    a final answer reaches. *)
Theorem trackInput_nonfinal_no_write :
  forall env qprefix inputName inputValue inputType validationResult
         (w : World St) st sess a,
    supabase w = Some st ->
    currentSession w = Some sess ->
    cached w qprefix = Some a ->
    let run := trackInput exec env qprefix inputName inputValue inputType
                 false validationResult w in
    fst run = Normal None
    /\ (exists new, issued (snd run) = issued w ++ new
                    /\ new = [SelectAttemptId (Some (Attempt.id a))]
                    /\ Forall (fun r => is_write r = false) new)
    /\ currentSession (snd run) = currentSession w
    /\ currentAttempts (snd run) = currentAttempts w.
Proof.
  intros env qprefix n v t vr w st sess a Hsb Hcs Hca run.
  pose proof (cached_row w qprefix a Hca) as Hent.
  subst run. unfold trackInput.
  repeat (progress (js_run; rewrite ?Hsb, ?Hcs, ?Hent;
                    cbn [truthy negb prop_id])).
  rewrite (await_run (SelectAttemptId (Some (Attempt.id a))) w st Hsb).
  destruct (exec (SelectAttemptId (Some (Attempt.id a))) st) as [[[x|] e|x] st1];
    cbn [fst snd]; (split; [reflexivity|]);
    (split; [exists [SelectAttemptId (Some (Attempt.id a))];
             split; [reflexivity|]; split; [reflexivity|];
             constructor 2; [reflexivity | constructor 1]|]);
    (split; [exact Hcs | reflexivity]).
Qed.
End TrackInput.

Lemma trackInput_verifies_attempt_witness :
  exists rest,
    issued (snd (trackInput ref_exec env1 "q1_" "ans1" "x+1" "text" true None
                   w_ready))
    = issued w_ready ++ SelectAttemptId (Some 1%N) :: rest.
Proof.
  destruct (trackInput_verifies_attempt ref_exec env1 "q1_" "ans1" "x+1"
              "text" true None w_ready store_ready session1 attempt1
              eq_refl eq_refl eq_refl) as [rest [H _]].
  exists rest. exact H.
Defined.

Lemma trackInput_nonfinal_no_write_witness :
  fst (trackInput ref_exec env1 "q1_" "ans1" "x" "text" false None w_ready)
  = Normal None.
Proof.
  apply (trackInput_nonfinal_no_write ref_exec env1 "q1_" "ans1" "x" "text"
           None w_ready store_ready session1 attempt1
           eq_refl eq_refl eq_refl).
Defined.

(** ** [initializeDatabaseSession] *)

Section Initialize.
Context {St : Type}.
Variable exec : forall r : Req, St -> outcome (Resp r) * St.

(** [generateAnonymousId] returns, and touches the client storage only. *)
Lemma generateAnonymousId_frame env (w : World St) :
  exists token w0,
    generateAnonymousId env w = (Normal token, w0)
    /\ supabase w0 = supabase w
    /\ currentSession w0 = currentSession w
    /\ currentAttempts w0 = currentAttempts w
    /\ issued w0 = issued w.
Proof.
  unfold generateAnonymousId. js_run.
  destruct (localStorage w !! "anonymousUserId") as [s|];
    [destruct (String.eqb s "")|]; eexists _, _; (split; [reflexivity|]);
    repeat split; reflexivity.
Qed.

(** The two ways a call ends: it returns the created session and has
    cached it, or it returns [null] and [currentSession] is what it was,
    or [null]. *)
Lemma initialize_cases env (w : World St) :
  let run := initializeDatabaseSession exec env w in
  (exists s, fst run = Normal (Some s) /\ currentSession (snd run) = Some s)
  \/ (fst run = Normal None
      /\ (currentSession (snd run) = currentSession w
          \/ currentSession (snd run) = None)).
Proof.
  cbv zeta. unfold initializeDatabaseSession. js_run.
  destruct (supabase w) as [st|] eqn:Hsb; [|right; split; [|left]; reflexivity].
  destruct (generateAnonymousId_frame env w)
    as (token & w0 & Hgen & Hsb0 & Hcs0 & _ & _).
  rewrite Hgen. rewrite Hsb in Hsb0.
  rewrite (await_run exec _ w0 st Hsb0).
  destruct (exec (InsertSession (insertPayload env token)) st)
    as [[d1 e1|x1] st1]; cbn [fst snd];
    [|right; split; [|left]; [reflexivity | exact Hcs0]].
  destruct (missing_anonymous_id e1) eqn:Hmiss.
  - rewrite (await_run exec _ (after_request _ st1 w0) st1 eq_refl).
    destruct (exec (InsertSession (fallbackPayload env)) st1)
      as [[d2 e2|x2] st2]; cbn [fst snd];
      [|right; split; [|left]; [reflexivity | exact Hcs0]].
    destruct e2 as [e2|]; [right; split; [|left]; [reflexivity | exact Hcs0]|].
    destruct d2 as [s|]; cbn [fst snd currentSession].
    + left. by exists s.
    + right. split; [reflexivity | by right].
  - destruct e1 as [e1|]; [right; split; [|left]; [reflexivity | exact Hcs0]|].
    destruct d1 as [s|]; cbn [fst snd currentSession].
    + left. by exists s.
    + right. split; [reflexivity | by right].
Qed.

(** C3. When the first insert of [initializeDatabaseSession] comes back
    with an error whose code is [42703] or whose message matches
    [/anonymous_id/i], the call issues exactly one more insert, with the
    payload that has no [anonymous_id]; when that one comes back with a row
    and no error, the call returns the row and caches it in
    [currentSession]. *)
Theorem initialize_fallback :
  forall env (w : World St) st token w0 data1 error1 st1,
    supabase w = Some st ->
    generateAnonymousId env w = (Normal token, w0) ->
    exec (InsertSession (insertPayload env token)) st
      = (Resolved data1 (Some error1), st1) ->
    code error1 = Some "42703"
    \/ regex_test_i "anonymous_id" (default "" (message error1)) = true ->
    let run := initializeDatabaseSession exec env w in
    issued (snd run)
      = issued w ++ [InsertSession (insertPayload env token);
                     InsertSession (fallbackPayload env)]
    /\ NewSession.anonymous_id (insertPayload env token) = Some token
    /\ NewSession.anonymous_id (fallbackPayload env) = None
    /\ (forall s st2,
          exec (InsertSession (fallbackPayload env)) st1
            = (Resolved (Some s) None, st2) ->
          fst run = Normal (Some s) /\ currentSession (snd run) = Some s).
Proof.
  intros env w st token w0 d1 e1 st1 Hsb Hgen Hex Hmiss run. subst run.
  assert (Hm : missing_anonymous_id (Some e1) = true).
  { unfold missing_anonymous_id. destruct Hmiss as [Hc | Hr].
    - rewrite bool_decide_eq_true_2; done.
    - rewrite Hr. apply orb_true_r. }
  destruct (generateAnonymousId_frame env w)
    as (token' & w0' & Hgen' & Hsb0 & _ & _ & His0).
  rewrite Hgen in Hgen'. injection Hgen' as <- <-.
  rewrite Hsb in Hsb0.
  unfold initializeDatabaseSession. js_run. rewrite Hsb, Hgen.
  rewrite (await_run exec _ w0 st Hsb0), Hex. cbn [fst snd]. rewrite Hm.
  rewrite (await_run exec _ (after_request _ st1 w0) st1 eq_refl).
  set (r1 := InsertSession (insertPayload env token)).
  set (r2 := InsertSession (fallbackPayload env)).
  assert (His : forall st2 : St,
    issued (after_request r2 st2 (after_request r1 st1 w0))
    = issued w ++ [r1; r2]).
  { intros st2. cbn [issued after_request]. by rewrite His0, <- app_assoc. }
  split; [|split; [reflexivity|split; [reflexivity|]]].
  - destruct (exec r2 st1) as [[d2 [e2|]|x2] st2]; cbn [fst snd];
      try apply His.
    destruct d2; cbn [snd issued]; apply His.
  - intros s st2 Hex2. rewrite Hex2. cbn [fst snd currentSession]. done.
Qed.

(** The failures the call anticipates are failures in the sense of the
    next statement: when the insert comes back with an error that is not the
    missing column, or the retry comes back with an error, or a promise
    rejects, the call returns [null]. *)
Lemma initialize_error_returns_null env (w : World St) st token w0 :
  supabase w = Some st ->
  generateAnonymousId env w = (Normal token, w0) ->
  let first := exec (InsertSession (insertPayload env token)) st in
  let retry := exec (InsertSession (fallbackPayload env)) (snd first) in
  match fst first with
  | Rejected _ => True
  | Resolved _ error =>
      if missing_anonymous_id error
      then match fst retry with
           | Rejected _ => True
           | Resolved _ error' => is_Some error'
           end
      else is_Some error
  end ->
  fst (initializeDatabaseSession exec env w) = Normal None.
Proof.
  intros Hsb Hgen first retry Hfail.
  destruct (generateAnonymousId_frame env w)
    as (token' & w0' & Hgen' & Hsb0 & _).
  rewrite Hgen in Hgen'. injection Hgen' as <- <-. rewrite Hsb in Hsb0.
  unfold initializeDatabaseSession. js_run. rewrite Hsb, Hgen.
  rewrite (await_run exec _ w0 st Hsb0). fold first.
  destruct (fst first) as [d1 e1|x1]; [|reflexivity]. cbn [fst snd].
  destruct (missing_anonymous_id e1).
  - rewrite (await_run exec _ (after_request _ (snd first) w0) (snd first)
               eq_refl). fold retry.
    destruct (fst retry) as [d2 e2|x2]; [|reflexivity].
    by destruct Hfail as [e Hfail]; subst e2.
  - by destruct Hfail as [e Hfail]; subst e1.
Qed.

(** C8. A call of [initializeDatabaseSession] that does not return a
    session (the insert, or the retry, came back with an error; a promise
    rejected; an exception was caught; the client is not configured)
    returns [null] and installs no session: [currentSession] is what it
    was before the call, or [null]; a page that had no session before the
    call has none after it. *)
Theorem initialize_failure_keeps_session :
  forall env (w : World St),
    let run := initializeDatabaseSession exec env w in
    (forall s, fst run <> Normal (Some s)) ->
    fst run = Normal None
    /\ (currentSession (snd run) = currentSession w
        \/ currentSession (snd run) = None)
    /\ (currentSession w = None -> currentSession (snd run) = None).
Proof.
  intros env w run Hfail.
  destruct (initialize_cases env w) as [(s & Hs & _) | (Hr & Hcs)];
    fold run in Hs || fold run in Hr, Hcs.
  - destruct (Hfail s Hs).
  - split; [exact Hr|]. split; [exact Hcs|].
    intros Hnone. destruct Hcs as [Hcs | Hcs]; congruence.
Qed.
End Initialize.

Lemma initialize_fallback_witness :
  exists s,
    fst (initializeDatabaseSession legacy_exec env0
           (fresh_world (Some empty_store) ∅)) = Normal (Some s)
    /\ Session.anonymous_id s = None.
Proof.
  pose proof (initialize_fallback legacy_exec env0
                (fresh_world (Some empty_store) ∅) empty_store
                "anon_1700000000000_4fzyo82mv"
                (snd (generateAnonymousId env0 (fresh_world (Some empty_store) ∅)))
                None undefined_column empty_store
                eq_refl eq_refl eq_refl (or_introl eq_refl)) as (_ & _ & _ & H).
  eexists. split; [apply (H _ _ eq_refl) | reflexivity].
Defined.

(** C8, as worded, fails on a page that already holds a session: the store
    accepts the first [initializeDatabaseSession] and refuses the second,
    which returns [null] while [currentSession] still holds the first
    session. *)
Lemma failed_initialize_keeps_old_session :
  ~ failed_initialize_leaves_unset flaky_exec env1 w_outage.
Proof.
  intros H. specialize (H eq_refl). vm_compute in H. discriminate H.
Qed.

Lemma initialize_failure_keeps_session_witness :
  fst (initializeDatabaseSession flaky_exec env1 w_outage) = Normal None
  /\ currentSession (snd (initializeDatabaseSession flaky_exec env1 w_outage))
     = currentSession w_outage.
Proof.
  destruct (initialize_failure_keeps_session flaky_exec env1 w_outage)
    as (Hr & _ & _).
  - intros s. vm_compute. discriminate.
  - split; [exact Hr | reflexivity].
Defined.

(** ** Errors do not reach the page *)

Section NoThrow.
Context {St : Type}.
Variable exec : forall r : Req, St -> outcome (Resp r) * St.

(** A [try] whose [catch] returns a constant always completes normally. *)
Lemma try_catch_returns {A} (body : Js St A) (a0 : A) (w : World St) :
  exists a, fst (try_catch body (fun _ => mret a0) w) = Normal a.
Proof.
  unfold try_catch. destruct (body w) as [[a|e] w']; eexists; reflexivity.
Qed.

Ltac guards :=
  unfold mbind, mret, Js_bind, Js_ret, gets; cbv beta iota zeta;
  repeat match goal with
    | |- context [match ?o with Some _ => _ | None => _ end] =>
        is_var o; destruct o
    | |- context [supabase ?w] => destruct (supabase w)
    | |- context [currentSession ?w] => destruct (currentSession w)
    | |- context [truthy (entry ?w ?p)] => destruct (truthy (entry w p))
    end;
  cbn [negb];
  first [ apply try_catch_returns | eexists; reflexivity ].

Lemma initializeDatabaseSession_returns env (w : World St) :
  exists r, fst (initializeDatabaseSession exec env w) = Normal r.
Proof.
  destruct (initialize_cases exec env w) as [(s & H & _) | (H & _)];
    eexists; exact H.
Qed.

Lemma createQuestionAttempt_returns qfile qname qprefix seed (w : World St) :
  exists r,
    fst (createQuestionAttempt exec qfile qname qprefix seed w) = Normal r.
Proof. unfold createQuestionAttempt. guards. Qed.

Lemma updateQuestionAttempt_returns env qprefix score maxScore isCorrect
    (w : World St) :
  exists r,
    fst (updateQuestionAttempt exec env qprefix score maxScore isCorrect w)
    = Normal r.
Proof. unfold updateQuestionAttempt. guards. Qed.

Lemma trackInput_returns env qprefix n v t fin vr (w : World St) :
  exists r, fst (trackInput exec env qprefix n v t fin vr w) = Normal r.
Proof. unfold trackInput. guards. Qed.

Lemma endDatabaseSession_returns env (w : World St) :
  exists r, fst (endDatabaseSession exec env w) = Normal r.
Proof. unfold endDatabaseSession. guards. Qed.

Lemma getInputDetails_returns inputElement :
  has_type_or_tag inputElement = true ->
  exists d, getInputDetails inputElement = Normal d.
Proof.
  unfold has_type_or_tag, getInputDetails.
  destruct (or_null (Element.type inputElement)) as [t|];
    [intros _; eexists; reflexivity|].
  destruct (Element.tagName inputElement) as [tag|];
    [intros _; eexists; reflexivity | discriminate].
Qed.

(** C7. Whatever the store does with each request (answer, answer with an
    error, reject), none of the five store-backed operations of the bundle
    throws: each hands back a created or updated record, or an empty
    result.  [getInputDetails] hands back the details of its argument, and
    does not throw when the argument has a non-empty [type] or a
    [tagName]. *)
Theorem public_operations_do_not_throw :
  forall env (c : Call) (w : World St),
    (store_backed c = true -> returns_record_or_empty exec env c w)
    /\ (forall inputElement,
          c = CallGetInputDetails inputElement ->
          has_type_or_tag inputElement = true ->
          exists d, fst (invoke exec env c w) = Normal (DetailsObject d)).
Proof.
  intros env c w. split.
  - unfold returns_record_or_empty.
    destruct c as [|qfile qname qprefix seed|qprefix sc ms ic
                   |qprefix n v t fin vr| |e]; intros Hc;
      try discriminate Hc; unfold invoke, mbind, Js_bind.
    + destruct (initializeDatabaseSession_returns env w) as [r Hr].
      destruct (initializeDatabaseSession exec env w) as [c w'].
      cbn [fst] in Hr. subst c. exists (row_or_null SessionRow r).
      split; [reflexivity | by destruct r].
    + destruct (createQuestionAttempt_returns qfile qname qprefix seed w)
        as [r Hr].
      destruct (createQuestionAttempt exec qfile qname qprefix seed w)
        as [c w'].
      cbn [fst] in Hr. subst c. exists (row_or_null AttemptRow r).
      split; [reflexivity | by destruct r].
    + destruct (updateQuestionAttempt_returns env qprefix sc ms ic w)
        as [r Hr].
      destruct (updateQuestionAttempt exec env qprefix sc ms ic w) as [c w'].
      cbn [fst] in Hr. subst c. exists (row_or_null AttemptRow r).
      split; [reflexivity | by destruct r].
    + destruct (trackInput_returns env qprefix n v t fin vr w) as [r Hr].
      destruct (trackInput exec env qprefix n v t fin vr w) as [c w'].
      cbn [fst] in Hr. subst c. exists (row_or_null InputRow r).
      split; [reflexivity | by destruct r].
    + destruct (endDatabaseSession_returns env w) as [r Hr].
      destruct (endDatabaseSession exec env w) as [c w'].
      cbn [fst] in Hr. subst c. exists Undefined. split; [reflexivity | done].
  - intros e -> He. destruct (getInputDetails_returns e He) as [d Hd].
    exists d. unfold invoke, mbind, Js_bind, sync. by rewrite Hd.
Qed.
End NoThrow.

(** C7, as worded, fails for [getInputDetails]: on an object that has
    neither a [type] nor a [tagName] the call throws a [TypeError], which
    nothing catches. *)
Lemma getInputDetails_throws :
  fst (invoke ref_exec env0 (CallGetInputDetails no_tag) w_ready)
    = Thrown (TypeError "Cannot read properties of undefined")
  /\ ~ returns_record_or_empty ref_exec env0 (CallGetInputDetails no_tag)
         w_ready.
Proof.
  split; [reflexivity|].
  intros (v & Hv & _). vm_compute in Hv. discriminate Hv.
Qed.

Lemma public_operations_do_not_throw_witness :
  returns_record_or_empty ref_exec env1
    (CallTrackInput "q1_" "ans1" "x+1" "text" true None) w_ready
  /\ exists d,
       fst (invoke ref_exec env1 (CallGetInputDetails checkbox) w_ready)
       = Normal (DetailsObject d).
Proof.
  split.
  - apply (public_operations_do_not_throw ref_exec). reflexivity.
  - apply (public_operations_do_not_throw ref_exec env1
             (CallGetInputDetails checkbox) w_ready) with checkbox;
      reflexivity.
Defined.

(** ** Attempt numbers *)

Lemma count_from_S (k : Z) (n : nat) :
  count_from k (S n) = k :: count_from (k + 1) n.
Proof.
  unfold count_from. cbn [seq List.map]. f_equal; [lia|].
  rewrite <- seq_shift, List.map_map. apply List.map_ext. intros i. lia.
Qed.

Lemma attempt_numbers_snoc (history : list Req) (p : NewAttempt.t) :
  attempt_numbers (history ++ [InsertAttempt p])
  = attempt_numbers history ++ [NewAttempt.attempt_number p].
Proof. unfold attempt_numbers. by rewrite omap_app. Qed.

(** Below 2^53 the addition is exact. *)
Lemma add_one_exact (n : Z) : - 2 ^ 53 <= n < 2 ^ 53 -> add_one n = n + 1.
Proof.
  intros [Hlo Hhi]. unfold add_one.
  apply Z.leb_le in Hlo. apply Z.ltb_lt in Hhi. by rewrite Hlo, Hhi.
Qed.

Section AttemptNumbers.
Context {St : Type}.
Variable exec : forall r : Req, St -> outcome (Resp r) * St.

(** Whatever the store does, a call on a page with a session issues one
    request, the insert of an attempt whose number is computed from what
    [currentAttempts[qprefix]] gives. *)
Lemma createQuestionAttempt_number qfile qname qprefix seed
    (w : World St) st sess :
  supabase w = Some st ->
  currentSession w = Some sess ->
  issued (snd (createQuestionAttempt exec qfile qname qprefix seed w))
  = issued w ++ [InsertAttempt
      {| NewAttempt.session_id := Session.id sess;
         NewAttempt.question_file := qfile;
         NewAttempt.question_name := or_null qname;
         NewAttempt.question_prefix := qprefix;
         NewAttempt.seed := or_null_num seed;
         NewAttempt.attempt_number := attemptNumber (entry w qprefix) |}].
Proof.
  intros Hsb Hcs. unfold createQuestionAttempt.
  repeat (progress (js_run; rewrite ?Hsb, ?Hcs)).
  match goal with
  | |- context [await exec ?r w] =>
      rewrite (await_run exec r w st Hsb);
      destruct (exec r st) as [[[row|] [e|]|x] st']
  end; reflexivity.
Qed.

Hypothesis echo : echoes_attempt_number exec.

(** One call against a store that echoes: the number sent is computed from
    [currentAttempts[qprefix]] alone, and the row that comes back is
    cached. *)
Lemma createQuestionAttempt_step qfile qname qprefix seed
    (w : World St) st sess k :
  supabase w = Some st ->
  currentSession w = Some sess ->
  attemptNumber (entry w qprefix) = Num k ->
  exists row w',
    createQuestionAttempt exec qfile qname qprefix seed w
      = (Normal (Some row), w')
    /\ Attempt.attempt_number row = k
    /\ cached w' qprefix = Some row
    /\ (exists st', supabase w' = Some st')
    /\ currentSession w' = Some sess
    /\ attempt_numbers (issued w') = attempt_numbers (issued w) ++ [Num k].
Proof.
  intros Hsb Hcs Hk. unfold createQuestionAttempt.
  repeat (progress (js_run; rewrite ?Hsb, ?Hcs)).
  match goal with
  | |- context [await exec ?r w] =>
      rewrite (await_run exec r w st Hsb);
      match r with InsertAttempt ?p =>
        destruct (echo p st k Hk) as (row & Hres & Hnum) end;
      destruct (exec r st) as [o st']
  end.
  cbn [fst snd] in *. subst o.
  eexists row, _. split; [reflexivity|].
  split; [exact Hnum|]. split.
  { unfold cached, entry. cbn [currentAttempts]. apply cached_set_eq. }
  split; [by eexists|]. split; [exact Hcs|].
  cbn [issued after_request]. rewrite attempt_numbers_snoc.
  cbn [NewAttempt.attempt_number]. by rewrite Hk.
Qed.

Lemma createAttempts_from qprefix calls :
  forall (w : World St) st sess k,
    supabase w = Some st ->
    currentSession w = Some sess ->
    attemptNumber (entry w qprefix) = Num k ->
    - 2 ^ 53 <= k ->
    k + Z.of_nat (length calls) <= 2 ^ 53 ->
    let run := createAttempts exec qprefix calls w in
    attempt_numbers (issued (snd run))
      = attempt_numbers (issued w)
        ++ List.map Num (count_from k (length calls))
    /\ exists rows,
         fst run = Normal (List.map Some rows)
         /\ List.map Attempt.attempt_number rows
            = count_from k (length calls).
Proof.
  induction calls as [|[[qfile qname] seed] calls IH];
    intros w st sess k Hsb Hcs Hk Hlo Hhi; cbv zeta.
  - cbn. rewrite app_nil_r. split; [reflexivity|]. by exists [].
  - cbn [createAttempts length] in *. rewrite count_from_S.
    destruct (createQuestionAttempt_step qfile qname qprefix seed w st sess k
                Hsb Hcs Hk)
      as (row & w' & Hrun & Hnum & Hca' & [st' Hsb'] & Hcs' & Hiss).
    assert (Hk' : attemptNumber (entry w' qprefix) = Num (k + 1)).
    { rewrite (cached_row w' qprefix row Hca').
      cbn [attemptNumber truthy]. rewrite Hnum, add_one_exact; [done | lia]. }
    destruct (IH w' st' sess (k + 1) Hsb' Hcs' Hk') as (Hnums & rows & Hres & Hrows);
      [lia | lia |].
    unfold mbind, Js_bind. rewrite Hrun.
    destruct (createAttempts exec qprefix calls w') as [c w''].
    cbn [fst snd] in *. subst c. cbn [fst snd mret Js_ret].
    split.
    + rewrite Hnums, Hiss, <- app_assoc. reflexivity.
    + exists (row :: rows). split; [reflexivity|].
      cbn [List.map]. by rewrite Hnum, Hrows.
Qed.

(** C2. On a page with a session on which [currentAttempts[qprefix]] is
    falsy (nothing is cached for the prefix, and the prefix is not a name
    that every object inherits), against a store that accepts every
    [question_attempts] insert and returns the row with the attempt number
    it was sent, the calls of a sequence of fewer than 2^53
    [createQuestionAttempt] calls for that prefix send the attempt numbers
    1, 2, 3, ..., one per call, and return rows carrying them, whatever
    identifiers the store assigns; the number a call sends is
    [attemptNumber] of what [currentAttempts[qprefix]] gives. *)
Theorem createAttempts_count_up :
  forall qprefix calls (w : World St) st sess,
    supabase w = Some st ->
    currentSession w = Some sess ->
    truthy (entry w qprefix) = false ->
    Z.of_nat (length calls) < 2 ^ 53 ->
    counts_calls exec qprefix calls w
    /\ (exists rows,
          fst (createAttempts exec qprefix calls w)
            = Normal (List.map Some rows)
          /\ List.map Attempt.attempt_number rows
             = count_from 1 (length calls))
    /\ (forall qfile qname seed (w' : World St) st' sess',
          supabase w' = Some st' ->
          currentSession w' = Some sess' ->
          attempt_numbers
            (issued (snd (createQuestionAttempt exec qfile qname qprefix seed
                            w')))
          = attempt_numbers (issued w') ++ [attemptNumber (entry w' qprefix)]).
Proof.
  intros qprefix calls w st sess Hsb Hcs Hca Hlen.
  assert (Hk : attemptNumber (entry w qprefix) = Num 1)
    by (unfold attemptNumber; by rewrite Hca).
  pose proof (createAttempts_from qprefix calls w st sess 1 Hsb Hcs Hk) as H.
  cbv zeta in H. destruct H as [Hnums Hrows]; [lia | lia |].
  split; [exact Hnums|]. split; [exact Hrows|].
  intros qfile qname seed w' st' sess' Hsb' Hcs'.
  rewrite (createQuestionAttempt_number qfile qname qprefix seed w' st' sess'
             Hsb' Hcs').
  apply attempt_numbers_snoc.
Qed.
End AttemptNumbers.

Lemma ref_exec_echoes : echoes_attempt_number ref_exec.
Proof.
  intros p st n Hn. cbn [ref_exec]. rewrite Hn. eexists. split; reflexivity.
Qed.

Lemma createAttempts_count_up_witness :
  counts_calls ref_exec "q1_" two_calls w_session.
Proof.
  apply (createAttempts_count_up ref_exec ref_exec_echoes "q1_" two_calls
           w_session store_session session1 eq_refl eq_refl eq_refl eq_refl).
Defined.

(** C2, as worded, fails when a call does not get its row back.  When the
    answer to the first insert is lost, the store has the row, nothing is
    cached, and the second call sends the number 1 again: two rows
    numbered 1.  When the first insert is refused, the second call sends 1
    as well, not 2.  It also fails for a prefix that every object inherits:
    for [constructor] each call sends [NaN].  And the addition is one of
    doubles: after an attempt numbered 2^53 the number sent is 2^53 again. *)
Lemma createAttempts_repeat_number :
  attempt_numbers (issued (snd (createAttempts flaky_exec "q1_" two_calls
                                  w_lossy))) = [Num 1; Num 1]
  /\ List.map Attempt.attempt_number
       (question_attempts
          (flaky_store (snd (createAttempts flaky_exec "q1_" two_calls
                               w_lossy)))) = [1; 1]
  /\ ~ counts_calls flaky_exec "q1_" two_calls w_lossy
  /\ attempt_numbers (issued (snd (createAttempts flaky_exec "q1_" two_calls
                                     w_outage))) = [Num 1; Num 1]
  /\ ~ counts_calls flaky_exec "q1_" two_calls w_outage
  /\ attempt_numbers (issued (snd (createAttempts ref_exec "constructor"
                                     two_calls w_session))) = [NaN; NaN]
  /\ ~ counts_calls ref_exec "constructor" two_calls w_session
  /\ attemptNumber (JRow attempt_2_53) = Num (2 ^ 53).
Proof.
  split; [vm_compute; reflexivity|]. split; [vm_compute; reflexivity|].
  split; [intros H; vm_compute in H; discriminate H|].
  split; [vm_compute; reflexivity|].
  split; [intros H; vm_compute in H; discriminate H|].
  split; [vm_compute; reflexivity|].
  split; [intros H; vm_compute in H; discriminate H|].
  vm_compute; reflexivity.
Qed.

(** ** Final answers on the reference store *)

Lemma fresh_id_above (ids : list Id) (i : Id) :
  In i ids -> (i < fresh_id ids)%N.
Proof.
  unfold fresh_id. induction ids as [|j ids IH]; cbn [foldr]; [done|].
  intros [-> | Hin]; [lia|]. specialize (IH Hin). lia.
Qed.

Lemma fresh_id_not_in (ids : list Id) : ~ In (fresh_id ids) ids.
Proof. intros Hin. apply fresh_id_above in Hin. lia. Qed.

Lemma NoDup_snoc_fresh (ids : list Id) :
  NoDup ids -> NoDup (ids ++ [fresh_id ids]).
Proof.
  intros Hnd. apply NoDup_app. split; [exact Hnd|]. split.
  - intros i Hi Hi'. apply list_elem_of_In in Hi.
    apply list_elem_of_singleton in Hi'. subst i.
    by apply fresh_id_not_in in Hi.
  - apply NoDup_singleton.
Qed.

(** Under a primary key, an identifier that occurs selects one row. *)
Lemma where_id_unique {A} (key : A -> Id) (rows : list A) (r : A) :
  NoDup (List.map key rows) -> In r rows ->
  where_id key (key r) rows = [r].
Proof.
  unfold where_id. induction rows as [|x rows IH]; [done|].
  cbn [List.map List.filter]. intros Hnd Hin.
  apply NoDup_cons in Hnd as [Hx Hnd].
  assert (Hnone : forall y, ~ In (key y) (List.map key rows) ->
            List.filter (fun r0 => N.eqb (key r0) (key y)) rows = []).
  { intros y Hy. clear -Hy. induction rows as [|z rows IH]; [done|].
    cbn [List.filter List.map] in *.
    destruct (N.eqb_spec (key z) (key y)) as [E|E].
    - destruct Hy. left. exact E.
    - apply IH. intros H. apply Hy. by right. }
  destruct Hin as [-> | Hin].
  - rewrite N.eqb_refl. f_equal. apply Hnone.
    intros H. apply Hx. by apply list_elem_of_In.
  - destruct (N.eqb_spec (key x) (key r)) as [E|E].
    + destruct Hx. rewrite E. apply list_elem_of_In.
      by apply List.in_map.
    + by apply IH.
Qed.

Lemma where_id_found {A} (key : A -> Id) (rows : list A) (i : Id) :
  NoDup (List.map key rows) -> In i (List.map key rows) ->
  exists r, where_id key i rows = [r] /\ key r = i.
Proof.
  intros Hnd Hin. apply List.in_map_iff in Hin as (r & <- & Hr).
  exists r. split; [by apply where_id_unique | reflexivity].
Qed.

(** An update by identifier keeps the identifiers. *)
Lemma update_where_keys {A} (key : A -> Id) (i : Id) (f : A -> A)
    (rows : list A) :
  (forall r, key (f r) = key r) ->
  List.map key (update_where key i f rows) = List.map key rows.
Proof.
  intros Hf. unfold update_where. rewrite List.map_map.
  apply List.map_ext. intros r. destruct (N.eqb (key r) i); [apply Hf | done].
Qed.

(** An update that keeps what a filter looks at commutes with the filter. *)
Lemma filter_update_where {A} (key : A -> Id) (i : Id) (f : A -> A)
    (P : A -> bool) (rows : list A) :
  (forall r, P (f r) = P r) ->
  List.filter P (update_where key i f rows)
  = update_where key i f (List.filter P rows).
Proof.
  intros Hf. unfold update_where.
  induction rows as [|x rows IH]; [done|]. cbn [List.map List.filter].
  assert (HP : P (if N.eqb (key x) i then f x else x) = P x).
  { destruct (N.eqb (key x) i); [apply Hf | done]. }
  rewrite HP. destruct (P x); cbn [List.map]; by rewrite IH.
Qed.

Lemma is_final_for_update a n f r :
  is_final_for a n (apply_input_update f r) = is_final_for a n r.
Proof. reflexivity. Qed.

Lemma final_rows_in a n st r :
  In r (final_rows a n st) -> In r (input_tracking st).
Proof. unfold final_rows. intros H. by apply List.filter_In in H as [H _]. Qed.

Lemma is_final_for_inj a n a' n' r :
  is_final_for a n r = true -> is_final_for a' n' r = true ->
  a' = a /\ n' = n.
Proof.
  unfold is_final_for. intros H H'.
  apply andb_prop in H as [H _]. apply andb_prop in H as [Ha Hn].
  apply andb_prop in H' as [H' _]. apply andb_prop in H' as [Ha' Hn'].
  apply N.eqb_eq in Ha, Ha'. apply String.eqb_eq in Hn, Hn'.
  split; congruence.
Qed.

(** Every request leaves identifiers keys. *)
Lemma ref_exec_wf (r : Req) (st : RefStore) :
  store_wf st -> store_wf (snd (ref_exec r st)).
Proof.
  intros [Hka Hki].
  destruct r as [p|p|f [i|]|[i|]|[a|] n|f i|p|ts i]; cbn [ref_exec snd];
    try (split; assumption).
  - destruct (NewAttempt.attempt_number p); cbn [snd];
      [split; assumption|].
    split; [|exact Hki]. cbn [question_attempts].
    rewrite List.map_app. by apply NoDup_snoc_fresh.
  - destruct (where_id Attempt.id i (question_attempts st)) as [|x [|y l]];
      cbn [snd]; try (split; assumption).
    split; [|exact Hki]. cbn [question_attempts].
    by rewrite update_where_keys.
  - destruct (where_id Attempt.id i (question_attempts st)) as [|x [|y l]];
      split; assumption.
  - destruct (final_rows a n st) as [|x [|y l]]; split; assumption.
  - destruct (where_id InputRecord.id i (input_tracking st)) as [|x [|y l]];
      cbn [snd]; try (split; assumption).
    split; [exact Hka|]. cbn [input_tracking].
    by rewrite update_where_keys.
  - destruct (NewInput.attempt_id p); cbn [snd]; [|split; assumption].
    split; [exact Hka|]. cbn [input_tracking].
    rewrite List.map_app. by apply NoDup_snoc_fresh.
Qed.

(** No request removes an attempt. *)
Lemma ref_exec_attempts (r : Req) (st : RefStore) (i : Id) :
  In i (List.map Attempt.id (question_attempts st)) ->
  In i (List.map Attempt.id (question_attempts (snd (ref_exec r st)))).
Proof.
  intros Hin.
  destruct r as [p|p|f [j|]|[j|]|[a|] n|f j|p|ts j]; cbn [ref_exec snd];
    try exact Hin.
  - destruct (NewAttempt.attempt_number p); cbn [snd]; [exact Hin|].
    cbn [question_attempts]. rewrite List.map_app. apply List.in_or_app.
    by left.
  - destruct (where_id Attempt.id j (question_attempts st)) as [|x [|y l]];
      cbn [snd]; try exact Hin.
    cbn [question_attempts]. by rewrite update_where_keys.
  - by destruct (where_id Attempt.id j (question_attempts st)) as [|x [|y l]].
  - by destruct (final_rows a n st) as [|x [|y l]].
  - by destruct (where_id InputRecord.id j (input_tracking st))
      as [|x [|y l]].
  - by destruct (NewInput.attempt_id p).
Qed.

(** Only an insert into [input_tracking] changes how many final rows an
    attempt and input name have. *)
Lemma ref_exec_finals (r : Req) (st : RefStore) (a : Id) (n : string) :
  (forall p, r <> InsertInput p) ->
  length (final_rows a n (snd (ref_exec r st))) = length (final_rows a n st).
Proof.
  intros Hr.
  destruct r as [p|p|f [j|]|[j|]|[a'|] n'|f j|p|ts j]; cbn [ref_exec snd];
    try reflexivity.
  - by destruct (NewAttempt.attempt_number p).
  - by destruct (where_id Attempt.id j (question_attempts st)) as [|x [|y l]].
  - by destruct (where_id Attempt.id j (question_attempts st)) as [|x [|y l]].
  - by destruct (final_rows a' n' st) as [|x [|y l]].
  - destruct (where_id InputRecord.id j (input_tracking st)) as [|x [|y l]];
      cbn [snd]; try reflexivity.
    unfold final_rows. cbn [input_tracking].
    rewrite filter_update_where by apply is_final_for_update.
    unfold update_where. by rewrite length_map.
  - by destruct (Hr p).
Qed.

Lemma ref_exec_inv (r : Req) (st : RefStore) :
  (forall p, r <> InsertInput p) ->
  store_inv st -> store_inv (snd (ref_exec r st)).
Proof.
  intros Hr [Hwf Hone]. split; [by apply ref_exec_wf|].
  intros a n. rewrite ref_exec_finals by exact Hr. apply Hone.
Qed.

(** One final-answer call on a consistent store, with a session and the
    cached attempt in the store: the page keeps its session and its cache,
    the attempts are untouched, the store holds exactly one final row for the
    attempt and input name, with the value of the call, and no other pair
    gains a second final row. *)
Lemma trackInput_final_step env qprefix inputName inputValue inputType
    validationResult a sess (w : World RefStore) (st : RefStore) :
  ready_for_final qprefix inputName a sess w st ->
  let run := trackInput ref_exec env qprefix inputName inputValue inputType
               true validationResult w in
  exists st' row,
    supabase (snd run) = Some st'
    /\ currentSession (snd run) = currentSession w
    /\ currentAttempts (snd run) = currentAttempts w
    /\ fst run = Normal (Some row)
    /\ store_wf st'
    /\ question_attempts st' = question_attempts st
    /\ final_rows (Attempt.id a) inputName st' = [row]
    /\ InputRecord.input_value row = inputValue
    /\ (forall a' n', (length (final_rows a' n' st) <= 1)%nat ->
                      (length (final_rows a' n' st') <= 1)%nat).
Proof.
  intros (Hsb & Hcs & Hca & [Hka Hki] & Hin & Hone). cbv zeta.
  unfold trackInput.
  pose proof (cached_row w qprefix a Hca) as Hent.
  repeat (progress (js_run; rewrite ?Hsb, ?Hcs, ?Hent;
                    cbn [truthy negb prop_id])).
  rewrite (await_run ref_exec (SelectAttemptId (Some (Attempt.id a))) w st Hsb).
  destruct (where_id_found Attempt.id (question_attempts st) (Attempt.id a)
              Hka Hin) as (a' & Ha' & Hida').
  cbn [ref_exec]. rewrite Ha'. cbn [fst snd].
  unfold trackConsolidatedInput. js_run.
  set (w1 := after_request (SelectAttemptId (Some (Attempt.id a))) st w).
  rewrite (await_run ref_exec (SelectFinalInputId (Some (Attempt.id a)) inputName)
             w1 st eq_refl).
  cbn [ref_exec].
  destruct (final_rows (Attempt.id a) inputName st) as [|r [|r' rest]] eqn:Hf;
    [| |cbn [length] in Hone; lia]; cbn [fst snd].
  - (* no final row yet: insert *)
    set (w2 := after_request (SelectFinalInputId (Some (Attempt.id a)) inputName)
                 st w1).
    change (currentSession w2) with (currentSession w). rewrite Hcs.
    cbv beta iota.
    match goal with
    | |- context [await ref_exec ?r w2] =>
        rewrite (await_run ref_exec r w2 st eq_refl)
    end.
    cbn [ref_exec fst snd NewInput.attempt_id].
    match goal with
    | |- context [input_tracking st ++ [?x]] => set (row := x)
    end.
    assert (Hrow : is_final_for (Attempt.id a) inputName row = true).
    { unfold is_final_for. cbn. by rewrite N.eqb_refl, String.eqb_refl. }
    eexists _, row. repeat (split; [try reflexivity|]).
    + exact Hcs.
    + exact Hka.
    + cbn [input_tracking]. rewrite List.map_app.
      cbn [List.map]. by apply NoDup_snoc_fresh.
    + unfold final_rows. cbn [input_tracking]. rewrite List.filter_app.
      fold (final_rows (Attempt.id a) inputName st). rewrite Hf.
      cbn [List.filter app]. by rewrite Hrow.
    + intros a'' n'' Hle. unfold final_rows. cbn [input_tracking].
      rewrite List.filter_app. fold (final_rows a'' n'' st).
      cbn [List.filter]. destruct (is_final_for a'' n'' row) eqn:Hrow'.
      * destruct (is_final_for_inj _ _ _ _ _ Hrow Hrow') as [-> ->].
        rewrite Hf. cbn. lia.
      * by rewrite app_nil_r.
  - (* one final row: update it in place *)
    set (w2 := after_request (SelectFinalInputId (Some (Attempt.id a)) inputName)
                 st w1).
    match goal with
    | |- context [await ref_exec ?r w2] =>
        rewrite (await_run ref_exec r w2 st eq_refl)
    end.
    assert (Hr : In r (input_tracking st)).
    { apply (final_rows_in (Attempt.id a) inputName). rewrite Hf. by left. }
    cbn [ref_exec].
    rewrite (where_id_unique InputRecord.id (input_tracking st) r Hki Hr).
    cbn [fst snd].
    eexists _, _. repeat (split; [try reflexivity|]).
    + exact Hcs.
    + exact Hka.
    + cbn [input_tracking]. by rewrite update_where_keys.
    + unfold final_rows. cbn [input_tracking].
      rewrite filter_update_where by apply is_final_for_update.
      fold (final_rows (Attempt.id a) inputName st). rewrite Hf.
      unfold update_where. cbn [List.map]. by rewrite N.eqb_refl.
    + intros a'' n'' Hle. unfold final_rows. cbn [input_tracking].
      rewrite filter_update_where by apply is_final_for_update.
      unfold update_where. rewrite length_map. exact Hle.
Qed.

(** ** The invariant of a page on the reference store *)

(** How a call may move a page that satisfies the invariant. *)
Lemma page_inv_step (w w' : World RefStore) (st st' : RefStore) :
  page_inv w ->
  supabase w = Some st ->
  supabase w' = Some st' ->
  store_inv st' ->
  (forall i, In i (List.map Attempt.id (question_attempts st)) ->
             In i (List.map Attempt.id (question_attempts st'))) ->
  (is_Some (currentSession w) -> is_Some (currentSession w')) ->
  (forall p a, cached w' p = Some a ->
     cached w p = Some a
     \/ (is_Some (currentSession w')
         /\ In (Attempt.id a) (List.map Attempt.id (question_attempts st')))) ->
  page_inv w'.
Proof.
  intros (st0 & Hsb0 & _ & Hcache) Hsb Hsb' Hinv' Hmono Hsess Hnew.
  rewrite Hsb in Hsb0. injection Hsb0 as <-.
  exists st'. split; [exact Hsb'|]. split; [exact Hinv'|].
  intros p a Hc. destruct (Hnew p a Hc) as [Hold | Hfresh]; [|exact Hfresh].
  destruct (Hcache p a Hold) as [Hs Hin]. split; [by apply Hsess | by apply Hmono].
Qed.

(** The page after a request that is not an insert into [input_tracking]. *)
Lemma after_request_inv (r : Req) (w : World RefStore) (st : RefStore) :
  (forall p, r <> InsertInput p) ->
  supabase w = Some st ->
  page_inv w ->
  page_inv (after_request r (snd (ref_exec r st)) w).
Proof.
  intros Hr Hsb Hinv.
  apply (page_inv_step w (after_request r (snd (ref_exec r st)) w) st
           (snd (ref_exec r st)) Hinv Hsb eq_refl).
  - destruct Hinv as (st0 & Hsb0 & Hst & _). rewrite Hsb in Hsb0.
    injection Hsb0 as <-. by apply ref_exec_inv.
  - intros i. apply ref_exec_attempts.
  - done.
  - intros p a Hc. by left.
Qed.

Lemma initialize_inv env (w : World RefStore) :
  page_inv w -> page_inv (snd (initializeDatabaseSession ref_exec env w)).
Proof.
  intros Hinv. pose proof Hinv as (st & Hsb & Hst & Hcache).
  unfold initializeDatabaseSession. js_run. rewrite Hsb.
  destruct (generateAnonymousId_frame env w)
    as (token & w0 & Hgen & Hsb0 & Hcs0 & Hca0 & _).
  rewrite Hgen. rewrite Hsb in Hsb0.
  rewrite (await_run ref_exec _ w0 st Hsb0). cbn [ref_exec fst snd NewInput.attempt_id].
  cbn [missing_anonymous_id]. cbv beta iota. cbn [currentSession fst snd].
  eapply (page_inv_step w _ st); [exact Hinv | exact Hsb | reflexivity | | | |].
  - apply (ref_exec_inv (InsertSession (insertPayload env token)) st);
      [discriminate | exact Hst].
  - done.
  - intros _. by eexists.
  - intros p a Hc. left. unfold cached, entry in *.
    cbn [currentAttempts after_request] in Hc. by rewrite Hca0 in Hc.
Qed.

Lemma endSession_inv env (w : World RefStore) :
  page_inv w -> page_inv (snd (endDatabaseSession ref_exec env w)).
Proof.
  intros Hinv. pose proof Hinv as (st & Hsb & Hst & Hcache).
  unfold endDatabaseSession. js_run. rewrite Hsb.
  destruct (currentSession w) as [sess|] eqn:Hcs; [|exact Hinv].
  rewrite Hcs. cbv beta iota.
  rewrite (await_run ref_exec _ w st Hsb). cbn [ref_exec fst snd NewInput.attempt_id].
  apply (after_request_inv (UpdateSessionEnd (iso_now env) (Session.id sess))
           w st); [discriminate | exact Hsb | exact Hinv].
Qed.

Lemma create_inv qfile qname qprefix seed (w : World RefStore) :
  page_inv w ->
  page_inv (snd (createQuestionAttempt ref_exec qfile qname qprefix seed w)).
Proof.
  intros Hinv. pose proof Hinv as (st & Hsb & Hst & Hcache).
  unfold createQuestionAttempt. js_run. rewrite Hsb.
  destruct (currentSession w) as [sess|] eqn:Hcs; [|exact Hinv].
  rewrite ?Hcs. cbv beta iota.
  match goal with
  | |- context [await ref_exec ?r w] =>
      rewrite (await_run ref_exec r w st Hsb);
      assert (Hafter : page_inv (after_request r (snd (ref_exec r st)) w))
        by (apply after_request_inv; [discriminate | exact Hsb | exact Hinv]);
      assert (Hst' : store_inv (snd (ref_exec r st)))
        by (apply ref_exec_inv; [discriminate | exact Hst]);
      pose proof (ref_exec_attempts r st) as Hmono
  end.
  cbn [ref_exec NewAttempt.attempt_number] in *.
  destruct (attemptNumber (entry w qprefix)) as [|k]; cbn [fst snd] in *;
    cbv beta iota; cbn [fst snd]; [exact Hafter|].
  match goal with
  | |- context [question_attempts st ++ [?x]] => set (row := x) in *
  end.
  eapply (page_inv_step w _ st); [exact Hinv | exact Hsb | reflexivity
                                 | exact Hst' | exact Hmono | |].
  - cbn [currentSession after_request]. by rewrite Hcs.
  - intros p a Hc. unfold cached, entry in Hc.
    cbn [currentAttempts after_request] in Hc.
    apply cached_set in Hc as [[-> [= <-]] | [Hne Hc]]; [|by left].
    right. cbn [currentSession after_request].
    split; [by rewrite Hcs|]. cbn [question_attempts].
    rewrite List.map_app. apply List.in_or_app. right. by left.
Qed.

Lemma update_inv env qprefix score maxScore isCorrect (w : World RefStore) :
  page_inv w ->
  page_inv (snd (updateQuestionAttempt ref_exec env qprefix score maxScore
                   isCorrect w)).
Proof.
  intros Hinv. pose proof Hinv as (st & Hsb & [[Hka Hki] Hone] & Hcache).
  unfold updateQuestionAttempt. js_run. rewrite Hsb.
  destruct (truthy (entry w qprefix)) eqn:Htr; cbn [negb]; [|exact Hinv].
  destruct (entry w qprefix) as [| |b|k|s|a|] eqn:Hent;
    try discriminate Htr;
    try (match goal with
         | |- context [await ref_exec ?r w] =>
             rewrite (await_run ref_exec r w st Hsb);
             apply (after_request_inv r w st);
               [discriminate | exact Hsb | exact Hinv]
         end).
  assert (Hca : cached w qprefix = Some a) by (unfold cached; by rewrite Hent).
  destruct (Hcache qprefix a Hca) as [Hsess Hin].
  match goal with
  | |- context [await ref_exec ?r w] =>
      rewrite (await_run ref_exec r w st Hsb); set (req := r)
  end.
  destruct (where_id_found Attempt.id (question_attempts st) (Attempt.id a)
              Hka Hin) as (a' & Ha' & Hida').
  assert (Hst' : store_inv (snd (ref_exec req st))).
  { apply ref_exec_inv; [discriminate|]. by repeat split. }
  subst req. cbn [ref_exec] in *. rewrite Ha' in *. cbn [fst snd] in *.
  cbv beta iota. cbn [fst snd].
  eapply (page_inv_step w _ st); [exact Hinv | exact Hsb | reflexivity
                                 | exact Hst' | | |].
  - intros i Hi. cbn [question_attempts]. by rewrite update_where_keys.
  - done.
  - intros p b Hc. unfold cached, entry in Hc.
    cbn [currentAttempts after_request] in Hc.
    apply cached_set in Hc as [[-> [= <-]] | [Hne Hc]]; [|by left].
    right. split; [exact Hsess|].
    cbn [question_attempts]. rewrite update_where_keys by done.
    cbn [apply_attempt_update Attempt.id]. by rewrite Hida'.
Qed.

Lemma trackInput_inv env qprefix n v t fin vr (w : World RefStore) :
  page_inv w ->
  page_inv (snd (trackInput ref_exec env qprefix n v t fin vr w)).
Proof.
  intros Hinv. pose proof Hinv as (st & Hsb & [[Hka Hki] Hone] & Hcache).
  destruct (currentSession w) as [sess|] eqn:Hcs;
    [|unfold trackInput; js_run; by rewrite Hsb, Hcs].
  destruct (truthy (entry w qprefix)) eqn:Htr;
    [|unfold trackInput; js_run; by rewrite Hsb, Hcs, Htr].
  destruct (cached w qprefix) as [a|] eqn:Hca.
  - pose proof (cached_row w qprefix a Hca) as Hent.
    destruct (Hcache qprefix a Hca) as [_ Hin].
    destruct fin.
    + destruct (trackInput_final_step env qprefix n v t vr a sess w st)
        as (st' & row & Hsb' & Hcs' & Hca' & _ & Hwf' & Hatt & _ & _ & Hframe).
      { by repeat split. }
      eapply (page_inv_step w _ st st'); [exact Hinv | exact Hsb | exact Hsb'
                                         | | | |].
      * split; [exact Hwf'|]. intros a' n'. by apply Hframe.
      * by rewrite Hatt.
      * by rewrite Hcs'.
      * intros p b Hc. left. unfold cached, entry in *. by rewrite Hca' in Hc.
    + unfold trackInput.
      repeat (progress (js_run; rewrite ?Hsb, ?Hcs, ?Hent;
                        cbn [truthy negb])).
      rewrite (await_run ref_exec (SelectAttemptId (Some (Attempt.id a))) w st
                 Hsb).
      assert (Hgoal : page_inv
                (after_request (SelectAttemptId (Some (Attempt.id a)))
                   (snd (ref_exec (SelectAttemptId (Some (Attempt.id a))) st))
                   w)).
      { by apply after_request_inv. }
      cbn [ref_exec] in *.
      destruct (where_id Attempt.id (Attempt.id a) (question_attempts st))
        as [|x [|y l]]; exact Hgoal.
  - (* a truthy value that is not a row: the lookup finds nothing *)
    assert (Hgoal : page_inv (after_request (SelectAttemptId None) st w)).
    { apply (after_request_inv (SelectAttemptId None) w st);
        [discriminate | exact Hsb | exact Hinv]. }
    unfold trackInput. repeat (progress (js_run; rewrite ?Hsb, ?Hcs, ?Htr;
                                         cbn [negb])).
    unfold cached in Hca.
    destruct (entry w qprefix) as [| |b|k|s|a|]; try discriminate;
      rewrite (await_run ref_exec (SelectAttemptId None) w st Hsb);
      exact Hgoal.
Qed.

Lemma invoke_inv env (c : Call) (w : World RefStore) :
  page_inv w -> page_inv (snd (invoke ref_exec env c w)).
Proof.
  intros Hinv.
  destruct c as [|qfile qname qprefix seed|qprefix sc ms ic
                 |qprefix n v t fin vr| |e]; unfold invoke, mbind, Js_bind.
  - pose proof (initialize_inv env w Hinv) as H.
    by destruct (initializeDatabaseSession ref_exec env w) as [[r|x] w'].
  - pose proof (create_inv qfile qname qprefix seed w Hinv) as H.
    by destruct (createQuestionAttempt ref_exec qfile qname qprefix seed w)
      as [[r|x] w'].
  - pose proof (update_inv env qprefix sc ms ic w Hinv) as H.
    by destruct (updateQuestionAttempt ref_exec env qprefix sc ms ic w)
      as [[r|x] w'].
  - pose proof (trackInput_inv env qprefix n v t fin vr w Hinv) as H.
    by destruct (trackInput ref_exec env qprefix n v t fin vr w)
      as [[r|x] w'].
  - pose proof (endSession_inv env w Hinv) as H.
    by destruct (endDatabaseSession ref_exec env w) as [[r|x] w'].
  - unfold sync. by destruct (getInputDetails e).
Qed.

(** The invariant holds throughout the life of a page. *)
Lemma run_calls_inv (history : list (Env * Call)) (w : World RefStore) :
  page_inv w -> page_inv (snd (run_calls ref_exec history w)).
Proof.
  revert w. induction history as [|[env c] history IH]; intros w Hinv;
    [exact Hinv|].
  cbn [run_calls]. pose proof (invoke_inv env c w Hinv) as H1.
  destruct (invoke ref_exec env c w) as [r w1]. cbn [snd] in H1.
  specialize (IH w1 H1).
  by destruct (run_calls ref_exec history w1) as [rs w2].
Qed.

Lemma fresh_world_inv (st : RefStore) (storage : gmap string string) :
  store_inv st -> page_inv (fresh_world (Some st) storage).
Proof.
  intros Hst. exists st. split; [reflexivity|]. split; [exact Hst|].
  intros p a Hc. unfold cached, entry in Hc.
  apply js_get_inherited_row in Hc as [_ Hc]; [discriminate Hc|].
  apply lookup_empty.
Qed.

(** On a page that satisfies the invariant, a cached attempt is all that a
    final-answer call needs. *)
Lemma page_inv_ready qprefix inputName a (w : World RefStore) :
  page_inv w -> cached w qprefix = Some a ->
  exists sess st, ready_for_final qprefix inputName a sess w st.
Proof.
  intros (st & Hsb & [Hwf Hone] & Hcache) Hca.
  destruct (Hcache qprefix a Hca) as [[sess Hcs] Hin].
  exists sess, st. unfold ready_for_final. auto 10.
Qed.

(** ** Final answers *)

(** Two final-answer calls in a row, from a page that is ready. *)
Lemma trackInput_final_twice_ready qprefix inputName a sess env env'
    value value' type type' validation validation'
    (w : World RefStore) (st : RefStore) :
  ready_for_final qprefix inputName a sess w st ->
  let w1 := snd (trackInput ref_exec env qprefix inputName value type
                   true validation w) in
  let w2 := snd (trackInput ref_exec env' qprefix inputName value' type'
                   true validation' w1) in
  exists st2 row,
    supabase w2 = Some st2
    /\ final_rows (Attempt.id a) inputName st2 = [row]
    /\ InputRecord.input_value row = value'.
Proof.
  intros Hready w1 w2.
  pose proof Hready as (_ & Hcs & Hca & _ & Hin & _).
  destruct (trackInput_final_step env qprefix inputName value type validation
              a sess w st Hready)
    as (st1 & row1 & Hsb1 & Hcs1 & Hca1 & _ & Hwf1 & Hatt1 & Hrows1 & _ & _).
  fold w1 in Hsb1, Hcs1, Hca1.
  assert (Hready1 : ready_for_final qprefix inputName a sess w1 st1).
  { split; [exact Hsb1|]. split; [by rewrite Hcs1|].
    split; [unfold cached, entry in *; by rewrite Hca1|].
    split; [exact Hwf1|]. split; [by rewrite Hatt1|].
    rewrite Hrows1. cbn. lia. }
  destruct (trackInput_final_step env' qprefix inputName value' type'
              validation' a sess w1 st1 Hready1)
    as (st2 & row & Hsb2 & _ & _ & _ & _ & _ & Hrows & Hval & _).
  fold w2 in Hsb2. by exists st2, row.
Qed.

(** C1. Take a page that loaded on a consistent reference store, which
    carries out and answers every request, and has made any calls since, one
    after the other.  For every attempt it holds in [currentAttempts] and
    every input name: after two [trackInput] calls
    with [isFinalAnswer = true] for that prefix and input name, the second
    starting when the first has completed, the store holds exactly one row
    of [input_tracking] that is final for that attempt and input name, and
    its value is the value of the second call. *)
Theorem trackInput_final_twice :
  forall (st0 : RefStore) (storage : gmap string string)
         (history : list (Env * Call)) qprefix inputName a
         env env' value value' type type' validation validation',
    store_inv st0 ->
    let w := snd (run_calls ref_exec history (fresh_world (Some st0) storage)) in
    cached w qprefix = Some a ->
    let w1 := snd (trackInput ref_exec env qprefix inputName value type
                     true validation w) in
    let w2 := snd (trackInput ref_exec env' qprefix inputName value' type'
                     true validation' w1) in
    exists st2 row,
      supabase w2 = Some st2
      /\ final_rows (Attempt.id a) inputName st2 = [row]
      /\ InputRecord.is_final_answer row = true
      /\ InputRecord.attempt_id row = Attempt.id a
      /\ InputRecord.input_name row = inputName
      /\ InputRecord.input_value row = value'.
Proof.
  intros st0 storage history qprefix inputName a env env' v v' t t' vr vr'
    Hst0 w Hca w1 w2.
  assert (Hinv : page_inv w)
    by (apply run_calls_inv, fresh_world_inv, Hst0).
  destruct (page_inv_ready qprefix inputName a w Hinv Hca)
    as (sess & st & Hready).
  destruct (trackInput_final_twice_ready qprefix inputName a sess env env'
              v v' t t' vr vr' w st Hready) as (st2 & row & Hsb2 & Hrows & Hval).
  fold w1 w2 in Hsb2. exists st2, row.
  split; [exact Hsb2|]. split; [exact Hrows|].
  assert (Hrow : In row (final_rows (Attempt.id a) inputName st2))
    by (rewrite Hrows; by left).
  apply List.filter_In in Hrow as [_ Hrow]. unfold is_final_for in Hrow.
  apply andb_prop in Hrow as [Hrow Hfin].
  apply andb_prop in Hrow as [Haid Hname].
  apply N.eqb_eq in Haid. apply String.eqb_eq in Hname.
  destruct (InputRecord.is_final_answer row); [|discriminate Hfin]. done.
Qed.

Lemma empty_store_inv : store_inv empty_store.
Proof.
  split; [split; apply NoDup_nil_2|]. intros a n. cbn. lia.
Qed.

Lemma trackInput_final_twice_witness :
  exists st2 row,
    supabase
      (snd (trackInput ref_exec env1 "q1_" "ans1" "x+2" "text" true None
         (snd (trackInput ref_exec env0 "q1_" "ans1" "x+1" "text" true None
                 (snd (run_calls ref_exec history_ready
                         (fresh_world (Some empty_store) ∅)))))))
    = Some st2
    /\ final_rows 1 "ans1" st2 = [row]
    /\ InputRecord.input_value row = "x+2".
Proof.
  destruct (trackInput_final_twice empty_store ∅ history_ready "q1_" "ans1"
              attempt1 env0 env1 "x+1" "x+2" "text" "text" None None
              empty_store_inv)
    as (st2 & row & Hsb & Hrows & _ & _ & _ & Hval).
  - vm_compute. reflexivity.
  - exists st2, row. by repeat split.
Defined.

(** C1, as worded, fails when the store does not answer a lookup.  The page
    loads on an empty store, opens a session and creates an attempt; the
    first final-answer call inserts the record; in the second the lookup of
    the final record fails, [trackConsolidatedInput] reads no [data] from the
    answer, does not look at its [error], and inserts a second record: the
    store holds two final rows for the attempt and input name.  It fails as
    well on a store that already holds two final rows for the attempt and
    input name: [maybeSingle()] answers the lookup with an error, each call
    inserts one more row, and nothing is repaired. *)
Lemma final_twice_after_failed_lookup :
  cached w_glitch "q1_" = Some attempt1
  /\ List.map InputRecord.input_value
       (final_rows 1 "ans1"
          (flaky_store
             (snd (trackInput flaky_exec env1 "q1_" "ans1" "x+2" "text" true
                     None
                     (snd (trackInput flaky_exec env0 "q1_" "ans1" "x+1"
                             "text" true None w_glitch))))))
     = ["x+1"; "x+2"]
  /\ ~ final_twice_leaves_one "q1_" "ans1" "x+1" "x+2" attempt1 w_glitch
  /\ List.map InputRecord.input_value
       (final_rows 1 "ans1"
          (default empty_store
             (supabase
                (snd (trackInput ref_exec env1 "q1_" "ans1" "x+2" "text" true
                        None
                        (snd (trackInput ref_exec env0 "q1_" "ans1" "x+1"
                                "text" true None w_duplicated)))))))
     = ["x"; "x"; "x+1"; "x+2"].
Proof.
  split; [vm_compute; reflexivity|]. split; [vm_compute; reflexivity|].
  split; [|vm_compute; reflexivity].
  intros (row & Hrows & _). vm_compute in Hrows. discriminate Hrows.
Qed.

(** ** Where cached attempts come from *)

Lemma same_attempts_refl {St} (w : World St) : same_attempts w w.
Proof. reflexivity. Qed.

Lemma same_attempts_trans {St} (w1 w2 w3 : World St) :
  same_attempts w1 w2 -> same_attempts w2 w3 -> same_attempts w1 w3.
Proof. unfold same_attempts. congruence. Qed.

Lemma same_attempts_request {St} (r : Req) (st' : St) (w : World St) :
  same_attempts w (after_request r st' w).
Proof. reflexivity. Qed.

Lemma same_attempts_cached {St} (w w' : World St) (p : string) :
  same_attempts w w' -> cached w' p = cached w p.
Proof. unfold same_attempts, cached, entry. by intros ->. Qed.

Section Cache.
Context {St : Type}.
Variable exec : forall r : Req, St -> outcome (Resp r) * St.

Lemma await_same_attempts (r : Req) (w : World St) :
  same_attempts w (snd (await exec r w)).
Proof.
  apply (frames_await exec same_attempts same_attempts_refl
           same_attempts_request).
Qed.

(** What follows the request in [createQuestionAttempt] and in
    [updateQuestionAttempt]: the row that came back is cached for the prefix
    of the call and returned, and nothing else is cached. *)
Ltac answer_cached p :=
  match goal with
  | |- context [await exec ?r ?w] =>
      let Hsame := fresh "Hsame" in
      pose proof (await_same_attempts r w) as Hsame;
      destruct (await exec r w) as [[[d e]|x] w1]; cbn [fst snd] in *;
      [destruct e as [e|]; cbn [fst snd];
       [rewrite (same_attempts_cached _ _ p Hsame); by left|];
       destruct d as [a'|]; cbn [fst snd]; unfold cached at 1, entry;
       cbn [currentAttempts];
       (let Hc := fresh "Hc" in
        intros Hc; apply cached_set in Hc as [[-> [= <-]] | [Hne Hc]];
        try (by right);
        left; by rewrite <- (same_attempts_cached _ _ p Hsame))
      |rewrite (same_attempts_cached _ _ p Hsame); by left]
  end.

(** After [createQuestionAttempt], an attempt cached for a prefix was cached
    before, or is the row the call has just returned for that prefix. *)
Lemma createQuestionAttempt_cached qfile qname qprefix seed (w : World St)
    (p : string) (a : Attempt.t) :
  let run := createQuestionAttempt exec qfile qname qprefix seed w in
  cached (snd run) p = Some a ->
  cached w p = Some a \/ (p = qprefix /\ fst run = Normal (Some a)).
Proof.
  cbv zeta. unfold createQuestionAttempt. js_run.
  destruct (supabase w) as [st|]; [|by left].
  destruct (currentSession w) as [sess|] eqn:Hcs; [|by left].
  rewrite ?Hcs. cbv beta iota. answer_cached p.
Qed.

(** After [updateQuestionAttempt], likewise. *)
Lemma updateQuestionAttempt_cached env qprefix score maxScore isCorrect
    (w : World St) (p : string) (a : Attempt.t) :
  let run := updateQuestionAttempt exec env qprefix score maxScore isCorrect
               w in
  cached (snd run) p = Some a ->
  cached w p = Some a \/ (p = qprefix /\ fst run = Normal (Some a)).
Proof.
  cbv zeta. unfold updateQuestionAttempt. js_run.
  destruct (supabase w) as [st|]; [|by left].
  destruct (truthy (entry w qprefix)); cbn [negb]; [|by left].
  destruct (entry w qprefix) as [| |b|k|s|a0|]; try (by left);
    answer_cached p.
Qed.

(** One call of the bundle: a prefix has an attempt cached afterwards only
    if it had one before, or the call was [createQuestionAttempt] or
    [updateQuestionAttempt] for that prefix and returned the row. *)
Lemma invoke_cached env (c : Call) (w : World St) (p : string)
    (a : Attempt.t) :
  cached (snd (invoke exec env c w)) p = Some a ->
  cached w p <> None
  \/ (call_prefix c = Some p
      /\ fst (invoke exec env c w) = Normal (AttemptRow a)).
Proof.
  destruct c as [|qfile qname qprefix seed|qprefix sc ms ic
                 |qprefix n v t fin vr| |e];
    unfold invoke, mbind, Js_bind, mret, Js_ret.
  - pose proof (frames_initializeDatabaseSession exec same_attempts
                  same_attempts_refl same_attempts_trans same_attempts_request
                  (fun _ _ _ => eq_refl) (fun _ _ => eq_refl) env w) as Hsame.
    destruct (initializeDatabaseSession exec env w) as [[r|x] w'];
      cbn [snd] in *; rewrite (same_attempts_cached _ _ p Hsame);
      left; congruence.
  - pose proof (createQuestionAttempt_cached qfile qname qprefix seed w p a)
      as H. cbv zeta in H.
    destruct (createQuestionAttempt exec qfile qname qprefix seed w)
      as [[r|x] w']; cbn [fst snd] in *; intros Hc;
      (destruct (H Hc) as [Hold | [-> Hr]]; [left; congruence|]);
      [|discriminate Hr].
    right. split; [reflexivity|]. injection Hr as ->. reflexivity.
  - pose proof (updateQuestionAttempt_cached env qprefix sc ms ic w p a)
      as H. cbv zeta in H.
    destruct (updateQuestionAttempt exec env qprefix sc ms ic w)
      as [[r|x] w']; cbn [fst snd] in *; intros Hc;
      (destruct (H Hc) as [Hold | [-> Hr]]; [left; congruence|]);
      [|discriminate Hr].
    right. split; [reflexivity|]. injection Hr as ->. reflexivity.
  - pose proof (frames_trackInput exec same_attempts
                  same_attempts_refl same_attempts_trans same_attempts_request
                  env qprefix n v t fin vr w) as Hsame.
    destruct (trackInput exec env qprefix n v t fin vr w) as [[r|x] w'];
      cbn [snd] in *; rewrite (same_attempts_cached _ _ p Hsame);
      left; congruence.
  - pose proof (frames_endDatabaseSession exec same_attempts
                  same_attempts_refl same_attempts_trans same_attempts_request
                  env w) as Hsame.
    destruct (endDatabaseSession exec env w) as [[r|x] w'];
      cbn [snd] in *; rewrite (same_attempts_cached _ _ p Hsame);
      left; congruence.
  - unfold sync. destruct (getInputDetails e); cbn [snd]; left; congruence.
Qed.

(** Over the life of a page: a prefix has an attempt cached only if it had
    one at the start, or some [createQuestionAttempt] or
    [updateQuestionAttempt] call for that prefix has returned a row. *)
Lemma run_calls_cached (history : list (Env * Call)) :
  forall (w : World St) (p : string),
    cached (snd (run_calls exec history w)) p <> None ->
    cached w p <> None
    \/ exists i env c a,
         history !! i = Some (env, c)
         /\ call_prefix c = Some p
         /\ fst (run_calls exec history w) !! i = Some (Normal (AttemptRow a)).
Proof.
  induction history as [|[env c] history IH]; intros w p; [by left|].
  cbn [run_calls].
  pose proof (fun a => invoke_cached env c w p a) as Hstep.
  destruct (invoke exec env c w) as [r w1]. cbn [fst snd] in Hstep.
  specialize (IH w1 p).
  destruct (run_calls exec history w1) as [rs w2]. cbn [fst snd] in *.
  intros Hc. destruct (IH Hc) as [Hw1 | (i & env' & c' & a & Hi & Hp & Hr)].
  - destruct (cached w1 p) as [a|] eqn:Hca; [|done].
    destruct (Hstep a eq_refl) as [Hold | [Hp ->]]; [by left|].
    right. by exists 0%nat, env, c, a.
  - right. by exists (S i), env', c', a.
Qed.

(** On a page that has loaded, a prefix for which no call has returned a
    row has no attempt cached. *)
Lemma no_row_no_attempt (history : list (Env * Call)) sb storage
    (p : string) :
  (forall i env c a,
     history !! i = Some (env, c) -> call_prefix c = Some p ->
     fst (run_calls exec history (fresh_world sb storage)) !! i
     <> Some (Normal (AttemptRow a))) ->
  cached (snd (run_calls exec history (fresh_world sb storage))) p = None.
Proof.
  intros Hno.
  destruct (cached (snd (run_calls exec history (fresh_world sb storage))) p)
    as [a|] eqn:Hca; [|reflexivity].
  destruct (run_calls_cached history (fresh_world sb storage) p)
    as [Hfresh | (i & env & c & a' & Hi & Hp & Hr)].
  - congruence.
  - destruct Hfresh.
    destruct (cached (fresh_world sb storage) p) as [b|] eqn:Hb; [|done].
    unfold cached, entry in Hb.
    apply js_get_inherited_row in Hb as [_ Hb]; [discriminate Hb|].
    apply lookup_empty.
  - destruct (Hno i env c a' Hi Hp Hr).
Qed.
End Cache.

(** * Further properties of the source *)

(** ** Calls that return at once *)

Section EarlyReturns.
Context {St : Type}.
Variable exec : forall r : Req, St -> outcome (Resp r) * St.

(** X1. When the client is not configured, each of the five store-backed
    operations returns an empty result and leaves the page as it was: no
    request, no session, and not even the anonymous identity is generated
    or stored. *)
Theorem unconfigured_is_noop :
  forall env (c : Call) (w : World St),
    supabase w = None ->
    store_backed c = true ->
    exists v, invoke exec env c w = (Normal v, w) /\ empty_value v.
Proof.
  intros env c w Hsb Hc. unfold empty_value.
  destruct c as [|qfile qname qprefix seed|qprefix sc ms ic
                 |qprefix n v t fin vr| |e]; try discriminate Hc;
    unfold invoke, initializeDatabaseSession, createQuestionAttempt,
      updateQuestionAttempt, trackInput, endDatabaseSession;
    js_run; rewrite Hsb; eexists; (split; [reflexivity|]); auto.
Qed.

(** X2. While no session is held, [createQuestionAttempt], [trackInput] and
    [endDatabaseSession] return an empty result and leave the page as it
    was; no request is issued. *)
Theorem without_session_is_noop :
  forall env (c : Call) (w : World St),
    currentSession w = None ->
    needs_session c = true ->
    exists v, invoke exec env c w = (Normal v, w) /\ empty_value v.
Proof.
  intros env c w Hcs Hc. unfold empty_value.
  destruct c as [|qfile qname qprefix seed|qprefix sc ms ic
                 |qprefix n v t fin vr| |e]; try discriminate Hc;
    unfold invoke, createQuestionAttempt, trackInput, endDatabaseSession;
    js_run; rewrite Hcs; destruct (supabase w);
    eexists; (split; [reflexivity|]); auto.
Qed.
End EarlyReturns.

Lemma unconfigured_is_noop_witness :
  exists v,
    invoke ref_exec env0 CallInitializeDatabaseSession w_unconfigured
    = (Normal v, w_unconfigured) /\ empty_value v.
Proof.
  apply (unconfigured_is_noop ref_exec env0 CallInitializeDatabaseSession
           w_unconfigured); reflexivity.
Defined.

Lemma without_session_is_noop_witness :
  exists v,
    invoke ref_exec env0 (CallCreateQuestionAttempt "q1.xml" None "q1_" None)
      w_loaded
    = (Normal v, w_loaded) /\ empty_value v.
Proof.
  apply (without_session_is_noop ref_exec env0
           (CallCreateQuestionAttempt "q1.xml" None "q1_" None) w_loaded);
    reflexivity.
Defined.

(** ** What a call does to the caches *)

Section Caches.
Context {St : Type}.
Variable exec : forall r : Req, St -> outcome (Resp r) * St.

(** X3. With a session, [endDatabaseSession] issues one request, the update
    of [session_end] to the current time on the row of the session, and,
    whatever the store answers, keeps the session, the cached attempts and
    the client storage: the page goes on tracking with the same session. *)
Theorem endDatabaseSession_keeps_session :
  forall env (w : World St) st sess,
    supabase w = Some st ->
    currentSession w = Some sess ->
    let run := endDatabaseSession exec env w in
    issued (snd run)
      = issued w ++ [UpdateSessionEnd (iso_now env) (Session.id sess)]
    /\ currentSession (snd run) = Some sess
    /\ currentAttempts (snd run) = currentAttempts w
    /\ localStorage (snd run) = localStorage w.
Proof.
  intros env w st sess Hsb Hcs run. subst run. unfold endDatabaseSession.
  repeat (progress (js_run; rewrite ?Hsb, ?Hcs)).
  rewrite (await_run exec _ w st Hsb).
  destruct (exec (UpdateSessionEnd (iso_now env) (Session.id sess)) st)
    as [[d e|x] st']; cbn [fst snd]; repeat split; exact Hcs.
Qed.

(** X4. With an attempt cached for the prefix, [updateQuestionAttempt]
    issues one request, the update of that attempt by its identifier.  When
    the store answers with a row and no error, the row is returned and
    replaces the cached one; when it answers with an error, or the promise
    rejects, [null] is returned and the cache keeps the stale row; when it
    answers with neither data nor error, [null] is returned and the cached
    entry has become [null]. *)
Theorem updateQuestionAttempt_outcomes :
  forall env qprefix score maxScore isCorrect (w : World St) st a,
    supabase w = Some st ->
    cached w qprefix = Some a ->
    let req := UpdateAttempt (attemptUpdate env score maxScore isCorrect)
                 (Some (Attempt.id a)) in
    let run := updateQuestionAttempt exec env qprefix score maxScore
                 isCorrect w in
    issued (snd run) = issued w ++ [req]
    /\ currentSession (snd run) = currentSession w
    /\ match fst (exec req st) with
       | Resolved (Some row) None =>
           fst run = Normal (Some row)
           /\ currentAttempts (snd run)
              = js_set (currentAttempts w) qprefix (Some row)
           /\ cached (snd run) qprefix = Some row
       | Resolved None None =>
           fst run = Normal None
           /\ currentAttempts (snd run)
              = js_set (currentAttempts w) qprefix None
           /\ cached (snd run) qprefix = None
       | _ =>
           fst run = Normal None
           /\ currentAttempts (snd run) = currentAttempts w
       end.
Proof.
  intros env qprefix sc ms ic w st a Hsb Hca req run. subst run req.
  pose proof (cached_row w qprefix a Hca) as Hent.
  unfold updateQuestionAttempt, attemptUpdate.
  repeat (progress (js_run; rewrite ?Hsb, ?Hent; cbn [truthy negb])).
  match goal with
  | |- context [await exec ?r w] => rewrite (await_run exec r w st Hsb);
      destruct (exec r st) as [[[row|] [e|]|x] st']
  end; cbn [fst snd]; repeat split;
    unfold cached, entry; cbn [currentAttempts after_request];
    apply cached_set_eq.
Qed.

(** X5. With a session, [createQuestionAttempt] issues one request, the
    insert of an attempt for the prefix with the session's identifier and the
    attempt number that line 99 computes from [currentAttempts[qprefix]]:
    one more than the number of the row found there, 1 when the entry is
    falsy, and [NaN] when it is a truthy value that is no row.  When the
    store answers with a row and no error, the row is returned and replaces
    whatever was cached for the prefix; when it answers with an error, or the
    promise rejects, [null] is returned and the cache is unchanged; when it
    answers with neither data nor error, [null] is returned and the cached
    entry has become [null], so that the next attempt for the prefix is
    numbered 1 again. *)
Theorem createQuestionAttempt_outcomes :
  forall qfile qname qprefix seed (w : World St) st sess,
    supabase w = Some st ->
    currentSession w = Some sess ->
    let req := InsertAttempt (newAttempt sess qfile qname qprefix seed
                                (entry w qprefix)) in
    let run := createQuestionAttempt exec qfile qname qprefix seed w in
    issued (snd run) = issued w ++ [req]
    /\ currentSession (snd run) = currentSession w
    /\ match fst (exec req st) with
       | Resolved (Some row) None =>
           fst run = Normal (Some row)
           /\ currentAttempts (snd run)
              = js_set (currentAttempts w) qprefix (Some row)
           /\ cached (snd run) qprefix = Some row
       | Resolved None None =>
           fst run = Normal None
           /\ currentAttempts (snd run)
              = js_set (currentAttempts w) qprefix None
           /\ attemptNumber (entry (snd run) qprefix) = Num 1
       | _ =>
           fst run = Normal None
           /\ currentAttempts (snd run) = currentAttempts w
       end.
Proof.
  intros qfile qname qprefix seed w st sess Hsb Hcs req run. subst run req.
  unfold createQuestionAttempt, newAttempt.
  repeat (progress (js_run; rewrite ?Hsb, ?Hcs)).
  match goal with
  | |- context [await exec ?r w] => rewrite (await_run exec r w st Hsb);
      destruct (exec r st) as [[[row|] [e|]|x] st']
  end; cbn [fst snd]; repeat split; try exact Hcs.
  - unfold cached, entry. cbn [currentAttempts after_request].
    apply cached_set_eq.
  - unfold attemptNumber, entry. cbn [currentAttempts after_request].
    by rewrite js_get_set_null.
Qed.
End Caches.

Lemma endDatabaseSession_keeps_session_witness :
  currentSession (snd (endDatabaseSession ref_exec env1 w_ready))
  = Some session1.
Proof.
  apply (endDatabaseSession_keeps_session ref_exec env1 w_ready store_ready
           session1 eq_refl eq_refl).
Defined.

Lemma updateQuestionAttempt_outcomes_witness :
  issued (snd (updateQuestionAttempt ref_exec env1 "q1_" "1" "2" false
                 w_ready))
  = issued w_ready
    ++ [UpdateAttempt (attemptUpdate env1 "1" "2" false) (Some 1%N)].
Proof.
  apply (updateQuestionAttempt_outcomes ref_exec env1 "q1_" "1" "2" false
           w_ready store_ready attempt1 eq_refl eq_refl).
Defined.

Lemma createQuestionAttempt_outcomes_witness :
  issued (snd (createQuestionAttempt ref_exec "q1.xml" None "q1_" None
                 w_session))
  = issued w_session
    ++ [InsertAttempt
          (newAttempt session1 "q1.xml" None "q1_" None JUndefined)].
Proof.
  apply (createQuestionAttempt_outcomes ref_exec "q1.xml" None "q1_" None
           w_session store_session session1 eq_refl eq_refl).
Defined.

(** ** The requests of each call *)

Section Footprint.
Context {St : Type}.
Variable exec : forall r : Req, St -> outcome (Resp r) * St.
Variable P : Req -> Prop.

Lemma issues_nothing (w w' : World St) (n : nat) :
  issued w' = issued w -> supabase w' = supabase w ->
  exists new,
    issued w' = issued w ++ new
    /\ Forall P new /\ (length new <= n)%nat
    /\ supabase w' = replay exec new <$> supabase w.
Proof.
  intros Hi Hs. exists []. rewrite Hi, Hs, app_nil_r.
  split; [reflexivity|]. split; [constructor|]. split; [cbn; lia|].
  by destruct (supabase w).
Qed.

Lemma quiet_issues {A} (m : Js St A) (n : nat) :
  quiet m -> issues exec P n m.
Proof. intros Hq w. destruct (Hq w). by apply issues_nothing. Qed.

Lemma quiet_ret {A} (a : A) : quiet (mret a : Js St A).
Proof. by intros w. Qed.

Lemma quiet_gets {A} (f : World St -> A) : quiet (gets f).
Proof. by intros w. Qed.

Lemma quiet_prop {A B} (f : A -> B) (o : option A) :
  quiet (prop f o : Js St B).
Proof. by destruct o; intros w. Qed.

Lemma quiet_prop_id (v : JsValue) : quiet (prop_id v : Js St (option Id)).
Proof. by destruct v; intros w. Qed.

Lemma quiet_generateAnonymousId env : quiet (generateAnonymousId (St:=St) env).
Proof.
  intros w. destruct (generateAnonymousId_frame env w)
    as (token & w0 & Hgen & Hsb & _ & _ & His). by rewrite Hgen.
Qed.

Lemma issues_bind_quiet {A B} (m : Js St A) (k : A -> Js St B) (n : nat) :
  quiet m -> (forall a, issues exec P n (k a)) -> issues exec P n (m ≫= k).
Proof.
  intros Hm Hk w. destruct (Hm w) as [Hi Hs]. unfold mbind, Js_bind.
  destruct (m w) as [[a|e] w1]; cbn [snd] in *.
  - rewrite <- Hi, <- Hs. apply Hk.
  - by apply issues_nothing.
Qed.

Lemma issues_bind_await {B} (r : Req)
    (k : option (Resp r) * option StoreError -> Js St B) (n : nat) :
  P r -> (forall a, issues exec P n (k a)) ->
  issues exec P (S n) (await exec r ≫= k).
Proof.
  intros Hr Hk w. unfold mbind, Js_bind, await.
  destruct (supabase w) as [st|] eqn:Hsb.
  - destruct (exec r st) as [[d e|x] st'] eqn:Hex.
    + destruct (Hk (d, e) (after_request r st' w))
        as (new & Hnew & HP & Hlen & Hst).
      exists (r :: new). rewrite Hnew, Hst. cbn [issued after_request].
      rewrite <- app_assoc. split; [reflexivity|].
      split; [by constructor|]. split; [cbn; lia|].
      cbn. by rewrite Hex.
    + exists [r]. split; [reflexivity|].
      split; [by repeat constructor|]. split; [cbn; lia|].
      cbn. by rewrite Hex.
  - cbn [snd]. rewrite <- Hsb. by apply issues_nothing.
Qed.

Lemma issues_try_catch {A} (body : Js St A) (a0 : A) (n : nat) :
  issues exec P n body -> issues exec P n (try_catch body (fun _ => mret a0)).
Proof.
  intros Hb w. specialize (Hb w). unfold try_catch.
  by destruct (body w) as [[a|e] w1].
Qed.

Lemma issues_then_ret {A B} (n : nat) (m : Js St A) (f : A -> B) :
  issues exec P n m -> issues exec P n (m ≫= fun a => mret (f a)).
Proof.
  intros Hm w. specialize (Hm w). unfold mbind, Js_bind.
  by destruct (m w) as [[a|e] w1].
Qed.
End Footprint.

Ltac issues_step exec :=
  lazymatch goal with
  | |- issues _ _ _ (await _ ?r ≫= _) =>
      apply (issues_bind_await exec _ r); [|intros ?]
  | |- issues _ _ _ (gets _ ≫= _) =>
      apply issues_bind_quiet; [apply quiet_gets|intros ?]
  | |- issues _ _ _ (prop _ _ ≫= _) =>
      apply issues_bind_quiet; [apply quiet_prop|intros ?]
  | |- issues _ _ _ (prop_id _ ≫= _) =>
      apply issues_bind_quiet; [apply quiet_prop_id|intros ?]
  | |- issues _ _ _ (generateAnonymousId _ ≫= _) =>
      apply issues_bind_quiet; [apply quiet_generateAnonymousId|intros ?]
  | |- issues _ _ _ (set_currentSession _ ≫= _) =>
      apply issues_bind_quiet; [by intros ?|intros ?]
  | |- issues _ _ _ (set_currentAttempt _ _ ≫= _) =>
      apply issues_bind_quiet; [by intros ?|intros ?]
  | |- issues _ _ _ ((if ?x then _ else _) ≫= _) => destruct x
  | |- issues _ _ _ (mret _ ≫= _) =>
      apply issues_bind_quiet; [apply quiet_ret|intros ?]
  | |- issues _ _ _ (try_catch _ _) => apply issues_try_catch
  | |- issues _ _ _ (mret _) => apply quiet_issues, quiet_ret
  | |- issues _ _ _ (match ?x with _ => _ end) => destruct x
  end.

Ltac issues_run exec := repeat issues_step exec; try (cbn; auto 10; fail).

Section CallFootprint.
Context {St : Type}.
Variable exec : forall r : Req, St -> outcome (Resp r) * St.

(** The requests of a call, and the store after them. *)
Lemma invoke_issues env (c : Call) :
  issues exec (may_issue c) (max_requests c) (invoke exec env c).
Proof.
  destruct c as [|qfile qname qprefix seed|qprefix sc ms ic
                 |qprefix n v t fin vr| |e]; unfold invoke;
    cbn [max_requests].
  - apply issues_then_ret. unfold initializeDatabaseSession.
    issues_run exec.
  - apply issues_then_ret. unfold createQuestionAttempt. issues_run exec.
  - apply issues_then_ret. unfold updateQuestionAttempt. issues_run exec.
  - apply issues_then_ret. unfold trackInput, trackConsolidatedInput.
    issues_run exec.
  - apply (issues_then_ret exec _ _ _ (fun _ => Undefined)).
    unfold endDatabaseSession. issues_run exec.
  - apply quiet_issues. intros w'. unfold mbind, Js_bind, sync.
    by destruct (getInputDetails e).
Qed.

(** X6. Whatever the store does, a call of the bundle sends only requests of
    its own kind, and a bounded number of them: [initializeDatabaseSession]
    at most two inserts of sessions; [createQuestionAttempt] at most one
    insert of an attempt, for its file and prefix; [updateQuestionAttempt]
    at most one update of an attempt, with its scores; [trackInput] at most
    three requests, of which the lookup of the final record and the write,
    an update or an insert of a final record with its name, value and type,
    occur for a final answer only; [endDatabaseSession] at most one update
    of the session's end; [getInputDetails] none.  In particular no call
    inserts a record that is not a final answer. *)
Theorem calls_issue_only :
  forall env (c : Call) (w : World St),
    exists new,
      issued (snd (invoke exec env c w)) = issued w ++ new
      /\ Forall (may_issue c) new
      /\ (length new <= max_requests c)%nat.
Proof.
  intros env c w.
  destruct (invoke_issues env c w) as (new & Hnew & HP & Hlen & _).
  by exists new.
Qed.
End CallFootprint.

(** ** Sessions and the anonymous identity *)

Section Sessions.
Context {St : Type}.
Variable exec : forall r : Req, St -> outcome (Resp r) * St.

Lemma generateAnonymousId_stored env (w : World St) (s : string) :
  localStorage w !! "anonymousUserId" = Some s -> s <> "" ->
  generateAnonymousId env w = (Normal s, w).
Proof.
  intros Hs Hne. unfold generateAnonymousId. js_run. rewrite Hs.
  destruct (String.eqb_spec s ""); [done | reflexivity].
Qed.

Lemma generateAnonymousId_stores env (w : World St) token w0 :
  generateAnonymousId env w = (Normal token, w0) ->
  localStorage w0 !! "anonymousUserId" = Some token /\ token <> "".
Proof.
  unfold generateAnonymousId. js_run.
  destruct (localStorage w !! "anonymousUserId") as [s|] eqn:Hs;
    [destruct (String.eqb_spec s "")|]; intros [= <- <-];
    cbn [localStorage]; rewrite ?lookup_insert_eq; by split.
Qed.

(** The requests of a call on a configured page, and its result when the
    first insert brings a row back. *)
Lemma initialize_requests env (w : World St) st token w0 :
  supabase w = Some st ->
  generateAnonymousId env w = (Normal token, w0) ->
  let run := initializeDatabaseSession exec env w in
  let first := fst (exec (InsertSession (insertPayload env token)) st) in
  issued (snd run)
    = issued w ++ InsertSession (insertPayload env token)
        :: (if retries first then [InsertSession (fallbackPayload env)]
            else [])
  /\ localStorage (snd run) = localStorage w0
  /\ (forall s, first = Resolved (Some s) None ->
        fst run = Normal (Some s) /\ currentSession (snd run) = Some s).
Proof.
  intros Hsb Hgen run first. subst run first.
  destruct (generateAnonymousId_frame env w)
    as (token' & w0' & Hgen' & Hsb0 & _ & _ & His0).
  rewrite Hgen in Hgen'. injection Hgen' as <- <-. rewrite Hsb in Hsb0.
  unfold initializeDatabaseSession. js_run. rewrite Hsb, Hgen.
  rewrite (await_run exec _ w0 st Hsb0).
  set (r1 := InsertSession (insertPayload env token)).
  destruct (exec r1 st) as [[d1 e1|x1] st1]; cbn [fst snd retries];
    [|cbn [issued after_request]; rewrite His0;
      split; [reflexivity|]; split; [reflexivity|]; intros ? [=]].
  destruct (missing_anonymous_id e1) eqn:Hmiss.
  - rewrite (await_run exec _ (after_request r1 st1 w0) st1 eq_refl).
    set (r2 := InsertSession (fallbackPayload env)).
    assert (His : forall st2 : St,
      issued (after_request r2 st2 (after_request r1 st1 w0))
      = issued w ++ [r1; r2]).
    { intros st2. cbn [issued after_request]. by rewrite His0, <- app_assoc. }
    split; [|split].
    + destruct (exec r2 st1) as [[d2 [e2|]|x2] st2]; cbn [fst snd];
        try apply His. destruct d2; cbn [snd issued]; apply His.
    + by destruct (exec r2 st1) as [[[s2|] [e2|]|x2] st2].
    + intros ? [= -> ->]. discriminate Hmiss.
  - split; [|split].
    + destruct e1 as [e1|]; [|destruct d1]; cbn [fst snd issued after_request];
        by rewrite His0.
    + by destruct e1 as [e1|]; [|destruct d1].
    + by intros ? [= -> ->].
Qed.

(** X7. On a configured page [initializeDatabaseSession] first sends the
    insert that carries the anonymous identity, and sends the insert without
    it exactly when the first one came back with error code [42703] or a
    message that matches [/anonymous_id/i]; these are all its requests.
    When the first insert brings a row back without error, that row is
    returned and cached in [currentSession].  In every case the identity
    sent is the one left in the client storage. *)
Theorem initialize_retries_on_missing_column_only :
  forall env (w : World St) st,
    supabase w = Some st ->
    exists token,
      let run := initializeDatabaseSession exec env w in
      let first := fst (exec (InsertSession (insertPayload env token)) st) in
      issued (snd run)
        = issued w ++ InsertSession (insertPayload env token)
            :: (if retries first then [InsertSession (fallbackPayload env)]
                else [])
      /\ localStorage (snd run) !! "anonymousUserId" = Some token
      /\ (forall s, first = Resolved (Some s) None ->
            fst run = Normal (Some s) /\ currentSession (snd run) = Some s).
Proof.
  intros env w st Hsb.
  destruct (generateAnonymousId_frame env w) as (token & w0 & Hgen & _).
  exists token. cbv zeta.
  destruct (initialize_requests env w st token w0 Hsb Hgen)
    as (His & Hls & Hok).
  split; [exact His|]. split; [|exact Hok].
  rewrite Hls. by apply (generateAnonymousId_stores env w).
Qed.
End Sessions.

Lemma initialize_retries_on_missing_column_only_witness :
  exists token,
    issued (snd (initializeDatabaseSession ref_exec env0 w_loaded))
    = [InsertSession (insertPayload env0 token)].
Proof.
  destruct (initialize_retries_on_missing_column_only ref_exec env0 w_loaded
              empty_store eq_refl) as (token & His & _).
  exists token. exact His.
Defined.

(** X8. The anonymous identity is stable across visits: when a page has run
    [initializeDatabaseSession] and a later page of the same browser profile,
    on any store and at any time, runs it again, the first request of each
    is the insert of a session with the same anonymous identity. *)
Theorem anonymous_identity_across_visits :
  forall St St' (exec : forall r : Req, St -> outcome (Resp r) * St)
         (exec' : forall r : Req, St' -> outcome (Resp r) * St')
         env env' (w : World St) st st',
    supabase w = Some st ->
    let w1 := snd (initializeDatabaseSession exec env w) in
    let w2 := snd (initializeDatabaseSession exec' env'
                     (next_visit (Some st') w1)) in
    exists token,
      first_request (drop (length (issued w)) (issued w1))
        = Some (InsertSession (insertPayload env token))
      /\ first_request (issued w2)
         = Some (InsertSession (insertPayload env' token)).
Proof.
  intros St St' exec exec' env env' w st st' Hsb w1 w2.
  destruct (generateAnonymousId_frame env w) as (token & w0 & Hgen & _).
  destruct (initialize_requests exec env w st token w0 Hsb Hgen)
    as (His & Hls & _). fold w1 in His, Hls.
  destruct (generateAnonymousId_stores env w token w0 Hgen) as [Hst Hne].
  exists token. split.
  - rewrite His, drop_app_length. reflexivity.
  - assert (Hgen2 : generateAnonymousId env' (next_visit (Some st') w1)
                    = (Normal token, next_visit (Some st') w1)).
    { apply generateAnonymousId_stored; [|exact Hne].
      unfold next_visit. cbn [localStorage fresh_world]. by rewrite Hls. }
    destruct (initialize_requests exec' env' (next_visit (Some st') w1) st'
                token _ eq_refl Hgen2) as (His2 & _).
    fold w2 in His2. rewrite His2. reflexivity.
Qed.

Lemma anonymous_identity_across_visits_witness :
  exists token,
    first_request
      (issued (snd (initializeDatabaseSession legacy_exec env1
                      (next_visit (Some empty_store)
                         (snd (initializeDatabaseSession ref_exec env0
                                 w_loaded))))))
    = Some (InsertSession (insertPayload env1 token)).
Proof.
  destruct (anonymous_identity_across_visits RefStore RefStore ref_exec
              legacy_exec env0 env1 w_loaded empty_store empty_store eq_refl)
    as (token & _ & H2).
  exists token. exact H2.
Defined.

(** ** The requests of a final answer *)

Section FinalRequests.
Context {St : Type}.
Variable exec : forall r : Req, St -> outcome (Resp r) * St.


End FinalRequests.



(** ** Final answers, row by row *)

(** Under a primary key, an update by identifier of a row that a filter
    rejects before and after leaves what the filter keeps as it was. *)
Lemma filter_update_where_out {A} (key : A -> Id) (f : A -> A)
    (Q : A -> bool) (rows : list A) (r : A) :
  NoDup (List.map key rows) -> In r rows ->
  Q r = false -> Q (f r) = false ->
  List.filter Q (update_where key (key r) f rows) = List.filter Q rows.
Proof.
  intros Hnd Hin Hr Hfr. unfold update_where.
  assert (Hsame : forall x, In x rows -> key x = key r -> x = r).
  { intros x Hx Hk.
    pose proof (where_id_unique key rows r Hnd Hin) as H1.
    assert (Hx' : In x (where_id key (key r) rows)).
    { unfold where_id. apply List.filter_In. split; [exact Hx|].
      by apply N.eqb_eq. }
    rewrite H1 in Hx'. by destruct Hx' as [<-|[]]. }
  clear Hnd Hin. induction rows as [|x rows IH]; [reflexivity|].
  cbn [List.map List.filter].
  rewrite IH by (intros y Hy; apply Hsame; by right).
  destruct (N.eqb_spec (key x) (key r)) as [E|E]; [|reflexivity].
  rewrite (Hsame x (or_introl eq_refl) E), Hr, Hfr. reflexivity.
Qed.

(** What one final-answer call does to the reference store: it inserts the
    record when the attempt and input name have no final row, and otherwise
    updates the one they have, by its identifier. *)
Lemma trackInput_final_effect env qprefix inputName inputValue inputType
    validationResult a sess (w : World RefStore) (st : RefStore) :
  ready_for_final qprefix inputName a sess w st ->
  let run := trackInput ref_exec env qprefix inputName inputValue inputType
               true validationResult w in
  exists st' row,
    supabase (snd run) = Some st'
    /\ fst run = Normal (Some row)
    /\ learning_sessions st' = learning_sessions st
    /\ question_attempts st' = question_attempts st
    /\ match final_rows (Attempt.id a) inputName st with
       | [] =>
           row = created_final st (Attempt.id a)
                   (finalInput sess a inputName inputValue inputType
                      validationResult)
           /\ input_tracking st' = input_tracking st ++ [row]
       | r :: _ =>
           In r (input_tracking st)
           /\ row = apply_input_update
                      (inputUpdate env inputValue validationResult) r
           /\ input_tracking st'
              = update_where InputRecord.id (InputRecord.id r)
                  (apply_input_update
                     (inputUpdate env inputValue validationResult))
                  (input_tracking st)
       end.
Proof.
  intros (Hsb & Hcs & Hca & [Hka Hki] & Hin & Hone). cbv zeta.
  unfold trackInput.
  pose proof (cached_row w qprefix a Hca) as Hent.
  repeat (progress (js_run; rewrite ?Hsb, ?Hcs, ?Hent;
                    cbn [truthy negb prop_id])).
  rewrite (await_run ref_exec (SelectAttemptId (Some (Attempt.id a))) w st Hsb).
  destruct (where_id_found Attempt.id (question_attempts st) (Attempt.id a)
              Hka Hin) as (a' & Ha' & Hida').
  cbn [ref_exec]. rewrite Ha'. cbn [fst snd].
  unfold trackConsolidatedInput. js_run.
  set (w1 := after_request (SelectAttemptId (Some (Attempt.id a))) st w).
  rewrite (await_run ref_exec (SelectFinalInputId (Some (Attempt.id a)) inputName)
             w1 st eq_refl).
  cbn [ref_exec].
  destruct (final_rows (Attempt.id a) inputName st) as [|r [|r' rest]] eqn:Hf;
    [| |cbn [length] in Hone; lia]; cbn [fst snd].
  - set (w2 := after_request (SelectFinalInputId (Some (Attempt.id a)) inputName)
                 st w1).
    change (currentSession w2) with (currentSession w). rewrite Hcs.
    cbv beta iota.
    match goal with
    | |- context [await ref_exec ?r w2] =>
        rewrite (await_run ref_exec r w2 st eq_refl)
    end.
    cbn [ref_exec fst snd NewInput.attempt_id]. eexists _, _. by repeat split.
  - set (w2 := after_request (SelectFinalInputId (Some (Attempt.id a)) inputName)
                 st w1).
    match goal with
    | |- context [await ref_exec ?r w2] =>
        rewrite (await_run ref_exec r w2 st eq_refl)
    end.
    assert (Hr : In r (input_tracking st)).
    { apply (final_rows_in (Attempt.id a) inputName). rewrite Hf. by left. }
    cbn [ref_exec].
    rewrite (where_id_unique InputRecord.id (input_tracking st) r Hki Hr).
    cbn [fst snd]. eexists _, _. by repeat split.
Qed.

(** X11. On the reference store, a final-answer call of a page that is ready
    (session, cached attempt in the store, identifiers unique, at most one
    final row for the pair) leaves every other row as it was: the tables of
    sessions and attempts are unchanged, and so are all rows of
    [input_tracking] that are not final rows of that attempt and input
    name. *)
Theorem trackInput_final_touches_own_rows_only :
  forall env qprefix inputName inputValue inputType validationResult a sess
         (w : World RefStore) (st : RefStore),
    ready_for_final qprefix inputName a sess w st ->
    let run := trackInput ref_exec env qprefix inputName inputValue inputType
                 true validationResult w in
    exists st',
      supabase (snd run) = Some st'
      /\ learning_sessions st' = learning_sessions st
      /\ question_attempts st' = question_attempts st
      /\ other_rows (Attempt.id a) inputName st'
         = other_rows (Attempt.id a) inputName st.
Proof.
  intros env qprefix n v t vr a sess w st Hready run.
  pose proof Hready as (_ & _ & _ & [_ Hki] & _ & _).
  destruct (trackInput_final_effect env qprefix n v t vr a sess w st Hready)
    as (st' & row & Hsb' & _ & Hls & Hqa & Heff).
  exists st'. split; [exact Hsb'|]. split; [exact Hls|]. split; [exact Hqa|].
  unfold other_rows.
  destruct (final_rows (Attempt.id a) n st) as [|r rest] eqn:Hf.
  - destruct Heff as [-> ->]. rewrite List.filter_app. cbn [List.filter].
    unfold is_final_for at 2. cbn.
    rewrite N.eqb_refl, String.eqb_refl. cbn. by rewrite app_nil_r.
  - destruct Heff as (Hr & _ & ->).
    assert (Hfin : is_final_for (Attempt.id a) n r = true).
    { assert (Hin : In r (final_rows (Attempt.id a) n st))
        by (rewrite Hf; by left).
      by apply List.filter_In in Hin as [_ Hin]. }
    apply filter_update_where_out; [exact Hki | exact Hr | |].
    + by rewrite Hfin.
    + by rewrite is_final_for_update, Hfin.
Qed.

(** X12. On the reference store, the second of two final-answer calls for
    the same prefix and input name updates the record of the first in
    place: it returns a row with the same identifier, attempt, session and
    input type as the row the first call returned, whatever input type the
    second call was given, with the value, validation result and time of the
    second call, and the table has not grown. *)
Theorem final_answer_updated_in_place :
  forall env env' qprefix inputName value value' type type' validation
         validation' a sess (w : World RefStore) (st : RefStore),
    ready_for_final qprefix inputName a sess w st ->
    let run1 := trackInput ref_exec env qprefix inputName value type true
                  validation w in
    let run2 := trackInput ref_exec env' qprefix inputName value' type' true
                  validation' (snd run1) in
    exists row1 row2 st1 st2,
      fst run1 = Normal (Some row1) /\ fst run2 = Normal (Some row2)
      /\ supabase (snd run1) = Some st1 /\ supabase (snd run2) = Some st2
      /\ InputRecord.id row2 = InputRecord.id row1
      /\ InputRecord.attempt_id row2 = InputRecord.attempt_id row1
      /\ InputRecord.session_id row2 = InputRecord.session_id row1
      /\ InputRecord.input_type row2 = InputRecord.input_type row1
      /\ InputRecord.input_value row2 = value'
      /\ InputRecord.validation_result row2 = validation'
      /\ InputRecord.timestamp row2 = Some (iso_now env')
      /\ length (input_tracking st2) = length (input_tracking st1).
Proof.
  intros env env' qprefix n v v' t t' vr vr' a sess w st Hready run1 run2.
  pose proof Hready as (_ & Hcs & Hca & _ & Hin & _).
  destruct (trackInput_final_step env qprefix n v t vr a sess w st Hready)
    as (st1 & row1 & Hsb1 & Hcs1 & Hca1 & Hres1 & Hwf1 & Hatt1 & Hrows1 & _).
  fold run1 in Hsb1, Hcs1, Hca1, Hres1.
  assert (Hready1 : ready_for_final qprefix n a sess (snd run1) st1).
  { split; [exact Hsb1|]. split; [by rewrite Hcs1|].
    split; [unfold cached, entry in *; by rewrite Hca1|].
    split; [exact Hwf1|]. split; [by rewrite Hatt1|].
    rewrite Hrows1. cbn. lia. }
  destruct (trackInput_final_effect env' qprefix n v' t' vr' a sess (snd run1)
              st1 Hready1) as (st2 & row2 & Hsb2 & Hres2 & _ & _ & Heff).
  fold run2 in Hsb2, Hres2. rewrite Hrows1 in Heff.
  destruct Heff as (_ & -> & Hit).
  exists row1, (apply_input_update (inputUpdate env' v' vr') row1), st1, st2.
  repeat (split; [done|]).
  rewrite Hit. unfold update_where. by rewrite length_map.
Qed.

Lemma w_ready_is_ready :
  ready_for_final "q1_" "ans1" attempt1 session1 w_ready store_ready.
Proof.
  repeat split; try reflexivity; cbn.
  - apply NoDup_singleton.
  - apply NoDup_nil_2.
  - by left.
  - lia.
Qed.

Lemma trackInput_final_touches_own_rows_only_witness :
  exists st',
    supabase (snd (trackInput ref_exec env1 "q1_" "ans1" "x+1" "text" true
                     None w_ready)) = Some st'
    /\ question_attempts st' = question_attempts store_ready.
Proof.
  destruct (trackInput_final_touches_own_rows_only env1 "q1_" "ans1" "x+1"
              "text" None attempt1 session1 w_ready store_ready
              w_ready_is_ready) as (st' & Hsb & _ & Hqa & _).
  by exists st'.
Defined.

Lemma final_answer_updated_in_place_witness :
  exists row1 row2,
    fst (trackInput ref_exec env0 "q1_" "ans1" "x+1" "text" true None w_ready)
      = Normal (Some row1)
    /\ InputRecord.id row2 = InputRecord.id row1
    /\ InputRecord.input_type row2 = InputRecord.input_type row1.
Proof.
  destruct (final_answer_updated_in_place env0 env1 "q1_" "ans1" "x+1" "x+2"
              "text" "radio" None None attempt1 session1 w_ready store_ready
              w_ready_is_ready)
    as (row1 & row2 & _ & _ & H1 & _ & _ & _ & Hid & _ & _ & Hty & _).
  by exists row1, row2.
Defined.

(** ** The invariant, over the life of a page *)

(** X13. On the reference store, whatever calls a page makes one after the
    other from its load on a consistent store, the store stays consistent
    (identifiers remain keys of [question_attempts] and [input_tracking], and
    no attempt and input name ever has two final rows) and every attempt
    cached for a prefix is a row of the store and comes with a session. *)
Theorem store_stays_consistent :
  forall (st0 : RefStore) (storage : gmap string string)
         (history : list (Env * Call)),
    store_inv st0 ->
    let w := snd (run_calls ref_exec history (fresh_world (Some st0) storage)) in
    exists st,
      supabase w = Some st
      /\ NoDup (List.map Attempt.id (question_attempts st))
      /\ NoDup (List.map InputRecord.id (input_tracking st))
      /\ (forall a n, (length (final_rows a n st) <= 1)%nat)
      /\ (forall p a, cached w p = Some a ->
            is_Some (currentSession w)
            /\ In (Attempt.id a) (List.map Attempt.id (question_attempts st))).
Proof.
  intros st0 storage history Hst0 w.
  destruct (run_calls_inv history (fresh_world (Some st0) storage)
              (fresh_world_inv st0 storage Hst0))
    as (st & Hsb & [[Hka Hki] Hone] & Hcache).
  by exists st.
Qed.

Lemma store_stays_consistent_witness :
  exists st,
    supabase (snd (run_calls ref_exec history_ready
                     (fresh_world (Some empty_store) ∅))) = Some st
    /\ forall a n, (length (final_rows a n st) <= 1)%nat.
Proof.
  destruct (store_stays_consistent empty_store ∅ history_ready
              empty_store_inv) as (st & Hsb & _ & _ & Hone & _).
  by exists st.
Defined.

(** ** What a call leaves alone on the page *)

Section CallFrames.
Context {St : Type}.
Variable exec : forall r : Req, St -> outcome (Resp r) * St.
Variable R : World St -> World St -> Prop.
Hypothesis R_refl : forall w, R w w.
Hypothesis R_trans : forall w1 w2 w3, R w1 w2 -> R w2 w3 -> R w1 w3.
Hypothesis R_request : forall r st' w, R w (after_request r st' w).

Ltac frames_go :=
  repeat lazymatch goal with
    | |- frames _ (_ ≫= _) => apply (frames_bind R R_trans); [|intros ?]
    | |- frames _ (try_catch _ _) =>
        apply (frames_try_catch R R_trans); [|intros ?]
    | |- frames _ (mret _) => apply (frames_ret R R_refl)
    | |- frames _ (gets _) => apply (frames_gets R R_refl)
    | |- frames _ (prop _ _) => apply (frames_prop R R_refl)
    | |- frames _ (prop_id _) => apply (frames_prop_id R R_refl)
    | |- frames _ (await _ ?r) => apply (frames_await exec R R_refl R_request r)
    | |- frames _ (set_currentAttempt _ _) => intros ?; auto
    | |- frames _ (match ?x with _ => _ end) => destruct x
    end.

Lemma frames_createQuestionAttempt qfile qname qprefix seed :
  (forall d w, R w (snd (set_currentAttempt qprefix d w))) ->
  frames R (createQuestionAttempt exec qfile qname qprefix seed).
Proof. intros Hset. unfold createQuestionAttempt. frames_go. Qed.

Lemma frames_updateQuestionAttempt env qprefix score maxScore isCorrect :
  (forall d w, R w (snd (set_currentAttempt qprefix d w))) ->
  frames R (updateQuestionAttempt exec env qprefix score maxScore isCorrect).
Proof. intros Hset. unfold updateQuestionAttempt. frames_go. Qed.

Lemma frames_then_ret {A B} (m : Js St A) (f : A -> B) :
  frames R m -> frames R (m ≫= fun a => mret (f a)).
Proof.
  intros Hm. apply (frames_bind R R_trans); [exact Hm|].
  intros a. apply (frames_ret R R_refl).
Qed.
End CallFrames.

Lemma same_entry_trans {St} (p : string) (w1 w2 w3 : World St) :
  same_entry p w1 w2 -> same_entry p w2 w3 -> same_entry p w1 w3.
Proof. unfold same_entry. congruence. Qed.

Lemma same_session_trans {St} (w1 w2 w3 : World St) :
  same_session w1 w2 -> same_session w2 w3 -> same_session w1 w3.
Proof. unfold same_session. intros [? ?] [? ?]. split; congruence. Qed.

Lemma same_entry_set {St} (p q : string) d (w : World St) :
  q <> p -> q <> "__proto__" ->
  same_entry p w (snd (set_currentAttempt q d w)).
Proof.
  intros Hne Hq. unfold same_entry, entry. cbn. by apply js_get_set_ne.
Qed.

Lemma same_own_trans {St} (p : string) (w1 w2 w3 : World St) :
  same_own p w1 w2 -> same_own p w2 w3 -> same_own p w1 w3.
Proof. unfold same_own. congruence. Qed.

Lemma same_own_set {St} (p q : string) d (w : World St) :
  q <> p -> same_own p w (snd (set_currentAttempt q d w)).
Proof. intros Hne. unfold same_own. cbn. by apply own_set_ne. Qed.

Section OwnState.
Context {St : Type}.
Variable exec : forall r : Req, St -> outcome (Resp r) * St.

(** What a relation that requests and the calls without a prefix respect
    needs to hold of a call: that the assignment of the call respects it. *)
Lemma invoke_frames (R : World St -> World St -> Prop) env (c : Call) :
  (forall w, R w w) ->
  (forall w1 w2 w3, R w1 w2 -> R w2 w3 -> R w1 w3) ->
  (forall r st' w, R w (after_request r st' w)) ->
  (forall key value w, R w (snd (localStorage_setItem key value w))) ->
  (forall data w, R w (snd (set_currentSession data w))) ->
  (forall q d w, call_prefix c = Some q ->
                 R w (snd (set_currentAttempt q d w))) ->
  frames R (invoke exec env c).
Proof.
  intros Hrefl Htrans Hreq Hstorage Hsession Hset.
  destruct c as [|qfile qname qprefix seed|qprefix sc ms ic
                 |qprefix n v t fin vr| |e]; unfold invoke.
  - apply (frames_then_ret _ Hrefl Htrans).
    by apply frames_initializeDatabaseSession.
  - apply (frames_then_ret _ Hrefl Htrans).
    apply (frames_createQuestionAttempt exec _ Hrefl Htrans Hreq).
    intros d w. by apply Hset.
  - apply (frames_then_ret _ Hrefl Htrans).
    apply (frames_updateQuestionAttempt exec _ Hrefl Htrans Hreq).
    intros d w. by apply Hset.
  - apply (frames_then_ret _ Hrefl Htrans). by apply frames_trackInput.
  - apply (frames_then_ret _ Hrefl Htrans (endDatabaseSession exec env)
             (fun _ => Undefined)).
    by apply frames_endDatabaseSession.
  - intros w. unfold mbind, Js_bind, sync. by destruct (getInputDetails e).
Qed.

Lemma invoke_same_entry env (c : Call) (p : string) :
  call_prefix c <> Some p -> call_prefix c <> Some "__proto__" ->
  frames (same_entry p) (invoke exec env c).
Proof.
  intros Hp Hproto. apply invoke_frames; try done.
  - apply same_entry_trans.
  - intros q d w Hq. apply same_entry_set; congruence.
Qed.

Lemma invoke_same_own env (c : Call) (p : string) :
  call_prefix c <> Some p -> frames (same_own p) (invoke exec env c).
Proof.
  intros Hp. apply invoke_frames; try done.
  - apply same_own_trans.
  - intros q d w Hq. apply same_own_set. congruence.
Qed.

Lemma invoke_same_attempts env (c : Call) :
  call_prefix c = None -> frames same_attempts (invoke exec env c).
Proof.
  intros Hc. apply invoke_frames; try done.
  - apply same_attempts_trans.
  - intros q d w Hq. congruence.
Qed.

Lemma invoke_same_session env (c : Call) :
  c <> CallInitializeDatabaseSession ->
  frames same_session (invoke exec env c).
Proof.
  intros Hc.
  pose proof (fun w : World St => conj eq_refl eq_refl : same_session w w)
    as Hrefl.
  pose proof (@same_session_trans St) as Htrans.
  pose proof (fun r st' (w : World St) =>
                conj eq_refl eq_refl
                : same_session w (after_request r st' w)) as Hreq.
  destruct c as [|qfile qname qprefix seed|qprefix sc ms ic
                 |qprefix n v t fin vr| |e]; unfold invoke; [done|..].
  - apply (frames_then_ret _ Hrefl Htrans).
    by apply (frames_createQuestionAttempt exec _ Hrefl Htrans Hreq).
  - apply (frames_then_ret _ Hrefl Htrans).
    by apply (frames_updateQuestionAttempt exec _ Hrefl Htrans Hreq).
  - apply (frames_then_ret _ Hrefl Htrans). by apply frames_trackInput.
  - apply (frames_then_ret _ Hrefl Htrans (endDatabaseSession exec env)
             (fun _ => Undefined)).
    by apply frames_endDatabaseSession.
  - intros w. unfold mbind, Js_bind, sync. by destruct (getInputDetails e).
Qed.

Lemma generateAnonymousId_other_keys env (w : World St) (key : string) :
  key <> "anonymousUserId" ->
  localStorage (snd (generateAnonymousId env w)) !! key = localStorage w !! key.
Proof.
  intros Hkey. unfold generateAnonymousId. js_run.
  destruct (localStorage w !! "anonymousUserId") as [s|];
    [destruct (String.eqb s "")|]; cbn [snd localStorage];
    by rewrite ?lookup_insert_ne.
Qed.

(** X14. Whatever the store does, a call of the bundle changes only its own
    part of the page.  The own property of [currentAttempts] for a prefix
    changes only in [createQuestionAttempt] and [updateQuestionAttempt] for
    that prefix, and what [currentAttempts[p]] gives changes only in those
    two calls for [p] itself or for the prefix [__proto__], an assignment to
    which replaces the prototype of the object; the other calls leave
    [currentAttempts] as it is, [initializeDatabaseSession] included, which
    keeps the attempts made under an earlier session.  [currentSession]
    changes only in [initializeDatabaseSession]; and the only key of the
    client storage ever written is [anonymousUserId]. *)
Theorem calls_change_own_state_only :
  forall env (c : Call) (w : World St),
    let w' := snd (invoke exec env c w) in
    (forall p, call_prefix c <> Some p ->
               own (currentAttempts w') !! p = own (currentAttempts w) !! p
               /\ (call_prefix c <> Some "__proto__" ->
                   entry w' p = entry w p))
    /\ (call_prefix c = None -> currentAttempts w' = currentAttempts w)
    /\ (c <> CallInitializeDatabaseSession ->
        currentSession w' = currentSession w
        /\ localStorage w' = localStorage w)
    /\ (forall key, key <> "anonymousUserId" ->
                    localStorage w' !! key = localStorage w !! key).
Proof.
  intros env c w w'. subst w'.
  split.
  { intros p Hp. split; [by apply invoke_same_own|].
    intros Hproto. by apply invoke_same_entry. }
  split; [intros Hc; by apply invoke_same_attempts|].
  split; [intros Hc; by apply invoke_same_session|].
  intros key Hkey.
  assert (Hdec : c = CallInitializeDatabaseSession
                 \/ c <> CallInitializeDatabaseSession)
    by (destruct c; (by left) || (by right)).
  destruct Hdec as [->|Hc].
  - unfold invoke, mbind, Js_bind.
    destruct (supabase w) as [st|] eqn:Hsb.
    + destruct (generateAnonymousId_frame env w) as (token & w0 & Hgen & _).
      destruct (initialize_requests exec env w st token w0 Hsb Hgen)
        as (_ & Hls & _).
      pose proof (generateAnonymousId_other_keys env w key Hkey) as Hk.
      rewrite Hgen in Hk. cbn [snd] in Hk. rewrite <- Hk, <- Hls.
      by destruct (initializeDatabaseSession exec env w) as [[r|x] w1].
    + unfold initializeDatabaseSession. js_run. by rewrite Hsb.
  - by destruct (invoke_same_session env c Hc w) as [_ ->].
Qed.
End OwnState.

Lemma calls_change_own_state_only_witness :
  entry (snd (invoke ref_exec env1
                (CallCreateQuestionAttempt "q2.xml" None "q2_" None) w_ready))
    "q1_"
  = entry w_ready "q1_".
Proof.
  apply (calls_change_own_state_only ref_exec env1
           (CallCreateQuestionAttempt "q2.xml" None "q2_" None) w_ready);
    discriminate.
Defined.

(** ** Attempts over the life of a page *)

Lemma count_from_snoc (k : Z) (n : nat) :
  count_from k n ++ [k + Z.of_nat n] = count_from k (S n).
Proof.
  unfold count_from. rewrite seq_S, List.map_app. reflexivity.
Qed.

Lemma attempt_numbers_for_app p l l' :
  attempt_numbers_for p (l ++ l')
  = attempt_numbers_for p l ++ attempt_numbers_for p l'.
Proof. unfold attempt_numbers_for. apply omap_app. Qed.

Lemma attempt_numbers_for_none p (new : list Req) :
  Forall (fun r => attempt_write r = false) new ->
  attempt_numbers_for p new = [].
Proof.
  induction 1 as [|r new Hr _ IH]; [reflexivity|].
  unfold attempt_numbers_for in *. cbn [omap list_omap].
  destruct r; try discriminate Hr; exact IH.
Qed.

Lemma attempt_numbers_for_other p (x : NewAttempt.t) :
  NewAttempt.question_prefix x <> p ->
  attempt_numbers_for p [InsertAttempt x] = [].
Proof.
  intros Hne. unfold attempt_numbers_for. cbn [omap list_omap].
  by destruct (String.eqb_spec (NewAttempt.question_prefix x) p).
Qed.

Lemma ref_exec_attempts_table (r : Req) (st : RefStore) :
  attempt_write r = false ->
  question_attempts (snd (ref_exec r st)) = question_attempts st.
Proof.
  destruct r as [p|p|f j|[j|]|[a|] n|f j|p|ts j]; try discriminate;
    intros _; cbn [ref_exec snd]; try reflexivity.
  - by destruct (where_id Attempt.id j (question_attempts st)) as [|x [|y l]].
  - by destruct (final_rows a n st) as [|x [|y l]].
  - by destruct (where_id InputRecord.id j (input_tracking st))
      as [|x [|y l]].
  - by destruct (NewInput.attempt_id p).
Qed.

Lemma replay_attempts_table (new : list Req) :
  Forall (fun r => attempt_write r = false) new ->
  forall st,
    question_attempts (replay ref_exec new st) = question_attempts st.
Proof.
  induction 1 as [|r new Hr _ IH]; intros st; [reflexivity|].
  cbn. unfold replay in IH. by rewrite IH, ref_exec_attempts_table.
Qed.

Lemma may_issue_no_attempt_write (c : Call) (r : Req) :
  call_prefix c = None -> may_issue c r -> attempt_write r = false.
Proof. by destruct c, r. Qed.

(** What [createQuestionAttempt] does on the reference store when the
    attempt number is a number. *)
Lemma create_on_ref qfile qname qprefix seed (w : World RefStore) st sess k :
  supabase w = Some st ->
  currentSession w = Some sess ->
  attemptNumber (entry w qprefix) = Num k ->
  let p := newAttempt sess qfile qname qprefix seed (entry w qprefix) in
  let row := created_attempt st k p in
  let run := createQuestionAttempt ref_exec qfile qname qprefix seed w in
  fst run = Normal (Some row)
  /\ issued (snd run) = issued w ++ [InsertAttempt p]
  /\ currentAttempts (snd run) = js_set (currentAttempts w) qprefix (Some row)
  /\ exists st', supabase (snd run) = Some st'
       /\ question_attempts st' = question_attempts st ++ [row].
Proof.
  intros Hsb Hcs Hk p row run. subst run row p.
  unfold createQuestionAttempt, newAttempt.
  repeat (progress (js_run; rewrite ?Hsb, ?Hcs)).
  match goal with
  | |- context [await ref_exec ?r w] => rewrite (await_run ref_exec r w st Hsb)
  end.
  cbn [ref_exec NewAttempt.attempt_number]. rewrite Hk.
  cbn [fst snd]. cbv beta iota. cbn [fst snd].
  repeat (split; [reflexivity|]). eexists. split; reflexivity.
Qed.

(** ... and when it is [NaN]: the insert is refused and nothing is
    cached. *)
Lemma create_on_ref_nan qfile qname qprefix seed (w : World RefStore) st
    sess :
  supabase w = Some st ->
  currentSession w = Some sess ->
  attemptNumber (entry w qprefix) = NaN ->
  createQuestionAttempt ref_exec qfile qname qprefix seed w
  = (Normal None,
     after_request
       (InsertAttempt (newAttempt sess qfile qname qprefix seed
                         (entry w qprefix))) st w).
Proof.
  intros Hsb Hcs Hk. unfold createQuestionAttempt, newAttempt.
  repeat (progress (js_run; rewrite ?Hsb, ?Hcs)).
  match goal with
  | |- context [await ref_exec ?r w] => rewrite (await_run ref_exec r w st Hsb)
  end.
  cbn [ref_exec NewAttempt.attempt_number]. rewrite Hk. reflexivity.
Qed.

(** What [updateQuestionAttempt] does on the reference store when the
    cached attempt is a row of the store. *)
Lemma update_on_ref env qprefix score maxScore isCorrect
    (w : World RefStore) st a :
  supabase w = Some st ->
  NoDup (List.map Attempt.id (question_attempts st)) ->
  cached w qprefix = Some a ->
  In a (question_attempts st) ->
  let f := attemptUpdate env score maxScore isCorrect in
  let row := apply_attempt_update f a in
  let run := updateQuestionAttempt ref_exec env qprefix score maxScore
               isCorrect w in
  fst run = Normal (Some row)
  /\ issued (snd run) = issued w ++ [UpdateAttempt f (Some (Attempt.id a))]
  /\ currentSession (snd run) = currentSession w
  /\ currentAttempts (snd run) = js_set (currentAttempts w) qprefix (Some row)
  /\ exists st', supabase (snd run) = Some st'
       /\ question_attempts st'
          = update_where Attempt.id (Attempt.id a) (apply_attempt_update f)
              (question_attempts st).
Proof.
  intros Hsb Hnd Hca Hin f row run. subst run row f.
  pose proof (cached_row w qprefix a Hca) as Hent.
  unfold updateQuestionAttempt, attemptUpdate.
  repeat (progress (js_run; rewrite ?Hsb, ?Hent; cbn [truthy negb])).
  match goal with
  | |- context [await ref_exec ?r w] => rewrite (await_run ref_exec r w st Hsb)
  end.
  cbn [ref_exec].
  rewrite (where_id_unique Attempt.id (question_attempts st) a Hnd Hin).
  cbn [fst snd]. cbv beta iota. cbn [fst snd].
  repeat (split; [reflexivity|]). eexists. split; reflexivity.
Qed.

(** ... and when [currentAttempts[qprefix]] is truthy without being a row:
    the update matches no row and nothing is cached. *)
Lemma update_on_ref_none env qprefix score maxScore isCorrect
    (w : World RefStore) st :
  supabase w = Some st ->
  truthy (entry w qprefix) = true ->
  cached w qprefix = None ->
  updateQuestionAttempt ref_exec env qprefix score maxScore isCorrect w
  = (Normal None,
     after_request
       (UpdateAttempt (attemptUpdate env score maxScore isCorrect) None) st w).
Proof.
  intros Hsb Htr Hca. unfold updateQuestionAttempt, attemptUpdate, cached in *.
  js_run. rewrite Hsb, Htr. cbn [negb].
  destruct (entry w qprefix); try discriminate;
    match goal with
    | |- context [await ref_exec ?r w] =>
        rewrite (await_run ref_exec r w st Hsb)
    end; reflexivity.
Qed.

Lemma update_where_in_other {A} (key : A -> Id) (i : Id) (f : A -> A)
    (rows : list A) (x : A) :
  In x rows -> key x <> i -> In x (update_where key i f rows).
Proof.
  intros Hin Hne. unfold update_where. apply in_map_iff. exists x.
  split; [|exact Hin]. by destruct (N.eqb_spec (key x) i).
Qed.

Lemma update_where_in_self {A} (key : A -> Id) (f : A -> A)
    (rows : list A) (x : A) :
  In x rows -> In (f x) (update_where key (key x) f rows).
Proof.
  intros Hin. unfold update_where. apply in_map_iff. exists x.
  split; [|exact Hin]. by rewrite N.eqb_refl.
Qed.

Lemma NoDup_key_inj {A} (key : A -> Id) (rows : list A) (x y : A) :
  NoDup (List.map key rows) -> In x rows -> In y rows -> key x = key y ->
  x = y.
Proof.
  induction rows as [|r rows IH]; cbn [List.map]; [done|].
  intros Hnd [->|Hx] [->|Hy] Hk; inversion Hnd as [|? ? Hnotin Hnd']; subst.
  - reflexivity.
  - exfalso. apply Hnotin. apply list_elem_of_In. rewrite Hk.
    by apply in_map.
  - exfalso. apply Hnotin. apply list_elem_of_In. rewrite <- Hk.
    by apply in_map.
  - by apply IH.
Qed.

(** *** The cache and the store stay in step *)

Lemma entry_proto (w : World RefStore) :
  page_sync w -> entry w "__proto__" = JBuiltin.
Proof. intros (st & _ & Hproto & Hown & _). by apply js_get_proto. Qed.

(** A call for the prefix [__proto__] sends no number and finds no row. *)
Lemma attemptNumber_proto (w : World RefStore) (qprefix : string) (k : Z) :
  page_sync w -> attemptNumber (entry w qprefix) = Num k ->
  qprefix <> "__proto__".
Proof.
  intros Hinv Hk ->. rewrite (entry_proto w Hinv) in Hk. discriminate Hk.
Qed.

Lemma cached_proto (w : World RefStore) (qprefix : string) (a : Attempt.t) :
  page_sync w -> cached w qprefix = Some a -> qprefix <> "__proto__".
Proof.
  intros Hinv Hca ->. unfold cached in Hca.
  rewrite (entry_proto w Hinv) in Hca. discriminate Hca.
Qed.

Lemma page_sync_request (r : Req) (w : World RefStore) (st : RefStore) :
  supabase w = Some st -> page_sync w -> page_sync (after_request r st w).
Proof.
  intros Hsb (st0 & Hsb0 & Hrest). rewrite Hsb in Hsb0. injection Hsb0 as <-.
  by exists st.
Qed.

Lemma create_page_sync qfile qname qprefix seed (w : World RefStore) :
  page_sync w ->
  page_sync (snd (createQuestionAttempt ref_exec qfile qname qprefix seed w)).
Proof.
  intros Hinv. pose proof Hinv as (st & Hsb & Hproto & Hown & Hnd & Hcache).
  destruct (currentSession w) as [sess|] eqn:Hcs.
  2: { unfold createQuestionAttempt. js_run. rewrite Hsb, Hcs. exact Hinv. }
  destruct (attemptNumber (entry w qprefix)) as [|k] eqn:Hk.
  { rewrite (create_on_ref_nan qfile qname qprefix seed w st sess Hsb Hcs Hk).
    by apply page_sync_request. }
  pose proof (attemptNumber_proto w qprefix k Hinv Hk) as Hq.
  destruct (create_on_ref qfile qname qprefix seed w st sess k Hsb Hcs Hk)
    as (_ & _ & Hca & st' & Hsb' & Htab).
  exists st'. split; [exact Hsb'|]. rewrite Hca.
  split; [by rewrite prototype_set|]. split; [by rewrite own_set_ne|].
  split.
  - rewrite Htab, List.map_app. cbn [List.map]. by apply NoDup_snoc_fresh.
  - intros p a. unfold cached, entry. rewrite Hca. intros Hc.
    apply cached_set in Hc as [[-> [= <-]] | [Hne Hc]].
    + rewrite Htab. split; [|reflexivity]. apply in_or_app. right. by left.
    + destruct (Hcache p a Hc) as [Hin Hpre]. split; [|exact Hpre].
      rewrite Htab. apply in_or_app. by left.
Qed.

Lemma update_page_sync env qprefix score maxScore isCorrect
    (w : World RefStore) :
  page_sync w ->
  page_sync (snd (updateQuestionAttempt ref_exec env qprefix score maxScore
                    isCorrect w)).
Proof.
  intros Hinv. pose proof Hinv as (st & Hsb & Hproto & Hown & Hnd & Hcache).
  destruct (truthy (entry w qprefix)) eqn:Htr.
  2: { by rewrite updateQuestionAttempt_falsy_entry. }
  destruct (cached w qprefix) as [a|] eqn:Hq.
  2: { rewrite (update_on_ref_none env qprefix score maxScore isCorrect w st
                  Hsb Htr Hq). by apply page_sync_request. }
  pose proof (cached_proto w qprefix a Hinv Hq) as Hne.
  destruct (Hcache qprefix a Hq) as [Hin Hpre].
  destruct (update_on_ref env qprefix score maxScore isCorrect w st a
              Hsb Hnd Hq Hin) as (_ & _ & _ & Hca & st' & Hsb' & Htab).
  exists st'. split; [exact Hsb'|]. rewrite Hca.
  split; [by rewrite prototype_set|]. split; [by rewrite own_set_ne|].
  split.
  - rewrite Htab, update_where_keys; [exact Hnd | done].
  - intros p b. unfold cached, entry. rewrite Hca. intros Hc.
    apply cached_set in Hc as [[-> [= <-]] | [Hnp Hc]].
    + rewrite Htab. split; [|exact Hpre]. by apply update_where_in_self.
    + destruct (Hcache p b Hc) as [Hinb Hpreb]. split; [|exact Hpreb].
      rewrite Htab. apply update_where_in_other; [exact Hinb|].
      intros Hk. apply Hnp. rewrite <- Hpre, <- Hpreb. f_equal.
      by apply (NoDup_key_inj Attempt.id (question_attempts st)).
Qed.

Lemma invoke_snd {St A B} (m : Js St A) (f : A -> B) (w : World St) :
  snd ((m ≫= fun a => mret (f a)) w) = snd (m w).
Proof. unfold mbind, Js_bind. by destruct (m w) as [[a|e] w']. Qed.

Lemma invoke_page_sync env (c : Call) (w : World RefStore) :
  page_sync w -> page_sync (snd (invoke ref_exec env c w)).
Proof.
  intros Hinv.
  destruct (call_prefix c) as [q|] eqn:Hc.
  - destruct c as [|qfile qname qprefix seed|qprefix sc ms ic
                   |qprefix n v t fin vr| |e]; try discriminate Hc;
      unfold invoke; rewrite invoke_snd.
    + by apply create_page_sync.
    + by apply update_page_sync.
  - destruct (invoke_issues ref_exec env c w) as (new & Hi & Hnew & _ & Hsb).
    assert (Hquiet : Forall (fun r => attempt_write r = false) new).
    { eapply Forall_impl; [exact Hnew|].
      intros r. by apply may_issue_no_attempt_write. }
    pose proof (invoke_same_attempts ref_exec env c Hc w) as Hsame.
    destruct Hinv as (st & Hst & Hproto & Hown & Hnd & Hcache).
    exists (replay ref_exec new st). rewrite Hsb, Hst.
    split; [reflexivity|]. unfold same_attempts in Hsame. rewrite Hsame.
    split; [exact Hproto|]. split; [exact Hown|].
    rewrite (replay_attempts_table new Hquiet st).
    split; [exact Hnd|]. intros p a.
    rewrite (same_attempts_cached w _ p Hsame). apply Hcache.
Qed.

Lemma run_calls_page_sync (history : list (Env * Call)) (w : World RefStore) :
  page_sync w -> page_sync (snd (run_calls ref_exec history w)).
Proof.
  revert w. induction history as [|[env c] history IH]; intros w Hinv;
    [exact Hinv|].
  cbn [run_calls]. pose proof (invoke_page_sync env c w Hinv) as H1.
  destruct (invoke ref_exec env c w) as [r w1]. cbn [snd] in H1.
  specialize (IH w1 H1).
  by destruct (run_calls ref_exec history w1) as [rs w2].
Qed.

Lemma fresh_world_page_sync (st : RefStore) (storage : gmap string string) :
  NoDup (List.map Attempt.id (question_attempts st)) ->
  page_sync (fresh_world (Some st) storage).
Proof.
  intros Hnd. exists st. repeat (split; [done|]).
  intros p a Hc. unfold cached, entry in Hc.
  apply js_get_inherited_row in Hc as [_ Hc]; [discriminate Hc|].
  apply lookup_empty.
Qed.

(** *** Counting *)

(** A call that sends no number for [p] and leaves the next number for [p]
    as it is keeps the count. *)
Lemma counted_same n p (w w' : World RefStore) new :
  issued w' = issued w ++ new ->
  attempt_numbers_for p new = [] ->
  attemptNumber (entry w' p) = attemptNumber (entry w p) ->
  counted n p w -> counted (S n) p w'.
Proof.
  intros Hi Hnew Hc. unfold counted. cbv zeta.
  rewrite Hi, attempt_numbers_for_app, Hnew, app_nil_r, Hc.
  intros (? & ? & ?). repeat split; [done | done | lia].
Qed.

Lemma counted_mono n p (w : World RefStore) :
  counted n p w -> counted (S n) p w.
Proof. intros (? & ? & ?). repeat split; [done | done | lia]. Qed.

Lemma create_without_session qfile qname qprefix seed (w : World RefStore) :
  currentSession w = None ->
  createQuestionAttempt ref_exec qfile qname qprefix seed w = (Normal None, w).
Proof.
  intros Hcs. unfold createQuestionAttempt. js_run. rewrite Hcs.
  by destruct (supabase w).
Qed.

Lemma create_counted qfile qname qprefix seed n p (w : World RefStore) :
  page_sync w -> Z.of_nat n < 2 ^ 53 ->
  counted n p w ->
  counted (S n) p
    (snd (createQuestionAttempt ref_exec qfile qname qprefix seed w)).
Proof.
  intros Hinv Hn Hcount.
  pose proof Hinv as (st & Hsb & Hproto & Hown & Hnd & Hcache).
  destruct (currentSession w) as [sess|] eqn:Hcs.
  2: { rewrite create_without_session by exact Hcs. by apply counted_mono. }
  destruct (attemptNumber (entry w qprefix)) as [|k] eqn:Hk.
  { rewrite (create_on_ref_nan qfile qname qprefix seed w st sess Hsb Hcs Hk).
    cbn [snd].
    eapply (counted_same n p w); [reflexivity | | reflexivity | exact Hcount].
    apply attempt_numbers_for_other. cbn [newAttempt NewAttempt.question_prefix].
    intros ->. destruct Hcount as (_ & Hnext & _). congruence. }
  pose proof (attemptNumber_proto w qprefix k Hinv Hk) as Hq.
  destruct (create_on_ref qfile qname qprefix seed w st sess k Hsb Hcs Hk)
    as (_ & Hi & Hca & _).
  destruct (decide (qprefix = p)) as [->|Hne].
  - destruct Hcount as (Hsent & Hnext & Hlen).
    set (sent := attempt_numbers_for p (issued w)) in *.
    assert (Hk' : k = 1 + Z.of_nat (length sent)).
    { rewrite Hk in Hnext. injection Hnext as ->.
      rewrite add_one_exact; lia. }
    assert (Hone : attempt_numbers_for p
                     [InsertAttempt (newAttempt sess qfile qname p seed
                                       (entry w p))] = [Num k]).
    { unfold attempt_numbers_for.
      cbn [omap list_omap newAttempt NewAttempt.question_prefix
           NewAttempt.attempt_number].
      by rewrite String.eqb_refl, Hk. }
    unfold counted. cbv zeta. rewrite Hi, attempt_numbers_for_app, Hone.
    fold sent. rewrite length_app. cbn [length]. rewrite Nat.add_1_r.
    split; [|split; [|lia]].
    + rewrite <- count_from_snoc, List.map_app, <- Hsent, Hk'. reflexivity.
    + unfold entry at 1. rewrite Hca.
      match goal with
      | |- context [js_set _ p (Some ?r)] =>
          pose proof (cached_set_eq (currentAttempts w) p (Some r)) as Hrow
      end.
      apply row_of_Some in Hrow. rewrite Hrow.
      cbn [attemptNumber truthy created_attempt Attempt.attempt_number].
      do 2 f_equal. lia.
  - eapply (counted_same n p w); [exact Hi | | | exact Hcount].
    + by apply attempt_numbers_for_other.
    + unfold entry. rewrite Hca. by rewrite js_get_set_ne.
Qed.

Lemma update_counted env qprefix score maxScore isCorrect n p
    (w : World RefStore) :
  page_sync w ->
  counted n p w ->
  counted (S n) p
    (snd (updateQuestionAttempt ref_exec env qprefix score maxScore
            isCorrect w)).
Proof.
  intros Hinv Hcount.
  pose proof Hinv as (st & Hsb & Hproto & Hown & Hnd & Hcache).
  destruct (truthy (entry w qprefix)) eqn:Htr.
  2: { rewrite updateQuestionAttempt_falsy_entry by exact Htr.
       by apply counted_mono. }
  destruct (cached w qprefix) as [a|] eqn:Hq.
  2: { rewrite (update_on_ref_none env qprefix score maxScore isCorrect w st
                  Hsb Htr Hq). cbn [snd].
       by eapply (counted_same n p w); [reflexivity | | reflexivity |]. }
  pose proof (cached_proto w qprefix a Hinv Hq) as Hne.
  destruct (Hcache qprefix a Hq) as [Hin Hpre].
  destruct (update_on_ref env qprefix score maxScore isCorrect w st a
              Hsb Hnd Hq Hin) as (_ & Hi & _ & Hca & _).
  eapply (counted_same n p w); [exact Hi | reflexivity | | exact Hcount].
  unfold entry. rewrite Hca.
  destruct (decide (qprefix = p)) as [->|Hnp].
  - pose proof (cached_set_eq (currentAttempts w) p
                  (Some (apply_attempt_update
                           (attemptUpdate env score maxScore isCorrect) a)))
      as Hrow.
    apply row_of_Some in Hrow. rewrite Hrow.
    pose proof (cached_row w p a Hq) as Hent. unfold entry in Hent.
    by rewrite Hent.
  - by rewrite js_get_set_ne.
Qed.

Lemma invoke_counted env (c : Call) n p (w : World RefStore) :
  page_sync w -> Z.of_nat n < 2 ^ 53 ->
  counted n p w -> counted (S n) p (snd (invoke ref_exec env c w)).
Proof.
  intros Hinv Hn Hcount.
  destruct (call_prefix c) as [q|] eqn:Hc.
  - destruct c as [|qfile qname qprefix seed|qprefix sc ms ic
                   |qprefix n' v t fin vr| |e]; try discriminate Hc;
      unfold invoke; rewrite invoke_snd.
    + by apply create_counted.
    + by apply update_counted.
  - destruct (invoke_issues ref_exec env c w) as (new & Hi & Hnew & _ & _).
    pose proof (invoke_same_attempts ref_exec env c Hc w) as Hsame.
    eapply (counted_same n p w); [exact Hi | | | exact Hcount].
    + apply attempt_numbers_for_none. eapply Forall_impl; [exact Hnew|].
      intros r. by apply may_issue_no_attempt_write.
    + unfold entry. unfold same_attempts in Hsame. by rewrite Hsame.
Qed.

Lemma run_calls_counted (history : list (Env * Call)) :
  forall n p (w : World RefStore),
    page_sync w ->
    Z.of_nat (n + length history) < 2 ^ 53 ->
    counted n p w ->
    counted (n + length history) p (snd (run_calls ref_exec history w)).
Proof.
  induction history as [|[env c] history IH]; intros n p w Hinv Hn Hcount.
  - cbn. by rewrite Nat.add_0_r.
  - cbn [run_calls length] in *.
    pose proof (invoke_page_sync env c w Hinv) as H1.
    pose proof (invoke_counted env c n p w Hinv ltac:(lia) Hcount) as H2.
    destruct (invoke ref_exec env c w) as [r w1]. cbn [snd] in H1, H2.
    specialize (IH (S n) p w1 H1 ltac:(lia) H2).
    destruct (run_calls ref_exec history w1) as [rs w2]. cbn [snd] in *.
    by rewrite Nat.add_succ_r.
Qed.

(** X15. On the reference store, whatever the page calls and in whatever
    order, as long as it makes fewer than 2^53 calls, the attempt numbers
    that it sends for one question prefix are 1, 2, 3, ... without gap or
    repetition: sessions, inputs, score updates and attempts of other
    questions do not disturb the count.  The prefix is any string that is
    not the name of a property of [Object.prototype], the store any store
    whose attempts have distinct identifiers when the page loads. *)
Theorem attempt_numbers_over_history :
  forall (st0 : RefStore) (storage : gmap string string)
         (history : list (Env * Call)) (p : string),
    NoDup (List.map Attempt.id (question_attempts st0)) ->
    plain p ->
    Z.of_nat (length history) < 2 ^ 53 ->
    let w := snd (run_calls ref_exec history (fresh_world (Some st0) storage)) in
    let sent := attempt_numbers_for p (issued w) in
    sent = List.map Num (count_from 1 (length sent)).
Proof.
  intros st0 storage history p Hnd Hp Hlen w sent.
  assert (H0 : counted 0 p (fresh_world (Some st0) storage)).
  { unfold counted. cbn [issued fresh_world]. repeat split; [|done].
    unfold entry. cbn [currentAttempts fresh_world].
    rewrite js_get_plain; [reflexivity | reflexivity | apply lookup_empty
                          | exact Hp]. }
  pose proof (run_calls_counted history 0 p _
                (fresh_world_page_sync st0 storage Hnd) Hlen H0)
    as (Hsent & _).
  exact Hsent.
Qed.

Lemma attempt_numbers_over_history_witness :
  attempt_numbers_for "q1_"
    (issued (snd (run_calls ref_exec history_retries
                    (fresh_world (Some empty_store) ∅))))
  = [Num 1; Num 2; Num 3].
Proof.
  rewrite (attempt_numbers_over_history empty_store ∅ history_retries "q1_").
  - vm_compute. reflexivity.
  - constructor.
  - intros H. apply list_elem_of_In in H. cbn in H.
    repeat (destruct H as [H|H]; [discriminate H|]). destruct H.
  - reflexivity.
Defined.

(** X16. On the reference store, after any history of calls, a score update
    for a prefix with a cached attempt succeeds: it returns that attempt with
    the time and the scores of the call set and everything else as it was,
    caches it, and in the store changes the row of that attempt and no
    other. *)
Theorem updateQuestionAttempt_on_reference_store :
  forall (st0 : RefStore) (storage : gmap string string)
         (history : list (Env * Call)) env qprefix score maxScore isCorrect a,
    NoDup (List.map Attempt.id (question_attempts st0)) ->
    let w := snd (run_calls ref_exec history (fresh_world (Some st0) storage)) in
    cached w qprefix = Some a ->
    let row := apply_attempt_update
                 (attemptUpdate env score maxScore isCorrect) a in
    let run := updateQuestionAttempt ref_exec env qprefix score maxScore
                 isCorrect w in
    fst run = Normal (Some row)
    /\ cached (snd run) qprefix = Some row
    /\ exists st st',
         supabase w = Some st /\ supabase (snd run) = Some st'
         /\ In a (question_attempts st)
         /\ question_attempts st'
            = update_where Attempt.id (Attempt.id a) (fun _ => row)
                (question_attempts st)
         /\ forall b, In b (question_attempts st) -> b <> a ->
              In b (question_attempts st').
Proof.
  intros st0 storage history env qprefix score maxScore isCorrect a Hnd0 w
    Hq row run.
  pose proof (run_calls_page_sync history _
                (fresh_world_page_sync st0 storage Hnd0))
    as (st & Hsb & _ & _ & Hnd & Hcache).
  fold w in Hsb, Hcache.
  destruct (Hcache qprefix a Hq) as [Hin _].
  pose proof (update_on_ref env qprefix score maxScore isCorrect w st a
                Hsb Hnd Hq Hin) as (Hres & _ & _ & Hca & st' & Hsb' & Htab).
  fold run in Hres, Hca, Hsb'.
  split; [exact Hres|]. split.
  { unfold cached, entry. rewrite Hca. apply cached_set_eq. }
  exists st, st'. repeat (split; [done|]).
  assert (Hother : forall b, In b (question_attempts st) ->
                     Attempt.id b = Attempt.id a -> b = a).
  { intros b Hb Hk.
    by apply (NoDup_key_inj Attempt.id (question_attempts st)). }
  split.
  - rewrite Htab. unfold update_where. apply map_ext_in. intros b Hb.
    destruct (N.eqb_spec (Attempt.id b) (Attempt.id a)) as [Hk|_]; [|done].
    by rewrite (Hother b Hb Hk).
  - intros b Hb Hne. rewrite Htab. apply update_where_in_other; [exact Hb|].
    intros Hk. by apply Hne, Hother.
Qed.

Lemma updateQuestionAttempt_on_reference_store_witness :
  exists row,
    fst (updateQuestionAttempt ref_exec env1 "q2_" "1" "1" true
           (snd (run_calls ref_exec history_retries
                   (fresh_world (Some empty_store) ∅))))
    = Normal (Some row)
    /\ Attempt.attempt_number row = 2
    /\ Attempt.score row = Some "1".
Proof.
  assert (Hnd : NoDup (List.map Attempt.id (question_attempts empty_store)))
    by constructor.
  destruct (cached (snd (run_calls ref_exec history_retries
                           (fresh_world (Some empty_store) ∅))) "q2_")
    as [a|] eqn:Hq; [|vm_compute in Hq; discriminate Hq].
  eexists. split.
  - exact (proj1 (updateQuestionAttempt_on_reference_store empty_store ∅
                    history_retries env1 "q2_" "1" "1" true a Hnd Hq)).
  - vm_compute in Hq. injection Hq as <-. split; reflexivity.
Defined.

(** ** Prefixes before their first attempt *)

Section BeforeCreate.
Context {St : Type}.
Variable exec : forall r : Req, St -> outcome (Resp r) * St.

Lemma invoke_same_prototype env (c : Call) :
  call_prefix c <> Some "__proto__" ->
  frames same_prototype (invoke exec env c).
Proof.
  intros Hc. apply invoke_frames; try done.
  - unfold same_prototype. congruence.
  - intros q d w Hq. unfold same_prototype. cbn.
    apply prototype_set. congruence.
Qed.

Lemma run_calls_prototype (history : list (Env * Call)) (w : World St) :
  avoids_proto history ->
  prototype (currentAttempts (snd (run_calls exec history w)))
  = prototype (currentAttempts w).
Proof.
  intros Hav. revert w. induction Hav as [|[env c] history Hc _ IH];
    intros w; [reflexivity|].
  cbn [run_calls]. pose proof (invoke_same_prototype env c Hc w) as H1.
  destruct (invoke exec env c w) as [r w1]. cbn [snd] in H1.
  specialize (IH w1).
  destruct (run_calls exec history w1) as [rs w2]. cbn [snd] in *.
  unfold same_prototype in H1. congruence.
Qed.

(** On an object literal, a name that [Object.prototype] does not have and
    under which no row is stored reads as a falsy value. *)
Lemma js_get_falsy (o : JsObject) (p : string) :
  prototype o = ObjectPrototype -> plain p -> row_of (js_get o p) = None ->
  truthy (js_get o p) = false.
Proof.
  intros Hproto Hp Hrow.
  destruct (own o !! p) as [[a|]|] eqn:Hown.
  - unfold js_get in Hrow. by rewrite Hown in Hrow.
  - unfold js_get. by rewrite Hown.
  - by rewrite js_get_plain.
Qed.

(** X18. Whatever the store does: on a page that never uses the prefix
    [__proto__], for a prefix that is not the name of a property of
    [Object.prototype] and for which no [createQuestionAttempt] or
    [updateQuestionAttempt] call has returned a row, [trackInput] and
    [updateQuestionAttempt] return [null] and leave the page and the store
    exactly as they were: no request is issued. *)
Theorem calls_before_first_attempt :
  forall sb storage (history : list (Env * Call)) (p : string),
    plain p ->
    avoids_proto history ->
    no_row_for exec p history (fresh_world sb storage) ->
    let w := snd (run_calls exec history (fresh_world sb storage)) in
    truthy (entry w p) = false
    /\ (forall env inputName inputValue inputType isFinalAnswer
               validationResult,
          trackInput exec env p inputName inputValue inputType isFinalAnswer
            validationResult w = (Normal None, w))
    /\ (forall env score maxScore isCorrect,
          updateQuestionAttempt exec env p score maxScore isCorrect w
          = (Normal None, w)).
Proof.
  intros sb storage history p Hp Hav Hno w.
  assert (Hfalsy : truthy (entry w p) = false).
  { apply js_get_falsy; [|exact Hp|].
    - unfold w. by rewrite run_calls_prototype.
    - by apply (no_row_no_attempt exec history sb storage p). }
  split; [exact Hfalsy|]. split.
  - intros. by apply trackInput_falsy_entry.
  - intros. by apply updateQuestionAttempt_falsy_entry.
Qed.
End BeforeCreate.

Lemma calls_before_first_attempt_witness :
  trackInput ref_exec env1 "q2_" "ans1" "x+1" "text" true None
    (snd (run_calls ref_exec history_ready (fresh_world (Some empty_store) ∅)))
  = (Normal None,
     snd (run_calls ref_exec history_ready (fresh_world (Some empty_store) ∅))).
Proof.
  apply (calls_before_first_attempt ref_exec (Some empty_store) ∅
           history_ready "q2_").
  - intros H. apply list_elem_of_In in H. cbn in H.
    repeat (destruct H as [H|H]; [discriminate H|]). destruct H.
  - repeat constructor; discriminate.
  - intros i env c a Hi Hc.
    destruct i as [|[|i]]; cbn in Hi; try discriminate Hi;
      injection Hi as <- <-; discriminate Hc.
Defined.

(** ** The text of an error *)

Lemma join_empty (sep : string) (parts : list string) :
  Forall (fun s => s <> "") parts -> join sep parts = "" -> parts = [].
Proof.
  destruct parts as [|p [|q rest]]; [done| |].
  - intros HF Hj. cbn in Hj. apply Forall_inv in HF. done.
  - intros HF Hj. apply Forall_inv in HF. cbn [join] in Hj.
    destruct p; [done | discriminate Hj].
Qed.

Lemma or_null_filled x s : or_null x = Some s -> s <> "".
Proof.
  unfold or_null. destruct x as [t|]; [|done].
  destruct (String.eqb_spec t ""); [done|]. by intros [= <-].
Qed.

Lemma push_if_filled x f parts :
  (forall s, s <> "" -> f s <> "") ->
  Forall (fun s => s <> "") parts ->
  Forall (fun s => s <> "") (push_if x f parts).
Proof.
  intros Hf HF. unfold push_if. destruct (or_null x) as [s|] eqn:Hx;
    [|exact HF].
  apply Forall_app. split; [exact HF|].
  constructor 2; [|constructor 1]. by apply Hf, (or_null_filled x).
Qed.

Lemma push_if_nil x f parts :
  push_if x f parts = [] <-> parts = [] /\ or_null x = None.
Proof.
  unfold push_if. destruct (or_null x) as [s|].
  - split; [|by intros [_ [=]]]. intros H. by destruct parts.
  - split; [done | by intros [? _]].
Qed.

(** X17. [formatSupabaseError] gives the empty text for exactly one kind of
    error: an object none of whose [message], [code], [details] and [hint]
    is truthy and whose JSON text is missing, empty or [{}].  A falsy error
    and a string never give the empty text. *)
Theorem formatSupabaseError_empty :
  forall err : ErrValue,
    formatSupabaseError err = ""
    <-> exists e json,
          err = ErrObject e json
          /\ or_null (message e) = None /\ or_null (code e) = None
          /\ or_null (details e) = None /\ or_null (hint e) = None
          /\ (json = None \/ json = Some "" \/ json = Some "{}").
Proof.
  intros [|s|e json]; cbn [formatSupabaseError].
  - split; [discriminate | by intros (? & ? & [=] & _)].
  - split; [|by intros (? & ? & [=] & _)].
    destruct (String.eqb_spec s ""); [discriminate | done].
  - cbv zeta.
    set (parts := push_if (hint e) _ (push_if (details e) _
                    (push_if (code e) _ (push_if (message e) _ [])))).
    assert (HF : Forall (fun s => s <> "") parts).
    { subst parts. repeat apply push_if_filled; try done; constructor 1. }
    assert (Hnil : parts = []
                   <-> or_null (message e) = None /\ or_null (code e) = None
                       /\ or_null (details e) = None
                       /\ or_null (hint e) = None).
    { subst parts. rewrite !push_if_nil. tauto. }
    split.
    + intros Hj. exists e, json. split; [reflexivity|].
      destruct json as [rest|].
      * destruct (String.eqb_spec rest "") as [->|Hne1].
        { cbn [orb] in Hj. apply join_empty in Hj; [|exact HF].
          apply Hnil in Hj. tauto. }
        destruct (String.eqb_spec rest "{}") as [->|Hne2].
        { cbn [orb] in Hj. apply join_empty in Hj; [|exact HF].
          apply Hnil in Hj. tauto. }
        cbn [orb] in Hj. apply join_empty in Hj.
        -- by destruct parts.
        -- apply Forall_app. split; [exact HF|].
           constructor 2; [exact Hne1 | constructor 1].
      * apply join_empty in Hj; [|exact HF]. apply Hnil in Hj. tauto.
    + intros (e' & json' & [= <- <-] & Hm & Hc & Hd & Hh & Hjson).
      assert (Hp : parts = []) by (apply Hnil; tauto).
      rewrite Hp. by destruct Hjson as [->|[->| ->]].
Qed.

Lemma formatSupabaseError_empty_witness :
  formatSupabaseError
    (ErrObject {| message := Some ""; code := None; details := None;
                  hint := None |} (Some "{}")) = "".
Proof.
  apply (proj2 (formatSupabaseError_empty _)).
  eexists _, _. split; [reflexivity|].
  repeat (split; [reflexivity|]). right. right. reflexivity.
Defined.
